(** * SuperMarket-book: configuration validator, navigation builder and
      template engine

    A shallow embedding of [src/ConfigValidator.js], of the navigation part
    of the book generator ([generateNavigationData],
    [generateDefaultNavigationOrder], [getPageTitle]), of the objects it
    writes to [package.json] and [book-config.json]
    ([generatePackageFile], [generateConfigFiles]) and of
    [src/TemplateEngine.js] ([render], [preprocessData], [renderTemplate],
    [getValueByPath], [addTemplate]), followed by the properties proved of
    them.

    Conventions of the embedding.
    - A JavaScript string is the Rocq [string] of its UTF-8 bytes.  The
      character classes of the source's regular expressions are made of
      ASCII characters or of whole code points, so that matching on bytes
      and matching on UTF-16 code units agree on well-formed text; [length]
      is computed in UTF-16 code units by [Str.js_length].
    - A decoded configuration or render context is a tree of [JS.value]s
      (what JSON or YAML decoding produces).  Numbers are integers: [n]
      stands for the double its numeral decodes to, and is printed as
      JavaScript prints that double ([Num.to_string]).
    - Property lookup ([JS.get]) sees the own properties of an object, the
      indices and [length] of an array and the code units and [length] of
      a string.  [JS.inherits] tells when a lookup finds a member of a
      built-in prototype instead; what the code does with such a member is
      not described, and the properties of arbitrary paths are stated for
      paths that read own properties only ([TemplateSpec.own_path]).
    - Converting a value to a string ([JS.ToString]) raises a [TypeError]
      for an object that has a property [toString] of its own.
    - A [throw] is the left injection of [JS.result]; [console.log] is left
      out.
    - What the code takes from its platform is a parameter: the URL parser
      behind [isValidUrl], and the day read from the clock by
      [preprocessData].
    - [render] returns, next to the text, the caller's data object as the
      call leaves it: [preprocessData] writes to an object it shares with
      the caller. *)

From Stdlib Require Import Ascii String ZArith Lia List Bool.
From stdpp Require Import base option list strings gmap fin_maps pretty.

Set Warnings "-register-all".
Local Open Scope nat_scope.

(** ** Characters and strings *)

Module Chars.

Definition code (c : ascii) : nat := nat_of_ascii c.

Definition in_range (lo hi : ascii) (c : ascii) : bool :=
  (code lo <=? code c) && (code c <=? code hi).

Definition eqb (a b : ascii) : bool := Ascii.eqb a b.

(** [\d] *)
Definition digit (c : ascii) : bool := in_range "0" "9" c.
(** [[1-9]] *)
Definition digit19 (c : ascii) : bool := in_range "1" "9" c.
Definition lower (c : ascii) : bool := in_range "a" "z" c.
Definition upper (c : ascii) : bool := in_range "A" "Z" c.
(** [[a-zA-Z-]] *)
Definition letter_hyphen (c : ascii) : bool :=
  lower c || upper c || eqb c "-".
(** [[0-9a-zA-Z-]] *)
Definition alnum_hyphen (c : ascii) : bool :=
  digit c || lower c || upper c || eqb c "-".
(** [[a-z0-9-]] *)
Definition lower_digit_hyphen (c : ascii) : bool :=
  lower c || digit c || eqb c "-".
(** [[a-zA-Z0-9\-_/]] *)
Definition nav_char (c : ascii) : bool :=
  lower c || upper c || digit c || eqb c "-" || eqb c "_" || eqb c "/".
(** [\w] *)
Definition word (c : ascii) : bool :=
  lower c || upper c || digit c || eqb c "_".

Definition to_upper (c : ascii) : ascii :=
  if lower c then ascii_of_nat (code c - 32) else c.
Definition to_lower (c : ascii) : ascii :=
  if upper c then ascii_of_nat (code c + 32) else c.

End Chars.

(** ** Regular expressions used through [RegExp.prototype.test]

    The validator's patterns are anchored at both ends ([^...$]) and use
    only classes, concatenation, alternation and repetition, so [test]
    decides membership of the whole string in the pattern's language. *)

Module Regex.

Inductive regex : Type :=
| Void : regex
| Eps : regex
| Class : (ascii → bool) → regex
| Seq : regex → regex → regex
| Alt : regex → regex → regex
| Star : regex → regex.

Definition Chr (c : ascii) : regex := Class (Chars.eqb c).
Definition Plus (r : regex) : regex := Seq r (Star r).
Definition Opt (r : regex) : regex := Alt r Eps.

Fixpoint nullable (r : regex) : bool :=
  match r with
  | Void => false
  | Eps => true
  | Class _ => false
  | Seq a b => nullable a && nullable b
  | Alt a b => nullable a || nullable b
  | Star _ => true
  end.

Fixpoint der (c : ascii) (r : regex) : regex :=
  match r with
  | Void => Void
  | Eps => Void
  | Class p => if p c then Eps else Void
  | Seq a b =>
      if nullable a then Alt (Seq (der c a) b) (der c b)
      else Seq (der c a) b
  | Alt a b => Alt (der c a) (der c b)
  | Star a => Seq (der c a) (Star a)
  end.

Fixpoint test (r : regex) (s : string) : bool :=
  match s with
  | EmptyString => nullable r
  | String c s' => test (der c r) s'
  end.

(** The language of a pattern. *)
Inductive lang : regex → string → Prop :=
| L_eps : lang Eps ""
| L_class p c : p c = true → lang (Class p) (String c "")
| L_seq a b s t : lang a s → lang b t → lang (Seq a b) (s +:+ t)
| L_alt_l a b s : lang a s → lang (Alt a b) s
| L_alt_r a b s : lang b s → lang (Alt a b) s
| L_star_nil a : lang (Star a) ""
| L_star_cons a s t : lang a s → lang (Star a) t → lang (Star a) (s +:+ t).

End Regex.

(** ** [ConfigValidator.isValidVersion] *)

Section SemverPattern.
Import Regex Chars.

(** [0|[1-9]\d*] *)
Definition re_numeric : regex :=
  Alt (Chr "0") (Seq (Class digit19) (Star (Class digit))).

(** [\d*[a-zA-Z-][0-9a-zA-Z-]*] *)
Definition re_alnum_ident : regex :=
  Seq (Star (Class digit))
      (Seq (Class letter_hyphen) (Star (Class alnum_hyphen))).

(** A prerelease identifier: [0|[1-9]\d*|\d*[a-zA-Z-][0-9a-zA-Z-]*]. *)
Definition re_pre_ident : regex := Alt re_numeric re_alnum_ident.

(** [[0-9a-zA-Z-]+] *)
Definition re_build_ident : regex := Plus (Class alnum_hyphen).

(** [x] followed by any number of [\.x]. *)
Definition re_dotted (x : regex) : regex :=
  Seq x (Star (Seq (Chr ".") x)).

Definition semverRegex : regex :=
  Seq re_numeric (Seq (Chr ".") (Seq re_numeric (Seq (Chr ".")
    (Seq re_numeric
      (Seq (Opt (Seq (Chr "-") (re_dotted re_pre_ident)))
           (Opt (Seq (Chr "+") (re_dotted re_build_ident)))))))).

Definition isValidVersion (version : string) : bool :=
  test semverRegex version.
End SemverPattern.


(** ** String helpers: the string methods and scanning steps of the source *)

Module Str.

Definition is_empty (s : string) : bool :=
  match s with EmptyString => true | _ => false end.

(** [s.startsWith(p)], returning what follows the prefix. *)
Fixpoint strip_prefix (p s : string) : option string :=
  match p, s with
  | EmptyString, _ => Some s
  | String a p', String b s' =>
      if Chars.eqb a b then strip_prefix p' s' else None
  | String _ _, EmptyString => None
  end.

(** The longest prefix whose characters satisfy [f], and the rest: what
    a greedy class repetition consumes. *)
Fixpoint span (f : ascii → bool) (s : string) : string * string :=
  match s with
  | EmptyString => (EmptyString, EmptyString)
  | String c s' =>
      if f c then let '(a, b) := span f s' in (String c a, b)
      else (EmptyString, s)
  end.

(** The text before and after the first occurrence of [pat]: what a lazy
    [[\s\S]*?] followed by the literal [pat] consumes. *)
Fixpoint find_sub (pat s : string) : option (string * string) :=
  match strip_prefix pat s with
  | Some rest => Some (EmptyString, rest)
  | None =>
      match s with
      | EmptyString => None
      | String c s' =>
          match find_sub pat s' with
          | Some (a, b) => Some (String c a, b)
          | None => None
          end
      end
  end.

Definition contains (pat s : string) : bool :=
  match find_sub pat s with Some _ => true | None => false end.

(** [s.replace(/pat$/, '')] for a literal [pat]. *)
Fixpoint strip_suffix (pat s : string) : string :=
  if String.eqb s pat then EmptyString
  else match s with
       | EmptyString => EmptyString
       | String c s' => String c (strip_suffix pat s')
       end.

Fixpoint all (f : ascii → bool) (s : string) : bool :=
  match s with
  | EmptyString => true
  | String c s' => f c && all f s'
  end.

Fixpoint map (f : ascii → ascii) (s : string) : string :=
  match s with
  | EmptyString => EmptyString
  | String c s' => String (f c) (map f s')
  end.

(** The concatenation of the strings of a list *)
Fixpoint concat (parts : list string) : string :=
  match parts with
  | [] => EmptyString
  | x :: rest => x +:+ concat rest
  end.

(** [parts.join(sep)] *)
Fixpoint join (sep : string) (parts : list string) : string :=
  match parts with
  | [] => EmptyString
  | [x] => x
  | x :: rest => x +:+ sep +:+ join sep rest
  end.

(** [s.split(sep)] for a one-character separator. *)
Fixpoint split (sep : ascii) (s : string) : list string :=
  match s with
  | EmptyString => [EmptyString]
  | String c s' =>
      if Chars.eqb c sep then EmptyString :: split sep s'
      else match split sep s' with
           | x :: rest => String c x :: rest
           | [] => [String c EmptyString]
           end
  end.

(** The number of bytes of the white-space character ([\s], also what
    [trim] removes) at the head of [s], 0 when there is none: TAB, LF, VT,
    FF, CR, SP, U+00A0, U+1680, U+2000..U+200A, U+2028, U+2029, U+202F,
    U+205F, U+3000, U+FEFF. *)
Definition ws_len (s : string) : nat :=
  match s with
  | String c s1 =>
      let n := Chars.code c in
      if ((9 <=? n) && (n <=? 13)) || (n =? 32) then 1
      else match s1 with
      | String d s2 =>
          let m := Chars.code d in
          if (n =? 194) && (m =? 160) then 2
          else match s2 with
          | String e _ =>
              let k := Chars.code e in
              if (n =? 225) && (m =? 154) && (k =? 128) then 3
              else if (n =? 226) && (m =? 128) &&
                      (((128 <=? k) && (k <=? 138)) || (k =? 168) ||
                       (k =? 169) || (k =? 175)) then 3
              else if (n =? 226) && (m =? 129) && (k =? 159) then 3
              else if (n =? 227) && (m =? 128) && (k =? 128) then 3
              else if (n =? 239) && (m =? 187) && (k =? 191) then 3
              else 0
          | EmptyString => 0
          end
      | EmptyString => 0
      end
  | EmptyString => 0
  end.

Fixpoint drop (n : nat) (s : string) : string :=
  match n, s with
  | S n', String _ s' => drop n' s'
  | _, _ => s
  end.

(** Is [s] made of white space only?  [skip] counts the bytes still to
    pass over of the current character. *)
Fixpoint all_ws_go (skip : nat) (s : string) : bool :=
  match s with
  | EmptyString => true
  | String _ s' =>
      match skip with
      | S k => all_ws_go k s'
      | O => match ws_len s with
             | O => false
             | S k => all_ws_go k s'
             end
      end
  end.
Definition all_ws (s : string) : bool := all_ws_go 0 s.

Fixpoint trim_start_go (skip : nat) (s : string) : string :=
  match s with
  | EmptyString => EmptyString
  | String _ s' =>
      match skip with
      | S k => trim_start_go k s'
      | O => match ws_len s with
             | O => s
             | S k => trim_start_go k s'
             end
      end
  end.
Definition trim_start (s : string) : string := trim_start_go 0 s.

Fixpoint trim_end (s : string) : string :=
  if all_ws s then EmptyString
  else match s with
       | EmptyString => EmptyString
       | String c s' => String c (trim_end s')
       end.

(** [s.trim()] *)
Definition trim (s : string) : string := trim_end (trim_start s).

(** [s.length]: UTF-16 code units of the text whose UTF-8 bytes are [s]
    (continuation bytes count for nothing, a four-byte character for
    two). *)
Fixpoint js_length (s : string) : nat :=
  match s with
  | EmptyString => 0
  | String c s' =>
      let n := Chars.code c in
      (if (128 <=? n) && (n <? 192) then 0
       else if 240 <=? n then 2 else 1) + js_length s'
  end.

(** The characters (code points) of a string, as iteration yields them. *)
Fixpoint chars_go (cur : option string) (s : string) : list string :=
  match s with
  | EmptyString => match cur with Some x => [String.rev x] | None => [] end
  | String c s' =>
      let n := Chars.code c in
      if (128 <=? n) && (n <? 192)
      then chars_go (Some (String c (default EmptyString cur))) s'
      else match cur with
           | Some x => String.rev x :: chars_go (Some (String c "")) s'
           | None => chars_go (Some (String c "")) s'
           end
  end.
Definition chars (s : string) : list string := chars_go None s.

(** The UTF-16 code units of a string, each as a string of its own: a
    character of the basic plane is one unit; a character beyond it (four
    bytes) is two surrogates, each written as the three bytes that the
    UTF-8 scheme gives its code. *)
Definition unit_bytes (u : N) : string :=
  String (ascii_of_N (224 + u / 4096))
    (String (ascii_of_N (128 + (u / 64) mod 64))
       (String (ascii_of_N (128 + u mod 64)) EmptyString)).

Definition code_units (c : string) : list string :=
  match c with
  | String a (String b (String d (String e EmptyString))) =>
      if (240 <=? N_of_ascii a)%N then
        let cp := ((N_of_ascii a - 240) * 262144 + (N_of_ascii b - 128) * 4096 +
                   (N_of_ascii d - 128) * 64 + (N_of_ascii e - 128))%N in
        let u := (cp - 65536)%N in
        [unit_bytes (55296 + u / 1024); unit_bytes (56320 + u mod 1024)]
      else [c]
  | _ => [c]
  end.

Definition units (s : string) : list string := chars s ≫= code_units.

(** [s.replace(re, f)] with the [g] flag, for a pattern that never
    matches the empty string: [m] tries the pattern at the head of its
    argument and gives the replacement text and the number of bytes
    matched; matching resumes after the match. *)
Fixpoint replace_go (m : string → option (string * nat)) (skip : nat)
    (s : string) : string :=
  match s with
  | EmptyString => EmptyString
  | String c s' =>
      match skip with
      | S k => replace_go m k s'
      | O => match m s with
             | Some (r, n) => r +:+ replace_go m (Nat.pred n) s'
             | None => String c (replace_go m 0 s')
             end
      end
  end.
Definition replace_all (m : string → option (string * nat)) (s : string)
    : string := replace_go m 0 s.

End Str.

(** ** JavaScript values *)

(** ** Numbers as text *)

(** A number of a decoded tree is a double.  The embedding has the
    integers: [n] stands for the double that the numeral of [n] decodes
    to, [double n], which is [n] itself below [2^53], the nearest
    multiple of the spacing of the doubles from there on (the one with
    the even mantissa when two are as near), and infinite from [2^1024].
    [to_string] is [Number::toString] of that double: its decimal numeral
    below [2^53]; from there on the shortest decimal that still rounds to
    the double, written in full below [10^21] and with an exponent
    above. *)
Module Num.
Local Open Scope Z_scope.

Definition round_positive (n : Z) : Z :=
  if n <? 2 ^ 53 then n
  else
    let q := Z.log2 n - 52 in
    let m := n / 2 ^ q in
    let r := n mod 2 ^ q in
    let half := 2 ^ (q - 1) in
    let m' := if r <? half then m
              else if half <? r then m + 1
              else if Z.even m then m else m + 1 in
    m' * 2 ^ q.

Definition double (n : Z) : Z :=
  if n <? 0 then - round_positive (- n) else round_positive n.

Definition digits (n : Z) : Z := Z.of_nat (String.length (pretty n)).

(** The decimals with [k] digits nearest to [n], when they round to the
    double [n]: [lo2] and [hi2] are twice the bounds of the interval that
    rounds to [n], the bounds included when the mantissa is even. *)
Definition candidate (n lo2 hi2 : Z) (closed : bool) (k : Z) : option Z :=
  let p := digits n - k in
  if p <? 0 then Some n
  else
    let unit := 10 ^ p in
    let c0 := n / unit * unit in
    let c1 := c0 + unit in
    let inside c :=
      if closed then (lo2 <=? 2 * c) && (2 * c <=? hi2)
      else (lo2 <? 2 * c) && (2 * c <? hi2) in
    match inside c0, inside c1 with
    | true, true =>
        if n - c0 <? c1 - n then Some c0
        else if c1 - n <? n - c0 then Some c1
        else if Z.even (n / unit) then Some c0 else Some c1
    | true, false => Some c0
    | false, true => Some c1
    | false, false => None
    end.

Fixpoint shortest_go (fuel : nat) (n lo2 hi2 : Z) (closed : bool) (k : Z)
    : Z :=
  match fuel with
  | O => n
  | S fuel' =>
      match candidate n lo2 hi2 closed k with
      | Some c => c
      | None => shortest_go fuel' n lo2 hi2 closed (k + 1)
      end
  end.

Definition shortest (n : Z) : Z :=
  let b := Z.log2 n in
  let q := b - 52 in
  let below := if n =? 2 ^ b then 2 ^ (q - 1) else 2 ^ q in
  shortest_go 17 n (2 * n - below) (2 * n + 2 ^ q) (Z.even (n / 2 ^ q)) 1.

Fixpoint strip_zeros (fuel : nat) (v : Z) : Z :=
  match fuel with
  | O => v
  | S fuel' => if v mod 10 =? 0 then strip_zeros fuel' (v / 10) else v
  end.

Definition exponential (v : Z) : string :=
  let e := digits v - 1 in
  match pretty (strip_zeros (Z.to_nat e) v) with
  | String d EmptyString => String d ("e+" +:+ pretty e)
  | String d rest => String d ("." +:+ rest +:+ "e+" +:+ pretty e)
  | EmptyString => EmptyString
  end.

Definition positive_to_string (n : Z) : string :=
  let d := round_positive n in
  if d <? 2 ^ 53 then pretty d
  else if 2 ^ 1024 <=? d then "Infinity"
  else let v := shortest d in
       if v <? 10 ^ 21 then pretty v else exponential v.

Definition to_string (n : Z) : string :=
  if n <? 0 then "-" +:+ positive_to_string (- n) else positive_to_string n.

End Num.

Module JS.

Inductive value : Type :=
| VUndef : value
| VNull : value
| VBool : bool → value
| VNum : Z → value
| VStr : string → value
| VArr : list value → value
| VObj : list (string * value) → value.

(** What a [throw] carries: one of the [Error]s the source builds, whose
    text [message] gives, or a [TypeError], raised by the language itself
    (a property read on [null] or [undefined], a call of something that is
    not a function, a spread of something that is not iterable, a
    conversion to a string that fails). *)
Inductive item_kind : Type := Chapter | Appendix.
Inductive item_problem : Type :=
| IdRequired | TitleRequired | IdNotString | TitleNotString | IdFormat.

Inductive error : Type :=
| ConfigShapeError : error
| RequiredFieldsMissing : list string → error
| FieldTypeError : string → error
| TitleTooLong : error
| DescriptionTooLong : error
| VersionFormatError : error
| SectionNotArray : item_kind → error
| StructureItemError : item_kind → nat → item_problem → error
| NavOrderNotArray : error
| NavOrderDuplicate : error
| NavOrderInvalidEntry : error
| NavOrderInvalidFormat : list string → error
| RepoUrlNotString : error
| RepoUrlInvalid : error
| RepoBranchNotString : error
| TemplateNotFound : string → error
| TypeError : error.

Definition result (A : Type) : Type := error + A.
Definition ok {A : Type} (a : A) : result A := inr a.
Definition throw {A : Type} (e : error) : result A := inl e.
Definition bind {A B : Type} (r : result A) (k : A → result B)
    : result B :=
  match r with inl e => inl e | inr a => k a end.

(** [cond] guards a [throw]: [if (cond) throw e]. *)
Definition throw_if (cond : bool) (e : error) : result unit :=
  if cond then throw e else ok tt.

(** [for (const x of xs) body(x)] *)
Fixpoint for_each {A : Type} (body : A → result unit) (xs : list A)
    : result unit :=
  match xs with
  | [] => ok tt
  | x :: rest => bind (body x) (λ _, for_each body rest)
  end.

(** [xs.map(f)] for an [f] that may raise: the results in order, up to
    the first that raises. *)
Fixpoint sequence {A : Type} (rs : list (result A)) : result (list A) :=
  match rs with
  | [] => ok []
  | r :: rest => bind r (λ x, bind (sequence rest) (λ xs, ok (x :: xs)))
  end.

(** Two texts computed one after the other, and their concatenation. *)
Definition cat (a b : result string) : result string :=
  bind a (λ x, bind b (λ y, ok (x +:+ y))).
Definition collect (rs : list (result string)) : result string :=
  foldr cat (ok EmptyString) rs.

(** [s.replace(re, f)] with the [g] flag, for a replacement function
    [f] that may raise and a pattern that never matches the empty
    string: [m] tries the pattern at the head of its argument and gives
    what [f] returns, converted to a string, and the number of bytes
    matched; matching resumes after the match. *)
Fixpoint replace_with_go (m : string → option (result string * nat))
    (skip : nat) (s : string) : result string :=
  match s with
  | EmptyString => ok EmptyString
  | String c s' =>
      match skip with
      | S k => replace_with_go m k s'
      | O => match m s with
             | Some (r, n) => cat r (replace_with_go m (Nat.pred n) s')
             | None => cat (ok (String c EmptyString)) (replace_with_go m 0 s')
             end
      end
  end.
Definition replace_with (m : string → option (result string * nat))
    (s : string) : result string := replace_with_go m 0 s.

(** ToBoolean *)
Definition truthy (v : value) : bool :=
  match v with
  | VUndef | VNull => false
  | VBool b => b
  | VNum n => negb (n =? 0)%Z
  | VStr s => negb (Str.is_empty s)
  | VArr _ | VObj _ => true
  end.

(** [typeof v === 'string'] and [typeof v === 'object'] *)
Definition is_string (v : value) : bool :=
  match v with VStr _ => true | _ => false end.
Definition typeof_object (v : value) : bool :=
  match v with VNull | VArr _ | VObj _ => true | _ => false end.
(** [Array.isArray(v)] *)
Definition isArray (v : value) : bool :=
  match v with VArr _ => true | _ => false end.

(** [a || b] *)
Definition or_else (a b : value) : value := if truthy a then a else b.

Fixpoint assoc (k : string) (props : list (string * value)) : option value :=
  match props with
  | [] => None
  | (k', v) :: rest => if String.eqb k k' then Some v else assoc k rest
  end.

(** [o[k] = v] on the own properties of an object *)
Fixpoint assoc_set (k : string) (v : value) (props : list (string * value))
    : list (string * value) :=
  match props with
  | [] => [(k, v)]
  | (k', v') :: rest =>
      if String.eqb k k' then (k, v) :: rest
      else (k', v') :: assoc_set k v rest
  end.

(** The array index a property key denotes, if any: the canonical decimal
    numerals. *)
Definition index_of_key (n : nat) (k : string) : option nat :=
  list_find (λ i, k = pretty i) (seq 0 n) ≫= λ p, Some (fst p).

(** [v[k]] for [v] other than [null] and [undefined], on the properties
    that [v] has of its own: those of an object, the elements and the
    length of an array, the code units and the length of a string. *)
Definition get (v : value) (k : string) : value :=
  match v with
  | VObj props => default VUndef (assoc k props)
  | VArr items =>
      if String.eqb k "length" then VNum (Z.of_nat (length items))
      else match index_of_key (length items) k with
           | Some i => nth i items VUndef
           | None => VUndef
           end
  | VStr s =>
      if String.eqb k "length" then VNum (Z.of_nat (Str.js_length s))
      else match index_of_key (Str.js_length s) k with
           | Some i => match Str.units s !! i with
                       | Some c => VStr c
                       | None => VUndef
                       end
           | None => VUndef
           end
  | _ => VUndef
  end.

(** The members that the values of a decoded tree find in their
    prototypes: [Object.prototype] for all of them, and [Array.prototype],
    [String.prototype], [Number.prototype] or [Boolean.prototype]. *)
Definition object_members : list string :=
  ["constructor"; "__proto__"; "__defineGetter__"; "__defineSetter__";
   "__lookupGetter__"; "__lookupSetter__"; "hasOwnProperty";
   "isPrototypeOf"; "propertyIsEnumerable"; "toLocaleString"; "toString";
   "valueOf"].
Definition array_members : list string :=
  ["at"; "concat"; "copyWithin"; "entries"; "every"; "fill"; "filter";
   "find"; "findIndex"; "findLast"; "findLastIndex"; "flat"; "flatMap";
   "forEach"; "group"; "groupToMap"; "includes"; "indexOf"; "join"; "keys";
   "lastIndexOf"; "map"; "pop"; "push"; "reduce"; "reduceRight"; "reverse";
   "shift"; "slice"; "some"; "sort"; "splice"; "toReversed"; "toSorted";
   "toSpliced"; "unshift"; "values"; "with"].
Definition string_members : list string :=
  ["anchor"; "at"; "big"; "blink"; "bold"; "charAt"; "charCodeAt";
   "codePointAt"; "concat"; "endsWith"; "fixed"; "fontcolor"; "fontsize";
   "includes"; "indexOf"; "isWellFormed"; "italics"; "lastIndexOf"; "link";
   "localeCompare"; "match"; "matchAll"; "normalize"; "padEnd"; "padStart";
   "repeat"; "replace"; "replaceAll"; "search"; "slice"; "small"; "split";
   "startsWith"; "strike"; "sub"; "substr"; "substring"; "sup";
   "toLocaleLowerCase"; "toLocaleUpperCase"; "toLowerCase"; "toUpperCase";
   "toWellFormed"; "trim"; "trimEnd"; "trimLeft"; "trimRight"; "trimStart"].
Definition number_members : list string :=
  ["toExponential"; "toFixed"; "toPrecision"].

(** Does [v[k]] find a member of a prototype?  [get] describes the
    properties a value has of its own: it is [v[k]] exactly where
    [inherits v k] is false. *)
Definition inherits (v : value) (k : string) : bool :=
  match v with
  | VUndef | VNull => false
  | VBool _ => bool_decide (k ∈ object_members)
  | VNum _ => bool_decide (k ∈ number_members ++ object_members)
  | VStr _ => bool_decide (k ∈ string_members ++ object_members)
  | VArr _ => bool_decide (k ∈ array_members ++ object_members)
  | VObj props =>
      match assoc k props with
      | Some _ => false
      | None => bool_decide (k ∈ object_members)
      end
  end.

(** [v == null] *)
Definition nullish (v : value) : bool :=
  match v with VUndef | VNull => true | _ => false end.

(** An object or an array: what the operator [in] accepts on its right. *)
Definition is_object (v : value) : bool :=
  match v with VArr _ | VObj _ => true | _ => false end.

(** [v.k]: a [TypeError] on [null] and [undefined] *)
Definition get_prop (v : value) (k : string) : result value :=
  match v with
  | VUndef | VNull => throw TypeError
  | _ => ok (get v k)
  end.

(** [k in v] for an object or an array *)
Definition has_prop (k : string) (v : value) : bool :=
  match v with
  | VObj props => bool_decide (is_Some (assoc k props))
  | VArr items =>
      String.eqb k "length" ||
      bool_decide (is_Some (index_of_key (length items) k))
  | _ => false
  end.

(** ToString.  The elements of an array are joined with a comma, [null]
    and [undefined] elements giving the empty string. *)
Fixpoint to_string (v : value) : string :=
  match v with
  | VUndef => "undefined"
  | VNull => "null"
  | VBool true => "true"
  | VBool false => "false"
  | VNum n => Num.to_string n
  | VStr s => s
  | VArr items =>
      Str.join ","
        ((fix elems (l : list value) : list string :=
            match l with
            | [] => []
            | x :: rest =>
                match x with
                | VUndef | VNull => EmptyString
                | _ => to_string x
                end :: elems rest
            end) items)
  | VObj _ => "[object Object]"
  end.

(** Does ToString return?  An object of a decoded tree is converted by
    the [toString] it inherits unless it has a property of that name of
    its own, which is no function: then the conversion raises a
    [TypeError].  An array converts its elements. *)
Fixpoint stringable (v : value) : bool :=
  match v with
  | VObj props =>
      match assoc "toString" props with Some _ => false | None => true end
  | VArr items =>
      (fix all (l : list value) : bool :=
         match l with
         | [] => true
         | x :: rest => stringable x && all rest
         end) items
  | _ => true
  end.

(** ToString as the code meets it: [to_string] is its value where it
    returns. *)
Definition ToString (v : value) : result string :=
  if stringable v then ok (to_string v) else throw TypeError.

(** Strict equality [a === b] with a string on the right *)
Definition strict_eq_str (a : value) (s : string) : bool :=
  match a with VStr t => String.eqb t s | _ => false end.

(** SameValueZero, the equality of [Set]: two objects of a decoded tree
    are never the same object. *)
Definition same_value_zero (a b : value) : bool :=
  match a, b with
  | VUndef, VUndef | VNull, VNull => true
  | VBool x, VBool y => Bool.eqb x y
  | VNum x, VNum y => (Num.double x =? Num.double y)%Z
  | VStr x, VStr y => String.eqb x y
  | _, _ => false
  end.

(** [new Set(xs).size] *)
Fixpoint set_size (xs : list value) : nat :=
  match xs with
  | [] => 0
  | x :: rest =>
      if existsb (same_value_zero x) rest
      then set_size rest else S (set_size rest)
  end.

End JS.

(** ** [ConfigValidator] *)

Module ConfigValidator.
Import JS.

Definition dquote : string := String "034"%char EmptyString.

Definition kind_label (k : item_kind) : string :=
  match k with Chapter => "章" | Appendix => "付録" end.
Definition section_name (k : item_kind) : string :=
  match k with Chapter => "chapters" | Appendix => "appendices" end.
Definition problem_text (p : item_problem) : string :=
  match p with
  | IdRequired => "id が必要です"
  | TitleRequired => "title が必要です"
  | IdNotString => "id は文字列である必要があります"
  | TitleNotString => "title は文字列である必要があります"
  | IdFormat => "id は英小文字、数字、ハイフンのみ使用できます"
  end.

(** [error.message] for the errors the source builds; the text of a
    [TypeError] is the engine's own, of which only the name is given. *)
Definition message (e : error) : string :=
  match e with
  | ConfigShapeError => "設定ファイルが正しくありません"
  | RequiredFieldsMissing missing =>
      "必須フィールドが不足しています: " +:+ Str.join ", " missing
  | FieldTypeError field => field +:+ " は文字列である必要があります"
  | TitleTooLong => "タイトルは100文字以内で入力してください"
  | DescriptionTooLong => "説明は500文字以内で入力してください"
  | VersionFormatError =>
      "バージョンは semantic versioning 形式で入力してください (例: 1.0.0)"
  | SectionNotArray k => section_name k +:+ " は配列である必要があります"
  | StructureItemError k index p =>
      kind_label k +:+ " " +:+ pretty index +:+ ": " +:+ problem_text p
  | NavOrderNotArray => "navigation.order は配列である必要があります"
  | NavOrderDuplicate => "navigation.order に重複したパスが含まれています"
  | NavOrderInvalidEntry => "navigation.order に無効なパスが含まれています"
  | NavOrderInvalidFormat bad =>
      "navigation.order に無効な形式のパスが含まれています: " +:+
      Str.join ", " bad
  | RepoUrlNotString => "repository.url は文字列である必要があります"
  | RepoUrlInvalid => "repository.url は有効なURL形式である必要があります"
  | RepoBranchNotString => "repository.branch は文字列である必要があります"
  | TemplateNotFound name =>
      "テンプレート " +:+ dquote +:+ name +:+ dquote +:+ " が見つかりません"
  | TypeError => "TypeError"
  end.

Definition requiredFields : list string := ["title"; "description"; "author"].

(** [/^[a-z0-9-]+$/] *)
Definition idRegex : Regex.regex :=
  Regex.Plus (Regex.Class Chars.lower_digit_hyphen).
(** [/^[a-zA-Z0-9\-_/]+$/] *)
Definition navPathRegex : Regex.regex :=
  Regex.Plus (Regex.Class Chars.nav_char).

(** [re.test(v)] converts its argument to a string first; where the code
    calls it, [v] is a string. *)
Definition test_value (re : Regex.regex) (v : value) : bool :=
  Regex.test re (to_string v).

(** [field in config] is a [TypeError] unless [config] is an object. *)
Definition validateRequiredFields (config : value) : result unit :=
  if negb (is_object config) then throw TypeError
  else
    let missingFields :=
      filter (λ field,
                negb (has_prop field config) || negb (truthy (get config field)) = true)
             requiredFields in
    throw_if (0 <? length missingFields) (RequiredFieldsMissing missingFields).

Definition length_gt (v : value) (n : nat) : bool :=
  match get v "length" with
  | VNum len => (Z.of_nat n <? len)%Z
  | _ => false
  end.

Definition validateDataTypes (config : value) : result unit :=
  bind (for_each
          (λ field,
             bind (get_prop config field) (λ v,
             throw_if (truthy v && negb (is_string v)) (FieldTypeError field)))
          ["title"; "description"; "author"; "version"; "language"]) (λ _,
  bind (throw_if (truthy (get config "title") &&
                  length_gt (get config "title") 100) TitleTooLong) (λ _,
  bind (throw_if (truthy (get config "description") &&
                  length_gt (get config "description") 500)
                 DescriptionTooLong) (λ _,
  throw_if (truthy (get config "version") &&
            negb (isValidVersion (to_string (get config "version"))))
           VersionFormatError))).

(** [validateChapter] and [validateAppendix] differ by their label only. *)
Definition validateItem (k : item_kind) (item : value) (index : nat)
    : result unit :=
  bind (get_prop item "id") (λ id,
  bind (throw_if (negb (truthy id)) (StructureItemError k index IdRequired)) (λ _,
  bind (throw_if (negb (truthy (get item "title")))
                 (StructureItemError k index TitleRequired)) (λ _,
  bind (throw_if (negb (is_string id))
                 (StructureItemError k index IdNotString)) (λ _,
  bind (throw_if (negb (is_string (get item "title")))
                 (StructureItemError k index TitleNotString)) (λ _,
  throw_if (negb (test_value idRegex id))
           (StructureItemError k index IdFormat)))))).

Definition validateChapter := validateItem Chapter.
Definition validateAppendix := validateItem Appendix.

(** [for (const [index, item] of items.entries()) check(item, index + 1)] *)
Fixpoint for_entries (check : value → nat → result unit) (index : nat)
    (items : list value) : result unit :=
  match items with
  | [] => ok tt
  | item :: rest =>
      bind (check item (index + 1)) (λ _, for_entries check (S index) rest)
  end.

Definition validateSection (k : item_kind) (structure : value) : result unit :=
  let items := get structure (section_name k) in
  if truthy items then
    match items with
    | VArr l => for_entries (validateItem k) 0 l
    | _ => throw (SectionNotArray k)
    end
  else ok tt.

Definition validateStructure (config : value) : result unit :=
  bind (get_prop config "structure") (λ structure,
  if negb (truthy structure) then ok tt
  else bind (validateSection Chapter structure) (λ _,
            validateSection Appendix structure)).

Definition validateNavigation (config : value) : result unit :=
  bind (get_prop config "navigation") (λ navigation,
  if negb (truthy navigation) then ok tt
  else
    let order := get navigation "order" in
    if truthy order then
      match order with
      | VArr paths =>
          bind (throw_if (negb (set_size paths =? length paths))
                         NavOrderDuplicate) (λ _,
          let invalidPaths :=
            filter (λ path, negb (truthy path) || negb (is_string path) = true)
                   paths in
          bind (throw_if (0 <? length invalidPaths) NavOrderInvalidEntry) (λ _,
          let invalidFormat :=
            filter (λ path, negb (test_value navPathRegex path) = true) paths in
          throw_if (0 <? length invalidFormat)
                   (NavOrderInvalidFormat (to_string <$> invalidFormat))))
      | _ => throw NavOrderNotArray
      end
    else ok tt).

Section WithUrlParser.
(** [new URL(url)] is the platform's URL parser: [isValidUrl url] tells
    whether it accepts [url]. *)
Variable isValidUrl : string → bool.

Definition validateRepository (config : value) : result unit :=
  bind (get_prop config "repository") (λ repo,
  if negb (truthy repo) then ok tt
  else
    bind (throw_if (truthy (get repo "url") && negb (is_string (get repo "url")))
                   RepoUrlNotString) (λ _,
    bind (throw_if (truthy (get repo "url") &&
                    negb (isValidUrl (to_string (get repo "url"))))
                   RepoUrlInvalid) (λ _,
    throw_if (truthy (get repo "branch") &&
              negb (is_string (get repo "branch")))
             RepoBranchNotString))).

Definition validate (config : value) : result unit :=
  if negb (truthy config) || negb (typeof_object config)
  then throw ConfigShapeError
  else
    bind (validateRequiredFields config) (λ _,
    bind (validateDataTypes config) (λ _,
    bind (validateStructure config) (λ _,
    bind (validateNavigation config) (λ _,
    validateRepository config)))).

End WithUrlParser.

End ConfigValidator.

(** ** The navigation builder of the book generator

    [generateNavigationData] up to the point where the navigation object is
    handed to [JSON.stringify] and written out; creating the [_data]
    directory and writing the file are the file-system layer's. *)

Module Navigation.
Import JS.

Record link := { path : string; title : value }.
Record entry := {
  previous : option link;
  next : option link;
  index : nat;
  total : nat
}.

(** [p.replace(/^\//, '').replace(/\.html$/, '')] *)
Definition cleanPath (p : string) : string :=
  Str.strip_suffix ".html" (default p (Str.strip_prefix "/" p)).

(** [xs.forEach(...)] is a [TypeError] unless [xs] is an array. *)
Definition as_array (v : value) : result (list value) :=
  match v with VArr l => ok l | _ => throw TypeError end.

(** [item.path.replace(...)] is a [TypeError] unless the path is a
    string. *)
Definition clean_of (p : value) : result string :=
  match p with VStr s => ok (cleanPath s) | _ => throw TypeError end.

(** One [forEach] of [generateDefaultNavigationOrder], pushing onto
    [order]. *)
Fixpoint push_paths (items : list value) (order : list value)
    : result (list value) :=
  match items with
  | [] => ok order
  | item :: rest =>
      bind (get_prop item "path") (λ p,
      if truthy p then
        bind (clean_of p) (λ c, push_paths rest (order ++ [VStr c]))
      else push_paths rest order)
  end.

Definition push_section (structure : value) (name : string)
    (order : list value) : result (list value) :=
  if truthy (get structure name) then
    bind (as_array (get structure name)) (λ items, push_paths items order)
  else ok order.

Definition generateDefaultNavigationOrder (config : value)
    : result (list value) :=
  bind (get_prop config "structure") (λ s,
  let structure := or_else s (VObj []) in
  bind (push_section structure "introduction" []) (λ o1,
  bind (push_section structure "chapters" o1) (λ o2,
  bind (push_section structure "conclusion" o2) (λ o3,
  push_section structure "appendices" o3)))).

(** [...(xs || [])]: the elements of an array, the characters of a
    string; anything else that is truthy is not iterable. *)
Definition spread_or_empty (v : value) : result (list value) :=
  if truthy v then
    match v with
    | VArr l => ok l
    | VStr s => ok (VStr <$> Str.chars s)
    | _ => throw TypeError
    end
  else ok [].

(** [s.replace(/[-_/]/g, ' ')] *)
Definition spaced (s : string) : string :=
  Str.map (λ c, if Chars.eqb c "-" || Chars.eqb c "_" || Chars.eqb c "/"
                then " "%char else c) s.

(** [s.replace(/\b\w/g, l => l.toUpperCase())]: a word character that
    does not follow a word character. *)
Fixpoint capitalize_go (after_word : bool) (s : string) : string :=
  match s with
  | EmptyString => EmptyString
  | String c s' =>
      String (if Chars.word c && negb after_word then Chars.to_upper c else c)
             (capitalize_go (Chars.word c) s')
  end.
Definition capitalize (s : string) : string := capitalize_go false s.

Fixpoint find_title (items : list value) (pagePath : value)
    : result (option value) :=
  match items with
  | [] => ok None
  | item :: rest =>
      bind (get_prop item "path") (λ p,
      if truthy p then
        bind (clean_of p) (λ c,
        if strict_eq_str pagePath c
        then ok (Some (or_else (get item "title") pagePath))
        else find_title rest pagePath)
      else find_title rest pagePath)
  end.

Definition getPageTitle (config : value) (pagePath : value) : result value :=
  bind (get_prop config "structure") (λ s,
  let structure := or_else s (VObj []) in
  bind (spread_or_empty (get structure "introduction")) (λ a,
  bind (spread_or_empty (get structure "chapters")) (λ b,
  bind (spread_or_empty (get structure "conclusion")) (λ c,
  bind (spread_or_empty (get structure "appendices")) (λ d,
  bind (find_title (a ++ b ++ c ++ d) pagePath) (λ found,
  match found with
  | Some t => ok t
  | None =>
      match pagePath with
      | VStr s => ok (VStr (capitalize (spaced s)))
      | _ => throw TypeError
      end
  end)))))).

(** [p ? { path: `/${p}.html`, title: this.getPageTitle(config, p) } : null] *)
Definition link_to (config : value) (p : value) : result (option link) :=
  if truthy p then
    bind (ToString p) (λ s,
    bind (getPageTitle config p) (λ t,
    ok (Some {| path := "/" +:+ s +:+ ".html"; title := t |})))
  else ok None.

(** [navigationData[key] = e].  Assigning an object to the key
    [__proto__] sets the prototype and creates no property. *)
Definition obj_set (key : string) (e : entry) (o : gmap string entry)
    : gmap string entry :=
  if String.eqb key "__proto__" then o else <[key := e]> o.

(** The object literal built for the page at position [i]. *)
Definition entryAt (config : value) (navigationOrder : list value) (i : nat)
    : result entry :=
  let prevPath := if 0 <? i then nth (i - 1) navigationOrder VUndef else VNull in
  let nextPath := if i <? length navigationOrder - 1
                  then nth (i + 1) navigationOrder VUndef else VNull in
  bind (link_to config prevPath) (λ prev,
  bind (link_to config nextPath) (λ nxt,
  ok {| previous := prev; next := nxt; index := i;
        total := length navigationOrder |})).

(** The body of the [forEach] over [navigationOrder]; the key
    [navigationData[pagePath]] is [pagePath] converted to a string. *)
Definition visit (config : value) (navigationOrder : list value)
    (navigationData : gmap string entry) (pagePath : value) (i : nat)
    : result (gmap string entry) :=
  bind (entryAt config navigationOrder i) (λ e,
  bind (ToString pagePath) (λ key,
  ok (obj_set key e navigationData))).

Fixpoint for_each_indexed (config : value) (navigationOrder : list value)
    (rest : list value) (i : nat) (navigationData : gmap string entry)
    : result (gmap string entry) :=
  match rest with
  | [] => ok navigationData
  | pagePath :: rest' =>
      bind (visit config navigationOrder navigationData pagePath i)
           (for_each_indexed config navigationOrder rest' (S i))
  end.

(** [config.navigation?.order], else the default order. *)
Definition navigationOrder (config : value) : result (list value) :=
  bind (get_prop config "navigation") (λ navigation,
  let order := match navigation with
               | VUndef | VNull => VUndef
               | _ => get navigation "order"
               end in
  if truthy order then as_array order
  else generateDefaultNavigationOrder config).

Definition generateNavigationData (config : value)
    : result (gmap string entry) :=
  bind (navigationOrder config) (λ order,
  for_each_indexed config order order 0 ∅).

End Navigation.

(** ** [TemplateEngine]

    The registry [this.templates] is a map from names to template texts;
    the templates that the constructor loads are entries like those
    [addTemplate] adds. *)

Module TemplateEngine.
Import JS.

(** The loop of [getValueByPath] over the keys of the path. *)
Fixpoint walk_keys (current : value) (keys : list string) : value :=
  match keys with
  | [] => current
  | key :: rest =>
      match current with
      | VNull | VUndef => VUndef
      | _ => walk_keys (get current key) rest
      end
  end.

Definition getValueByPath (obj : value) (path : string) : value :=
  if negb (truthy obj) || negb (typeof_object obj) then VUndef
  else walk_keys obj (Str.split "." path).

(** *** The patterns of [renderTemplate] *)

Definition not_rbrace (c : ascii) : bool := negb (Chars.eqb c "}").

(** [\s+] has taken one white-space character and goes on greedily, as
    long as it leaves something for the [[^}]+] that follows. *)
Fixpoint greedy_ws (fuel : nat) (r : string) : string :=
  match fuel with
  | O => r
  | S f =>
      match Str.ws_len r with
      | O => r
      | n => if Str.is_empty (Str.drop n r) then r
             else greedy_ws f (Str.drop n r)
      end
  end.

(** [\s+([^}]+)] against the whole of [sp], a run of characters other
    than a closing brace: the captured group. *)
Definition capture_after_ws (sp : string) : option string :=
  match Str.ws_len sp with
  | O => None
  | n => let r := Str.drop n sp in
         if Str.is_empty r then None
         else Some (greedy_ws (String.length r) r)
  end.

(** [\{\{#name\s+([^}]+)\}\}([\s\S]*?)\{\{\/name\}\}] at the head of [s],
    with [opening] the text [{{#name] and [closing] the text [{{/name}}]:
    the two groups and the length of the match. *)
Definition block_match (opening closing : string) (s : string)
    : option (string * string * nat) :=
  r1 ← Str.strip_prefix opening s;
  let '(sp, r2) := Str.span not_rbrace r1 in
  r3 ← Str.strip_prefix "}}" r2;
  arg ← capture_after_ws sp;
  '(content, _) ← Str.find_sub closing r3;
  Some (arg, content,
        String.length opening + String.length sp + 2 +
        String.length content + String.length closing).

(** [\{\{([^...]+)\}\}] at the head of [s], for a negated class that
    excludes the closing brace: the group and the length of the match. *)
Definition var_match (allowed : ascii → bool) (s : string)
    : option (string * nat) :=
  r1 ← Str.strip_prefix "{{" s;
  let '(key, r2) := Str.span allowed r1 in
  if Str.is_empty key then None
  else _ ← Str.strip_prefix "}}" r2; Some (key, String.length key + 4).

(** [[^}@]] and [[^}#/@]] *)
Definition item_key_char (c : ascii) : bool :=
  negb (Chars.eqb c "}" || Chars.eqb c "@").
Definition var_key_char (c : ascii) : bool :=
  negb (Chars.eqb c "}" || Chars.eqb c "#" || Chars.eqb c "/" ||
        Chars.eqb c "@").

(** [\{\{else\}\}([\s\S]*?)(?=\{\{\/)] at the head of [s] *)
Definition else_match (s : string) : option (string * nat) :=
  r ← Str.strip_prefix "{{else}}" s;
  '(content, _) ← Str.find_sub "{{/" r;
  Some (content, 8 + String.length content).

(** [v || ''] as replacement text: what the replacement function
    returns is converted to a string. *)
Definition text_or_empty (v : value) : result string :=
  ToString (or_else v (VStr "")).

(** The body of an [{{#each}}] block for one element *)
Definition renderItem (content : string) (item : value) (index : nat)
    : result string :=
  let itemContent :=
    Str.replace_all
      (λ s, _ ← Str.strip_prefix "{{@index}}" s;
            Some (pretty (index + 1), 10))
      content in
  replace_with
    (λ s, '(key, n) ← var_match item_key_char s;
          let trimmedKey := Str.trim key in
          Some (if String.eqb trimmedKey "this" then ToString item
                else text_or_empty (getValueByPath item trimmedKey), n))
    itemContent.

Definition ifPass (data : value) (template : string) : string :=
  Str.replace_all
    (λ s, '(condition, content, n) ← block_match "{{#if" "{{/if}}" s;
          Some (if truthy (getValueByPath data (Str.trim condition))
                then content else "", n))
    template.

Definition eachPass (data : value) (template : string) : result string :=
  replace_with
    (λ s, '(arrayPath, content, n) ← block_match "{{#each" "{{/each}}" s;
          Some (match getValueByPath data (Str.trim arrayPath) with
                | VArr array =>
                    bind (sequence (imap (λ index item,
                                            renderItem content item index)
                                         array)) (λ parts,
                    ok (Str.join "" parts))
                | _ => ok ""
                end, n))
    template.

Definition elsePass (template : string) : string :=
  Str.replace_all else_match template.

Definition varPass (data : value) (template : string) : result string :=
  replace_with
    (λ s, '(key, n) ← var_match var_key_char s;
          Some (text_or_empty (getValueByPath data (Str.trim key)), n))
    template.

Definition renderTemplate (template : string) (data : value)
    : result string :=
  bind (eachPass data (ifPass data template)) (λ result,
  varPass data (elsePass result)).

(** *** [preprocessData] *)

(** [{ ...data }]: the own enumerable properties, which are the
    elements of an array and the code units of a string *)
Definition spread (data : value) : list (string * value) :=
  match data with
  | VObj props => props
  | VArr items => imap (λ i v, (pretty i, v)) items
  | VStr s => imap (λ i c, (pretty i, VStr c)) (Str.units s)
  | _ => []
  end.

(** Is the character whose three UTF-8 bytes are given in U+3040..U+30FF
    or U+4E00..U+9FAF? *)
Definition kept_cjk (s : string) : bool :=
  match s with
  | String a (String b (String c _)) =>
      let '(x, y, z) := (N_of_ascii a, N_of_ascii b, N_of_ascii c) in
      ((224 <=? x) && (x <? 240) && (128 <=? y) && (y <? 192) &&
       (128 <=? z) && (z <? 192) &&
       let cp := (x - 224) * 4096 + (y - 128) * 64 + (z - 128) in
       ((12352 <=? cp) && (cp <=? 12543)) ||
       ((19968 <=? cp) && (cp <=? 40879)))%N
  | _ => false
  end.

(** [.replace(/[^a-z0-9぀-ゟ゠-ヿ一-龯]/g, '-')];
    [keep] counts the bytes still to copy of a kept character. *)
Fixpoint dash_others (keep : nat) (s : string) : string :=
  match s with
  | EmptyString => EmptyString
  | String c s' =>
      match keep with
      | S k => String c (dash_others k s')
      | O =>
          if Chars.lower c || Chars.digit c then String c (dash_others 0 s')
          else if kept_cjk s then String c (dash_others 2 s')
          else String "-" (dash_others 0 s')
      end
  end.

(** [.replace(/-+/g, '-')] *)
Fixpoint collapse_dashes (s : string) : string :=
  match s with
  | String a ((String b _) as s') =>
      if Chars.eqb a "-" && Chars.eqb b "-" then collapse_dashes s'
      else String a (collapse_dashes s')
  | _ => s
  end.

(** [.replace(/^-|-$/g, '')] *)
Definition trim_dashes (s : string) : string :=
  Str.strip_suffix "-" (default s (Str.strip_prefix "-" s)).

(** [s.toLowerCase()] as far as the pattern that follows can tell: the
    ASCII letters, and the two characters outside ASCII whose lower-case
    form holds an ASCII letter, U+0130 (bytes 196 176), which becomes an
    [i] and U+0307 (bytes 204 135), and U+212A (bytes 226 132 170), which
    becomes a [k].  Every other character is outside the kept ranges
    before and after the conversion. *)
Fixpoint toLowerCase (s : string) : string :=
  match s with
  | EmptyString => EmptyString
  | String c s1 =>
      match s1 with
      | EmptyString => String (Chars.to_lower c) EmptyString
      | String d s2 =>
          if Chars.eqb c "196" && Chars.eqb d "176"
          then String "i" (String "204" (String "135" (toLowerCase s2)))
          else
            match s2 with
            | EmptyString => String (Chars.to_lower c) (toLowerCase s1)
            | String e s3 =>
                if Chars.eqb c "226" && Chars.eqb d "132" && Chars.eqb e "170"
                then String "k" (toLowerCase s3)
                else String (Chars.to_lower c) (toLowerCase s1)
            end
      end
  end.

Definition packageName (title : string) : string :=
  trim_dashes (collapse_dashes (dash_others 0 (toLowerCase title))).

Definition not_slash (c : ascii) : bool := negb (Chars.eqb c "/").

(** [github\.com\/([^/]+)\/([^/]+)] at the head of [s] *)
Definition github_at (s : string) : option (string * string) :=
  r1 ← Str.strip_prefix "github.com/" s;
  let '(owner, r2) := Str.span not_slash r1 in
  if Str.is_empty owner then None
  else r3 ← Str.strip_prefix "/" r2;
       let '(name, _) := Str.span not_slash r3 in
       if Str.is_empty name then None else Some (owner, name).

(** [url.match(/github\.com\/([^/]+)\/([^/]+)/)]: the leftmost match *)
Fixpoint github_match (url : string) : option (string * string) :=
  match github_at url with
  | Some m => Some m
  | None =>
      match url with
      | EmptyString => None
      | String _ rest => github_match rest
      end
  end.

(** [processed] is a copy of the top level of [data] only: the object
    under [repository] is the caller's own, so what is written to
    [processed.repository] is written to [data.repository].  The caller's
    data object is threaded through as state: [preprocessData] returns the
    processed data and the caller's data object as the call leaves it. *)
Definition write_repository (owner name : string) (repository : value)
    : value :=
  match repository with
  | VObj props =>
      VObj (assoc_set "name" (VStr (Str.strip_suffix ".git" name))
              (assoc_set "owner" (VStr owner) props))
  | _ => repository
  end.

Definition set_own (k : string) (v : value) (o : value) : value :=
  match o with
  | VObj props => VObj (assoc_set k v props)
  | _ => o
  end.

Section WithClock.
(** [new Date().toISOString().split('T')[0]]: the day the clock gives *)
Variable today : string.

Definition preprocessData (data : value) : result (value * value) :=
  let processed := VObj (spread data) in
  let processed :=
    set_own "version" (or_else (get processed "version") (VStr "1.0.0"))
            processed in
  let processed :=
    set_own "language" (or_else (get processed "language") (VStr "ja"))
            processed in
  let processed :=
    set_own "license" (or_else (get processed "license") (VStr "MIT"))
            processed in
  let processed := set_own "currentDate" (VStr today) processed in
  bind (if truthy (get processed "title") then
          match get processed "title" with
          | VStr title => ok (set_own "packageName"
                                (VStr (packageName title)) processed)
          | _ => throw TypeError
          end
        else ok processed) (λ processed,
  let repository := get processed "repository" in
  let url := match repository with
             | VUndef | VNull => VUndef
             | _ => get repository "url"
             end in
  if truthy url then
    match url with
    | VStr u =>
        match github_match u with
        | Some (owner, name) =>
            let shared := write_repository owner name repository in
            ok (set_own "repository" shared processed,
                set_own "repository" shared data)
        | None => ok (processed, data)
        end
    | _ => throw TypeError
    end
  else ok (processed, data)).

(** [render]: the text rendered, and the caller's data object as the
    call leaves it. *)
Definition render (templates : gmap string string) (templateName : string)
    (data : value) : result (string * value) :=
  match templates !! templateName with
  | Some template =>
      if Str.is_empty template then throw (TemplateNotFound templateName)
      else
        bind (preprocessData data) (λ '(processedData, data'),
        bind (renderTemplate template processedData) (λ text,
        ok (text, data')))
  | None => throw (TemplateNotFound templateName)
  end.
End WithClock.

Definition addTemplate (name template : string)
    (templates : gmap string string) : gmap string string :=
  <[name := template]> templates.

End TemplateEngine.

(** ** [BookGenerator]: the files built from the configuration *)

Module BookGenerator.
Import JS TemplateEngine.

(** [o?.k] *)
Definition get_opt (o : value) (k : string) : value :=
  match o with VUndef | VNull => VUndef | _ => get o k end.

(** The [homepage] of the package data: the template literals convert
    what they hold to strings. *)
Definition homepage (deployment repository : value) : result value :=
  if truthy (get_opt deployment "customDomain")
  then bind (ToString (get deployment "customDomain")) (λ domain,
       ok (VStr ("https://" +:+ domain)))
  else if truthy (get_opt repository "owner")
  then bind (ToString (get repository "owner")) (λ owner,
       bind (ToString (or_else (get repository "name") (VStr "repo")))
            (λ name,
       ok (VStr ("https://" +:+ owner +:+ ".github.io/" +:+ name))))
  else ok VUndef.

(** The object that [generatePackageFile] serialises into
    [package.json]. *)
Definition packageData (config : value) : result value :=
  bind (get_prop config "repository") (λ repository,
  let deployment := get config "deployment" in
  bind (homepage deployment repository) (λ homepage,
  ok (VObj [
    ("name", or_else (get_opt repository "name") (VStr "book"));
    ("version", or_else (get config "version") (VStr "1.0.0"));
    ("description", or_else (get config "description") (VStr ""));
    ("author", or_else (get config "author") (VStr ""));
    ("license", VStr "MIT");
    ("scripts", VObj [
       ("build", VStr "bundle exec jekyll build");
       ("serve", VStr "bundle exec jekyll serve --livereload");
       ("deploy", VStr "npm run build && gh-pages -d _site");
       ("deploy-setup", VStr "gh-pages-clean");
       ("validate-deploy", VStr "node scripts/validate-github-pages.js");
       ("pages-status", VStr "node scripts/check-pages-status.js")]);
    ("devDependencies", VObj [("gh-pages", VStr "^6.0.0")]);
    ("repository",
       if truthy (get_opt repository "url")
       then VObj [("type", VStr "git"); ("url", get repository "url")]
       else VUndef);
    ("homepage", homepage)]))).

(** The object that [generateConfigFiles] serialises into
    [book-config.json]. *)
Definition bookConfig (config : value) : result value :=
  bind (get_prop config "title") (λ title,
  ok (VObj [
    ("title", title);
    ("description", get config "description");
    ("author", get config "author");
    ("version", or_else (get config "version") (VStr "1.0.0"));
    ("structure", get config "structure")])).

End BookGenerator.

(** * Reference definitions

    Definitions that follow the words of the specification, against which
    the functions above are compared. *)

(** ** The semantic-versioning grammar

    [MAJOR.MINOR.PATCH[-prerelease][+build]]: the three numeric parts are
    non-negative integers without a leading zero; a prerelease and a build
    are dot-separated identifiers over [[0-9A-Za-z-]], and a prerelease
    identifier made of digits only has no leading zero either. *)

Module SemVer.

Definition numeric (s : string) : Prop :=
  s ≠ "" ∧ Str.all Chars.digit s = true ∧ (∀ t, s = String "0" t → t = "").

Definition identifier (s : string) : Prop :=
  s ≠ "" ∧ Str.all Chars.alnum_hyphen s = true.

Definition prerelease_identifier (s : string) : Prop :=
  identifier s ∧ (Str.all Chars.digit s = true → numeric s).

Definition dotted (P : string → Prop) (s : string) : Prop :=
  ∃ id ids, s = Str.join "." (id :: ids) ∧ Forall P (id :: ids).

Definition optional (lead : string) (P : string → Prop) (s : string) : Prop :=
  s = "" ∨ ∃ t, s = lead +:+ t ∧ P t.

Definition version (s : string) : Prop :=
  ∃ major minor patch pre build,
    s = major +:+ "." +:+ minor +:+ "." +:+ patch +:+ pre +:+ build ∧
    numeric major ∧ numeric minor ∧ numeric patch ∧
    optional "-" (dotted prerelease_identifier) pre ∧
    optional "+" (dotted identifier) build.

End SemVer.

(** ** Vocabulary of the validator's contract *)

Module ValidatorSpec.
Import JS.

(** A required field is missing or falsy. *)
Definition missing_or_falsy (config : value) (field : string) : Prop :=
  has_prop field config = false ∨ truthy (get config field) = false.

(** The errors of the repository step and of the navigation-order step. *)
Definition is_repository_error (e : error) : bool :=
  match e with
  | RepoUrlNotString | RepoUrlInvalid | RepoBranchNotString => true
  | _ => false
  end.

Definition is_navigation_error (e : error) : bool :=
  match e with
  | NavOrderNotArray | NavOrderDuplicate | NavOrderInvalidEntry
  | NavOrderInvalidFormat _ => true
  | _ => false
  end.

End ValidatorSpec.

(** ** Walking the navigation chain *)

Module NavigationSpec.
Import Navigation.

(** Follow the [next] links from the entry of [key] until [null]: the
    keys visited, in order.  [None] when a link leads nowhere or when
    [fuel] entries have been visited without reaching [null]. *)
Fixpoint walk (nav : gmap string entry) (fuel : nat) (key : string)
    : option (list string) :=
  match fuel with
  | O => None
  | S fuel' =>
      e ← nav !! key;
      match next e with
      | None => Some [key]
      | Some l => rest ← walk nav fuel' (cleanPath (path l)); Some (key :: rest)
      end
  end.

Definition link_of (key : string) (t : JS.value) : link :=
  {| path := "/" +:+ key +:+ ".html"; title := t |}.

(** A section item as the data model has it, [{ id, title, path? }], each
    field a string when present; a structure whose four section lists are
    lists of such items, when present. *)
Record section_item := {
  item_id : option string;
  item_title : option string;
  item_path : option string
}.

Definition field (name : string) (v : option string)
    : list (string * JS.value) :=
  match v with Some s => [(name, JS.VStr s)] | None => [] end.

Definition item_value (it : section_item) : JS.value :=
  JS.VObj (field "id" (item_id it) ++ field "title" (item_title it) ++
           field "path" (item_path it)).

Definition section (name : string) (items : option (list section_item))
    : list (string * JS.value) :=
  match items with
  | Some l => [(name, JS.VArr (item_value <$> l))]
  | None => []
  end.

Definition structure_of
    (introduction chapters conclusion appendices
       : option (list section_item)) : JS.value :=
  JS.VObj (section "introduction" introduction ++ section "chapters" chapters ++
           section "conclusion" conclusion ++ section "appendices" appendices).

(** The page key of an item: its path without the leading slash and the
    trailing [.html]; none for an item without a path. *)
Definition page_key (it : section_item) : option string :=
  p ← item_path it; if Str.is_empty p then None else Some (cleanPath p).

Definition page_keys (items : option (list section_item)) : list string :=
  match items with Some l => omap page_key l | None => [] end.

End NavigationSpec.

(** ** Vocabulary of the template engine's contract *)

Module TemplateSpec.
Import JS TemplateEngine.

(** Text without an opening brace: no directive starts in it. *)
Definition not_lbrace (c : ascii) : bool := negb (Chars.eqb c "{").
Definition plain (s : string) : Prop := Str.all not_lbrace s = true.

(** A path as a directive names it: not empty, and free of braces and of
    the characters [#], [/] and [@] that mark the other directives. *)
Definition path_char (c : ascii) : bool :=
  negb (Chars.eqb c "{" || Chars.eqb c "}" || Chars.eqb c "#" ||
        Chars.eqb c "/" || Chars.eqb c "@").
Definition plain_path (key : string) : Prop :=
  key ≠ "" ∧ Str.all path_char key = true.

(** The falsy values that are defined: [false], [0] and [''] (and
    [null]). *)
Definition defined_falsy (v : value) : Prop :=
  v ≠ VUndef ∧ truthy v = false.

(** The body of an iteration block as a sequence of text and of the three
    directives an element is rendered with. *)
Inductive token : Type :=
| Text : string → token
| Index : token
| This : token
| Sub : string → token.

Definition show_token (t : token) : string :=
  match t with
  | Text s => s
  | Index => "{{@index}}"
  | This => "{{this}}"
  | Sub key => "{{" +:+ key +:+ "}}"
  end.

Definition body_text (body : list token) : string :=
  Str.concat (show_token <$> body).

Definition wf_token (t : token) : Prop :=
  match t with
  | Text s => plain s
  | Index | This => True
  | Sub key => plain_path key ∧ Str.trim key ≠ "this"
  end.

(** *** The reference the engine is compared with

    These definitions follow the description of the directives, not the
    code of the engine.

    The value at a dotted path: [obj[a][b][c]] for the path [a.b.c],
    [undefined] from a [null] or an [undefined] on the way on, and
    [undefined] for anything but an object or an array to start from. *)
Fixpoint descend (v : value) (keys : list string) : value :=
  match keys with
  | [] => v
  | key :: rest => if nullish v then VUndef else descend (get v key) rest
  end.

Definition resolve (obj : value) (path : string) : value :=
  if is_object obj then descend obj (Str.split "." path) else VUndef.

(** Does the walk along a path read own properties only? *)
Fixpoint own_keys (v : value) (keys : list string) : bool :=
  match keys with
  | [] => true
  | key :: rest =>
      nullish v || negb (inherits v key) && own_keys (get v key) rest
  end.

Definition own_path (obj : value) (path : string) : bool :=
  negb (is_object obj) || own_keys obj (Str.split "." path).

Definition own_token (item : value) (t : token) : bool :=
  match t with Sub key => own_path item (Str.trim key) | _ => true end.
Definition own_body (body : list token) (array : list value) : bool :=
  forallb (λ item, forallb (own_token item) body) array.

(** The text a value is shown as: nothing for a falsy value, and no
    text at all, but a [TypeError], for a value that cannot be converted
    to a string. *)
Definition shown (v : value) : result string :=
  if truthy v then ToString v else ok "".

(** What a token of the body of an iteration block becomes for the
    element [item] at the 0-based position [k]: the position plus one,
    the element as a string, the value at a path of the element as a
    string. *)
Definition token_value (item : value) (k : nat) (t : token)
    : result string :=
  match t with
  | Text s => ok s
  | Index => ok (pretty (k + 1))
  | This => ToString item
  | Sub key => shown (resolve item (Str.trim key))
  end.

Definition each_value (body : list token) (array : list value)
    : result string :=
  collect (imap (λ k item, collect (token_value item k <$> body)) array).

(** [data.repository?.url] *)
Definition url_of (data : value) : value :=
  let repository := get data "repository" in
  match repository with
  | VUndef | VNull => VUndef
  | _ => get repository "url"
  end.

(** A falsy value or a string: what [title] and [repository.url] have to
    be for [preprocessData] to call [toLowerCase] and [match] on them. *)
Definition string_or_falsy (v : value) : Prop :=
  truthy v = false ∨ is_string v = true.

(** *** Auxiliary definitions of the proofs *)

(** No occurrence of [pat] starts inside [a] in the text [a +:+ rest]. *)
Fixpoint starts_nowhere (pat a rest : string) : Prop :=
  match a with
  | EmptyString => True
  | String c a' =>
      Str.strip_prefix pat (a +:+ rest) = None ∧ starts_nowhere pat a' rest
  end.

(** A pattern that starts with two opening braces. *)
Definition needs_open {A : Type} (m : string → option (A * nat)) : Prop :=
  ∀ s, Str.strip_prefix "{{" s = None → m s = None.

(** What follows the opening braces of a directive token. *)
Definition inner_of (t : token) : string :=
  match t with
  | Text _ => ""
  | Index => "@index}}"
  | This => "this}}"
  | Sub key => key +:+ "}}"
  end.

Definition is_text (t : token) : bool :=
  match t with Text _ => true | _ => false end.

(** A token after the replacement of [{{@index}}] at position [k], and
    the text it becomes in the replacement that follows. *)
Definition after_index (k : nat) (t : token) : token :=
  match t with Index => Text (pretty (k + 1)) | _ => t end.

Definition after_item (item : value) (k : nat) (t : token)
    : result string :=
  match t with Index => ok "{{@index}}" | _ => token_value item k t end.

(** The defaults [preprocessData] writes into the copy. *)
Definition defaults (today : string) (props : list (string * value))
    : list (string * value) :=
  let p1 := assoc_set "version"
              (or_else (get (VObj props) "version") (VStr "1.0.0")) props in
  let p2 := assoc_set "language"
              (or_else (get (VObj p1) "language") (VStr "ja")) p1 in
  let p3 := assoc_set "license"
              (or_else (get (VObj p2) "license") (VStr "MIT")) p2 in
  assoc_set "currentDate" (VStr today) p3.

(** The two steps that follow, on the copy [processed] and on the
    caller's [data]. *)
Definition title_step (processed : value) : result value :=
  if truthy (get processed "title") then
    match get processed "title" with
    | VStr title => ok (set_own "packageName" (VStr (packageName title))
                          processed)
    | _ => throw TypeError
    end
  else ok processed.

Definition repository_step (processed data : value)
    : result (value * value) :=
  if truthy (url_of processed) then
    match url_of processed with
    | VStr u =>
        match github_match u with
        | Some (owner, name) =>
            let shared :=
              write_repository owner name (get processed "repository") in
            ok (set_own "repository" shared processed,
                set_own "repository" shared data)
        | None => ok (processed, data)
        end
    | _ => throw TypeError
    end
  else ok (processed, data).

Definition default_key (k : string) : Prop :=
  k = "version" ∨ k = "language" ∨ k = "license" ∨ k = "currentDate".

End TemplateSpec.

(** ** Sample inputs *)

(** ** Reference definitions of the further properties *)

Module ValidatorContract.
Import JS.

(** What [validateChapter] and [validateAppendix] ask of an item. *)
Definition valid_item (item : value) : bool :=
  match get item "id", get item "title" with
  | VStr id, VStr title =>
      negb (Str.is_empty id) && Str.all Chars.lower_digit_hyphen id &&
      negb (Str.is_empty title)
  | _, _ => false
  end.

(** What [validateNavigation] asks of a truthy [navigation.order]. *)
Definition valid_order (order : value) : Prop :=
  ∃ keys, order = VArr (VStr <$> keys) ∧ NoDup keys ∧
          Forall (λ k, k ≠ "" ∧ Str.all Chars.nav_char k = true) keys.

(** A non-empty string of at most [limit] UTF-16 code units. *)
Definition bounded_text (v : value) (limit : nat) : Prop :=
  ∃ s, v = VStr s ∧ s ≠ "" ∧ Str.js_length s ≤ limit.

(** The fields of a configuration that [validate] reads. *)
Definition checked_fields : list string :=
  ["title"; "description"; "author"; "version"; "language"; "structure";
   "navigation"; "repository"].

End ValidatorContract.

Module NavigationContract.
Import JS Navigation NavigationSpec.

(** The four sections of a structure;
    an item that [getPageTitle] can read: not [null] or [undefined], its
    [path] falsy or a string; a section it can read: falsy, or an array
    of such items. *)
Definition section_names : list string :=
  ["introduction"; "chapters"; "conclusion"; "appendices"].

Definition readable_item (item : value) : Prop :=
  nullish item = false ∧
  (truthy (get item "path") = false ∨ is_string (get item "path") = true).

Definition readable_section (section : value) : Prop :=
  truthy section = false ∨
  ∃ items, section = VArr items ∧ Forall readable_item items.

Definition section_items (section : value) : list value :=
  match section with VArr items => items | _ => [] end.

(** The items of the four sections of a structure, in the order in which
    [getPageTitle] searches them. *)
Definition structure_items (structure : value) : list value :=
  section_items (get structure "introduction") ++
  section_items (get structure "chapters") ++
  section_items (get structure "conclusion") ++
  section_items (get structure "appendices").

(** The page key of an item: its path, a non-empty string, without the
    leading slash and the trailing [.html]. *)
Definition item_key (item : value) : option string :=
  match get item "path" with
  | VStr p => if Str.is_empty p then None else Some (cleanPath p)
  | _ => None
  end.

(** The title of the first item whose page key is [key], the key itself
    when the title of that item is falsy; without such an item, the key
    with its separators turned into spaces and its words capitalised. *)
Definition title_in (items : list value) (key : string) : value :=
  match list_find (λ item, item_key item = Some key) items with
  | Some (_, item) =>
      if truthy (get item "title") then get item "title" else VStr key
  | None => VStr (capitalize (spaced key))
  end.

(** [-], [_] and [/] *)
Definition separator (c : ascii) : bool :=
  Chars.eqb c "-" || Chars.eqb c "_" || Chars.eqb c "/".

End NavigationContract.

Module TemplateContract.
Import JS TemplateEngine TemplateSpec.

(** What a token of a template becomes outside of any block: a variable
    directive gives the value at its path, [{{this}}] is the variable
    [this], and [{{@index}}] is no directive there. *)
Definition top_value (data : value) (t : token) : result string :=
  match t with
  | Text s => ok s
  | Index => ok "{{@index}}"
  | This => shown (resolve data "this")
  | Sub key => shown (resolve data (Str.trim key))
  end.

Definition rendered (data : value) (body : list token) : result string :=
  collect (top_value data <$> body).

(** The replacement functions of the three passes that take the data. *)
Definition if_pattern (data : value) : string → option (string * nat) :=
  λ s, '(condition, content, n) ← block_match "{{#if" "{{/if}}" s;
       Some (if truthy (getValueByPath data (Str.trim condition))
             then content else "", n).

Definition each_pattern (data : value)
    : string → option (result string * nat) :=
  λ s, '(arrayPath, content, n) ← block_match "{{#each" "{{/each}}" s;
       Some (match getValueByPath data (Str.trim arrayPath) with
             | VArr array =>
                 bind (sequence (imap (λ index item,
                                         renderItem content item index)
                                      array)) (λ parts,
                 ok (Str.join "" parts))
             | _ => ok ""
             end, n).

Definition var_pattern (data : value)
    : string → option (result string * nat) :=
  λ s, '(key, n) ← var_match var_key_char s;
       Some (text_or_empty (getValueByPath data (Str.trim key)), n).

End TemplateContract.

Module TemplateSyntax.
Import JS TemplateEngine TemplateSpec TemplateContract.

(** A template as its author reads it: text and variable directives,
    iteration blocks over them, and conditional blocks around those. *)
Inductive node : Type :=
| Tok : token → node
| Each : string → list token → node.

Inductive block : Type :=
| Plain : node → block
| If : string → list node → block.

Definition show_node (n : node) : string :=
  match n with
  | Tok t => show_token t
  | Each path body =>
      "{{#each " +:+ path +:+ "}}" +:+ body_text body +:+ "{{/each}}"
  end.

Definition show_nodes (nodes : list node) : string :=
  Str.concat (show_node <$> nodes).

Definition show_block (b : block) : string :=
  match b with
  | Plain n => show_node n
  | If path content =>
      "{{#if " +:+ path +:+ "}}" +:+ show_nodes content +:+ "{{/if}}"
  end.

Definition show_template (blocks : list block) : string :=
  Str.concat (show_block <$> blocks).

(** What the blocks stand for: a text, or the [TypeError] of a value
    that cannot be converted to a string. *)
Definition each_output (data : value) (path : string) (body : list token)
    : result string :=
  match resolve data (Str.trim path) with
  | VArr array => each_value body array
  | _ => ok ""
  end.

Definition eval_node (data : value) (n : node) : result string :=
  match n with
  | Tok t => top_value data t
  | Each path body => each_output data path body
  end.

Definition eval_block (data : value) (b : block) : result string :=
  match b with
  | Plain n => eval_node data n
  | If path content =>
      if truthy (resolve data (Str.trim path))
      then collect (eval_node data <$> content) else ok ""
  end.

Definition eval_template (data : value) (blocks : list block)
    : result string :=
  collect (eval_block data <$> blocks).

(** The text of a result; none is the empty text. *)
Definition text_of (r : result string) : string :=
  match r with inr s => s | inl _ => "" end.

(** The paths of the blocks are plain and start without white space; the
    text an iteration block expands to holds no opening brace. *)
Definition wf_node (data : value) (n : node) : Prop :=
  match n with
  | Tok t => wf_token t
  | Each path body =>
      plain_path path ∧ Str.ws_len path = 0 ∧ Forall wf_token body ∧
      plain (text_of (each_output data path body))
  end.

Definition wf_block (data : value) (b : block) : Prop :=
  match b with
  | Plain n => wf_node data n
  | If path content =>
      plain_path path ∧ Str.ws_len path = 0 ∧ Forall (wf_node data) content
  end.

(** The nodes that the conditional pass leaves of a block, and the token
    that the iteration pass leaves of a node. *)
Definition chosen (data : value) (b : block) : list node :=
  match b with
  | Plain n => [n]
  | If path content =>
      if truthy (resolve data (Str.trim path)) then content else []
  end.

Definition first_char_is_not_slash (s : string) : Prop :=
  match s with String c _ => c ≠ "/"%char | EmptyString => False end.

(** What the iteration pass makes of a node. *)
Definition settled_text (data : value) (n : node) : result string :=
  match n with
  | Tok t => ok (show_token t)
  | Each path body => each_output data path body
  end.

(** The paths of a template read own properties only. *)
Definition own_top (data : value) (t : token) : bool :=
  match t with
  | Sub key => own_path data (Str.trim key)
  | This => own_path data "this"
  | _ => true
  end.

Definition own_node (data : value) (n : node) : bool :=
  match n with
  | Tok t => own_top data t
  | Each path body =>
      own_path data (Str.trim path) &&
      match resolve data (Str.trim path) with
      | VArr array => own_body body array
      | _ => true
      end
  end.

Definition own_block (data : value) (b : block) : bool :=
  match b with
  | Plain n => own_node data n
  | If path content =>
      own_path data (Str.trim path) && forallb (own_node data) content
  end.

Definition settled (data : value) (n : node) : token :=
  match n with
  | Tok t => t
  | Each path body => Text (text_of (each_output data path body))
  end.

End TemplateSyntax.

Module PreprocessContract.
Import JS TemplateEngine.

Definition not_g (c : ascii) : bool := negb (Chars.eqb c "g").


(** Can the values that the homepage of the package data is made of be
    converted to strings? *)
Definition homepage_converts (config : value) : bool :=
  let domain := BookGenerator.get_opt (get config "deployment") "customDomain" in
  let owner := BookGenerator.get_opt (get config "repository") "owner" in
  let name := BookGenerator.get_opt (get config "repository") "name" in
  if truthy domain then stringable domain
  else if truthy owner
       then stringable owner && stringable (or_else name (VStr "repo"))
       else true.



End PreprocessContract.


Module Samples.
Import JS.

Definition item (props : list (string * string)) : value :=
  VObj (prod_map id VStr <$> props).

(** [{title:"T", description:"D", author:"A", structure:{chapters:[
     {id:"a",title:"A",path:"/a.html"},{id:"b",title:"B",path:"/b.html"}]}}] *)
Definition config_ab : value :=
  VObj [("title", VStr "T"); ("description", VStr "D"); ("author", VStr "A");
        ("structure", VObj [("chapters", VArr [
           item [("id", "a"); ("title", "A"); ("path", "/a.html")];
           item [("id", "b"); ("title", "B"); ("path", "/b.html")]])])].

(** Two chapters written to the same page. *)
Definition config_same_path : value :=
  VObj [("title", VStr "T"); ("description", VStr "D"); ("author", VStr "A");
        ("structure", VObj [("chapters", VArr [
           item [("id", "a"); ("title", "A"); ("path", "/a.html")];
           item [("id", "b"); ("title", "B"); ("path", "/a.html")]])])].

(** Only [author] is given. *)
Definition config_author_only : value := VObj [("author", VStr "A")].

(** A repository whose branch is a number and a navigation order with a
    duplicate. *)
Definition config_two_violations : value :=
  VObj [("title", VStr "T"); ("description", VStr "D"); ("author", VStr "A");
        ("repository", VObj [("branch", VNum 123)]);
        ("navigation", VObj [("order", VArr [VStr "a"; VStr "a"])])].

(** A configuration like those of the test fixtures: items with a
    description, an item without a path, and an introduction whose item
    has a number as [id] and an empty title. *)
Definition config_fixture : value :=
  VObj [("title", VStr "T"); ("description", VStr "D"); ("author", VStr "A");
        ("structure", VObj [
           ("introduction", VArr [
              VObj [("id", VNum 0); ("title", VStr "");
                    ("description", VStr "Why");
                    ("path", VStr "/preface.html")]]);
           ("chapters", VArr [
              VObj [("id", VStr "a"); ("title", VStr "A");
                    ("description", VStr "First"); ("path", VStr "/a.html")];
              VObj [("id", VStr "b"); ("title", VStr "B");
                    ("description", VStr "Second");
                    ("path", VStr "/chapters/b.html")];
              VObj [("id", VStr "c"); ("title", VStr "C")]])]);
        ("navigation",
         VObj [("order", VArr [VStr "chapters/b"; VStr "a"; VStr "preface"])])].

Definition nl : string := String "010" EmptyString.

(** [{items: ["x", "y"]}] *)
Definition data_items : value :=
  VObj [("items", VArr [VStr "x"; VStr "y"])].

(** [{title: "T", repository: {url: "https://github.com/o/r.git"}}] *)
Definition data_repository : value :=
  VObj [("title", VStr "T");
        ("repository", VObj [("url", VStr "https://github.com/o/r.git")])].

End Samples.

(** * Properties *)

(** ** Strings *)

Section StringFacts.

Lemma append_cons c s t : String c s +:+ t = String c (s +:+ t).
Proof. reflexivity. Qed.

Lemma append_nil_l s : "" +:+ s = s.
Proof. reflexivity. Qed.

Lemma append_nil_r s : s +:+ "" = s.
Proof. induction s as [|c s IH]; [done|]. by rewrite append_cons, IH. Qed.

Lemma append_assoc s t u : (s +:+ t) +:+ u = s +:+ t +:+ u.
Proof.
  induction s as [|c s IH]; [done|]. by rewrite !append_cons, IH.
Qed.

Lemma append_eq_nil s t : s +:+ t = "" → s = "" ∧ t = "".
Proof. destruct s; [done|]. by rewrite append_cons. Qed.

(** A word that splits in two and starts with [c]: either the first part
    is empty, or it starts with [c]. *)
Lemma append_eq_cons s t c u :
  s +:+ t = String c u →
  (s = "" ∧ t = String c u) ∨ (∃ s', s = String c s' ∧ u = s' +:+ t).
Proof.
  destruct s as [|d s]; [by left|].
  rewrite append_cons. intros [= -> <-]. right. eauto.
Qed.

Lemma length_append s t :
  String.length (s +:+ t) = String.length s + String.length t.
Proof.
  induction s as [|c s IH]; [done|]. rewrite append_cons. simpl. by rewrite IH.
Qed.

Lemma chars_eqb_eq a b : Chars.eqb a b = true ↔ a = b.
Proof. apply Ascii.eqb_eq. Qed.

Lemma chars_eqb_refl a : Chars.eqb a a = true.
Proof. by apply chars_eqb_eq. Qed.

Lemma all_append f s t :
  Str.all f (s +:+ t) = Str.all f s && Str.all f t.
Proof.
  induction s as [|c s IH]; [done|].
  rewrite append_cons. simpl. by rewrite IH, andb_assoc.
Qed.

Lemma all_impl (f g : ascii → bool) s :
  (∀ c, f c = true → g c = true) → Str.all f s = true → Str.all g s = true.
Proof.
  intros Hfg. induction s as [|c s IH]; [done|]. simpl.
  rewrite !andb_true_iff. intros [? ?]. auto.
Qed.

End StringFacts.

(** ** The derivative matcher decides the language of a pattern *)

Module RegexFacts.
Import Regex.

Lemma seq_inv a b w :
  lang (Seq a b) w → ∃ s t, w = s +:+ t ∧ lang a s ∧ lang b t.
Proof. inversion 1; subst; eauto. Qed.

Lemma alt_inv a b w : lang (Alt a b) w → lang a w ∨ lang b w.
Proof. inversion 1; subst; eauto. Qed.

Lemma class_inv p w : lang (Class p) w → ∃ c, w = String c "" ∧ p c = true.
Proof. inversion 1; subst; eauto. Qed.

Lemma eps_inv w : lang Eps w → w = "".
Proof. by inversion 1. Qed.

Lemma void_inv w : ¬ lang Void w.
Proof. inversion 1. Qed.

Lemma nullable_lang r : nullable r = true ↔ lang r "".
Proof.
  induction r as [| |p|a IHa b IHb|a IHa b IHb|a IHa]; simpl.
  - split; [done|]. by intros ?%void_inv.
  - split; [constructor|done].
  - split; [done|]. by intros (c & ? & _)%class_inv.
  - rewrite andb_true_iff, IHa, IHb. split.
    + intros [Ha Hb]. change "" with ("" +:+ ""). by constructor.
    + intros (s & t & Heq & Hs & Ht)%seq_inv.
      symmetry in Heq. by apply append_eq_nil in Heq as [-> ->].
  - rewrite orb_true_iff, IHa, IHb. split.
    + intros [?|?]; [by apply L_alt_l|by apply L_alt_r].
    + apply alt_inv.
  - split; [constructor|done].
Qed.

(** A non-empty word of [Star a] starts with a non-empty word of [a]. *)
Lemma star_cons_inv a c u :
  lang (Star a) (String c u) →
  ∃ s t, u = s +:+ t ∧ lang a (String c s) ∧ lang (Star a) t.
Proof.
  intros H. remember (Star a) as r eqn:Hr. remember (String c u) as w eqn:Hw.
  revert Hr c u Hw.
  induction H as [|? ? ?| | | | |a' s t Hs _ Ht IHt]; intros Hr c0 u0 Hw;
    try discriminate.
  injection Hr as ->.
  apply append_eq_cons in Hw as [[-> ->]|(s' & -> & ->)].
  - by apply IHt.
  - eauto.
Qed.

Lemma der_lang r : ∀ c s, lang (der c r) s ↔ lang r (String c s).
Proof.
  induction r as [| |p|a IHa b IHb|a IHa b IHb|a IHa]; intros c s; simpl.
  - split; by intros ?%void_inv.
  - split; [by intros ?%void_inv|by intros ?%eps_inv].
  - destruct (p c) eqn:Hp; split.
    + intros ->%eps_inv. by constructor.
    + intros (d & [= -> ->] & _)%class_inv. constructor.
    + by intros ?%void_inv.
    + intros (d & [= -> ->] & ?)%class_inv. congruence.
  - assert (Hseq : lang (Seq (der c a) b) s →
                   lang (Seq a b) (String c s)).
    { intros (s1 & t1 & -> & Hs & Ht)%seq_inv.
      rewrite <- append_cons. constructor; [by apply IHa|done]. }
    assert (Hinv : lang (Seq a b) (String c s) →
                   lang (Seq (der c a) b) s ∨
                   (lang a "" ∧ lang b (String c s))).
    { intros (s1 & t1 & Heq & Hs & Ht)%seq_inv. symmetry in Heq.
      apply append_eq_cons in Heq as [[-> ->]|(s' & -> & ->)].
      - by right.
      - left. constructor; [by apply IHa|done]. }
    destruct (nullable a) eqn:Hn; split.
    + intros [?|?]%alt_inv; [by apply Hseq|].
      change (String c s) with ("" +:+ String c s).
      constructor; [by apply nullable_lang|by apply IHb].
    + intros [?|[_ ?]]%Hinv; [by apply L_alt_l|].
      apply L_alt_r. by apply IHb.
    + apply Hseq.
    + intros [?|[Ha _]]%Hinv; [done|].
      apply nullable_lang in Ha. congruence.
  - split.
    + intros [?|?]%alt_inv; [apply L_alt_l; by apply IHa|apply L_alt_r; by apply IHb].
    + intros [?|?]%alt_inv; [apply L_alt_l; by apply IHa|apply L_alt_r; by apply IHb].
  - split.
    + intros (s1 & t1 & -> & Hs & Ht)%seq_inv.
      rewrite <- append_cons. constructor; [by apply IHa|done].
    + intros (s1 & t1 & -> & Hs & Ht)%star_cons_inv.
      constructor; [by apply IHa|done].
Qed.

Theorem test_lang s : ∀ r, test r s = true ↔ lang r s.
Proof.
  induction s as [|c s IH]; intros r; simpl.
  - apply nullable_lang.
  - rewrite IH. apply der_lang.
Qed.

End RegexFacts.

(** ** [isValidVersion] accepts the semantic-versioning grammar *)

Module SemVerFacts.
Import Regex RegexFacts SemVer.

Lemma star_list a w :
  lang (Star a) w ↔ ∃ ws, w = Str.concat ws ∧ Forall (lang a) ws.
Proof.
  split.
  - intros H. remember (Star a) as r eqn:Hr. revert Hr.
    induction H as [|? ? ?| | | | |a' s t Hs _ Ht IHt]; intros Hr;
      try discriminate.
    + by exists [].
    + injection Hr as ->. destruct (IHt eq_refl) as (ws & -> & Hws).
      exists (s :: ws). split; [done|]. by constructor.
  - intros (ws & -> & Hws). induction Hws as [|x ws Hx _ IH]; simpl.
    + constructor.
    + by constructor.
Qed.

Lemma star_class p s : lang (Star (Class p)) s ↔ Str.all p s = true.
Proof.
  rewrite star_list. split.
  - intros (ws & -> & Hws). induction Hws as [|x ws Hx _ IH]; [done|].
    apply class_inv in Hx as (c & -> & Hc). simpl.
    rewrite Hc. exact IH.
  - induction s as [|c s IH]; simpl.
    + by exists [].
    + rewrite andb_true_iff. intros [Hc (ws & -> & Hws)%IH].
      exists (String c "" :: ws). split; [done|].
      constructor; [by constructor|done].
Qed.

Lemma plus_class p s :
  lang (Plus (Class p)) s ↔ s ≠ "" ∧ Str.all p s = true.
Proof.
  unfold Plus. split.
  - intros (s1 & t & -> & (c & -> & Hc)%class_inv & Ht%star_class)%seq_inv.
    rewrite append_cons, append_nil_l. simpl. by rewrite Hc, Ht.
  - intros [Hne Hall]. destruct s as [|c s]; [done|].
    simpl in Hall. apply andb_true_iff in Hall as [Hc Hs].
    change (String c s) with (String c "" +:+ s).
    constructor; [by constructor|by apply star_class].
Qed.

Lemma chr_inv c w : lang (Chr c) w ↔ w = String c "".
Proof.
  unfold Chr. split.
  - by intros (d & -> & ->%chars_eqb_eq)%class_inv.
  - intros ->. constructor. apply chars_eqb_refl.
Qed.

(** Facts on the character classes, by enumeration of the characters. *)
Ltac by_cases c :=
  destruct c as [[] [] [] [] [] [] [] []]; vm_compute; try done; auto.

Lemma digit19_digit c : Chars.digit19 c = true → Chars.digit c = true.
Proof. by_cases c. Qed.
Lemma digit19_not_zero c : Chars.digit19 c = true → c ≠ "0"%char.
Proof. by_cases c. Qed.
Lemma digit_not_zero c :
  Chars.digit c = true → c ≠ "0"%char → Chars.digit19 c = true.
Proof. by_cases c. Qed.
Lemma digit_alnum c : Chars.digit c = true → Chars.alnum_hyphen c = true.
Proof. by_cases c. Qed.
Lemma letter_alnum c :
  Chars.letter_hyphen c = true → Chars.alnum_hyphen c = true.
Proof. by_cases c. Qed.
Lemma letter_not_digit c :
  Chars.letter_hyphen c = true → Chars.digit c = false.
Proof. by_cases c. Qed.
Lemma alnum_cases c :
  Chars.alnum_hyphen c = true →
  Chars.digit c = true ∨ Chars.letter_hyphen c = true.
Proof. by_cases c. Qed.

Lemma numeric_lang s : lang re_numeric s ↔ numeric s.
Proof.
  unfold re_numeric, numeric. split.
  - intros [->%chr_inv|(s1 & t & -> & (c & -> & Hc)%class_inv &
                         Ht%star_class)%seq_inv]%alt_inv.
    + split_and!; [done|done|]. by intros t [= <-].
    + rewrite append_cons, append_nil_l. split_and!; [done| |].
      * simpl. by rewrite (digit19_digit _ Hc), Ht.
      * intros u [= -> _]. by apply digit19_not_zero in Hc.
  - intros (Hne & Hall & Hzero). destruct s as [|c s]; [done|].
    simpl in Hall. apply andb_true_iff in Hall as [Hc Hs].
    destruct (decide (c = "0"%char)) as [->|Hnz].
    + rewrite (Hzero s eq_refl). apply L_alt_l. by apply chr_inv.
    + apply L_alt_r. change (String c s) with (String c "" +:+ s).
      constructor; [|by apply star_class].
      constructor. by apply digit_not_zero.
Qed.

(** A word over [[0-9A-Za-z-]] that is not all digits splits at its first
    character that is not a digit. *)
Lemma split_at_non_digit s :
  Str.all Chars.alnum_hyphen s = true → Str.all Chars.digit s = false →
  ∃ d c t, s = d +:+ String c t ∧ Str.all Chars.digit d = true ∧
           Chars.letter_hyphen c = true ∧
           Str.all Chars.alnum_hyphen t = true.
Proof.
  induction s as [|c s IH]; [done|]. simpl.
  rewrite andb_true_iff. intros [Hc Hs] Hd.
  destruct (Chars.digit c) eqn:Hdc.
  - destruct (IH Hs Hd) as (d & c' & t & -> & ? & ? & ?).
    exists (String c d), c', t. simpl. rewrite Hdc. done.
  - exists "", c, s. split_and!; [done|done| |done].
    destruct (alnum_cases _ Hc); [congruence|done].
Qed.

Lemma alnum_ident_lang s :
  lang re_alnum_ident s ↔
  identifier s ∧ Str.all Chars.digit s = false.
Proof.
  unfold re_alnum_ident, identifier. split.
  - intros (d & r & -> & Hd%star_class &
            (s1 & t & -> & (c & -> & Hc)%class_inv &
             Ht%star_class)%seq_inv)%seq_inv.
    rewrite append_cons, append_nil_l. split_and!.
    + destruct d; done.
    + rewrite all_append. simpl.
      by rewrite (all_impl _ _ _ digit_alnum Hd), (letter_alnum _ Hc), Ht.
    + rewrite all_append. simpl. rewrite (letter_not_digit _ Hc).
      by rewrite andb_false_r.
  - intros [[_ Hall] Hnd].
    destruct (split_at_non_digit s Hall Hnd) as (d & c & t & -> & ? & ? & ?).
    constructor; [by apply star_class|].
    change (String c t) with (String c "" +:+ t).
    constructor; [by constructor|by apply star_class].
Qed.

Lemma pre_ident_lang s : lang re_pre_ident s ↔ prerelease_identifier s.
Proof.
  unfold re_pre_ident, prerelease_identifier. split.
  - intros [Hn%numeric_lang|[Hid Hnd]%alnum_ident_lang]%alt_inv.
    + split; [|done]. destruct Hn as (? & Hd & _).
      split; [done|]. by apply (all_impl _ _ _ digit_alnum).
    + split; [done|]. congruence.
  - intros [Hid Hnum]. destruct (Str.all Chars.digit s) eqn:Hd.
    + apply L_alt_l, numeric_lang. auto.
    + apply L_alt_r, alnum_ident_lang. done.
Qed.

Lemma build_ident_lang s : lang re_build_ident s ↔ identifier s.
Proof. apply plus_class. Qed.

Lemma join_cons sep x xs :
  Str.join sep (x :: xs) = x +:+ Str.concat ((λ y, sep +:+ y) <$> xs).
Proof.
  revert x. induction xs as [|y ys IH]; intros x.
  - simpl. by rewrite append_nil_r.
  - change (Str.join sep (x :: y :: ys))
      with (x +:+ sep +:+ Str.join sep (y :: ys)).
    rewrite IH. simpl. by rewrite append_assoc.
Qed.

Lemma dotted_lang x (P : string → Prop) :
  (∀ w, lang x w ↔ P w) → ∀ s, lang (re_dotted x) s ↔ dotted P s.
Proof.
  intros HxP s. unfold re_dotted, dotted. split.
  - intros (w & t & -> & Hw%HxP & (ws & -> & Hws)%star_list)%seq_inv.
    assert (∃ ids, ws = (λ y, "." +:+ y) <$> ids ∧ Forall P ids)
      as (ids & -> & Hids).
    { induction Hws as [|u us Hu _ (ids & -> & Hids)]; [by exists []|].
      apply seq_inv in Hu as (d & v & -> & ->%chr_inv & Hv%HxP).
      exists (v :: ids). split; [done|]. by constructor. }
    exists w, ids. rewrite join_cons. split; [done|]. by constructor.
  - intros (id & ids & -> & Hall). rewrite join_cons.
    apply Forall_cons in Hall as [Hid Hids].
    constructor; [by apply HxP|]. apply star_list.
    exists ((λ y, "." +:+ y) <$> ids). split; [done|].
    induction Hids as [|v vs Hv _ IH]; constructor; [|done].
    constructor; [by apply chr_inv|by apply HxP].
Qed.

Lemma optional_lang lead x (P : string → Prop) :
  (∀ w, lang x w ↔ P w) →
  ∀ s, lang (Opt (Seq (Chr lead) x)) s ↔ optional (String lead "") P s.
Proof.
  intros HxP s. unfold Opt, optional. split.
  - intros [(d & v & -> & ->%chr_inv & Hv%HxP)%seq_inv | ->%eps_inv]%alt_inv;
      [right; eauto|by left].
  - intros [-> | (t & -> & Ht)]; [apply L_alt_r; constructor|].
    apply L_alt_l. constructor; [by apply chr_inv|by apply HxP].
Qed.

Theorem semver_lang s : lang semverRegex s ↔ version s.
Proof.
  unfold semverRegex, version. split.
  - intros (ma & r1 & -> & Hma%numeric_lang &
            (d1 & r2 & -> & ->%chr_inv &
             (mi & r3 & -> & Hmi%numeric_lang &
              (d2 & r4 & -> & ->%chr_inv &
               (pa & r5 & -> & Hpa%numeric_lang &
                (pre & build & -> & Hpre & Hbuild)%seq_inv
               )%seq_inv)%seq_inv)%seq_inv)%seq_inv)%seq_inv.
    apply (optional_lang _ _ _ (dotted_lang _ _ pre_ident_lang)) in Hpre.
    apply (optional_lang _ _ _ (dotted_lang _ _ build_ident_lang)) in Hbuild.
    exists ma, mi, pa, pre, build. done.
  - intros (ma & mi & pa & pre & build & -> & Hma & Hmi & Hpa & Hpre & Hbuild).
    repeat (constructor;
            [first [by apply numeric_lang | by apply chr_inv]|]).
    constructor.
    + by apply (optional_lang _ _ _ (dotted_lang _ _ pre_ident_lang)).
    + by apply (optional_lang _ _ _ (dotted_lang _ _ build_ident_lang)).
Qed.

End SemVerFacts.

(** ** The configuration validator *)

Module ValidatorFacts.
Import JS ConfigValidator ValidatorSpec.

Lemma bind_inr {A B} (r : result A) (k : A → result B) b :
  bind r k = inr b ↔ ∃ a, r = inr a ∧ k a = inr b.
Proof.
  destruct r as [e|a]; simpl; split; try done.
  - by intros (a & ? & _).
  - eauto.
  - by intros (a' & [= <-] & ?).
Qed.

Lemma bind_inl {A B} (r : result A) (k : A → result B) e :
  bind r k = inl e ↔ r = inl e ∨ ∃ a, r = inr a ∧ k a = inl e.
Proof.
  destruct r as [e'|a]; simpl; split.
  - intros [= ->]. by left.
  - intros [[= ->]|(a & ? & _)]; done.
  - right. eauto.
  - intros [?|(a' & [= <-] & ?)]; done.
Qed.

Lemma object_of_shape config :
  truthy config = true → typeof_object config = true →
  is_object config = true.
Proof. by destruct config. Qed.

Lemma object_not_nullish config :
  is_object config = true → nullish config = false.
Proof. by destruct config. Qed.

Lemma get_prop_ok v k : nullish v = false → get_prop v k = inr (get v k).
Proof. by destruct v. Qed.

Lemma get_prop_inr v k x : get_prop v k = inr x → nullish v = false ∧ x = get v k.
Proof. destruct v; simpl; try done; by intros [= <-]. Qed.

Lemma throw_if_inl c e e' : throw_if c e = inl e' ↔ c = true ∧ e' = e.
Proof. destruct c; simpl; split; (intros [= <-] || intros [? ->]); done. Qed.

Lemma missing_filter config field :
  (negb (has_prop field config) || negb (truthy (get config field)) = true)
  ↔ missing_or_falsy config field.
Proof.
  unfold missing_or_falsy.
  destruct (has_prop field config), (truthy (get config field)); simpl;
    intuition congruence.
Qed.

(** The message of [RequiredFieldsMissing] names each field it carries,
    whichever fields of [requiredFields] these are. *)
Lemma required_message_names (p : string → bool) field :
  field ∈ filter (λ f, p f = true) requiredFields →
  Str.contains field
    (message (RequiredFieldsMissing
                (filter (λ f, p f = true) requiredFields))) = true.
Proof.
  unfold requiredFields. rewrite !filter_cons, filter_nil.
  destruct (p "title") eqn:?, (p "description") eqn:?, (p "author") eqn:?;
    repeat case_decide; try congruence;
    rewrite ?elem_of_cons, elem_of_nil;
    intros Hin; repeat destruct Hin as [->|Hin]; try done;
    vm_compute; reflexivity.
Qed.

Lemma validate_required isValidUrl config :
  truthy config = true → typeof_object config = true →
  (∃ field, field ∈ requiredFields ∧ missing_or_falsy config field) →
  ∃ missing,
    validate isValidUrl config = inl (RequiredFieldsMissing missing) ∧
    ∀ field, field ∈ requiredFields → missing_or_falsy config field →
             Str.contains field (message (RequiredFieldsMissing missing))
             = true.
Proof.
  intros Ht Ho (f0 & Hf0 & Hm0).
  pose (p := λ f, negb (has_prop f config) || negb (truthy (get config f))).
  exists (filter (λ f, p f = true) requiredFields).
  assert (Hin : ∀ f, f ∈ requiredFields → missing_or_falsy config f →
                     f ∈ filter (λ f, p f = true) requiredFields).
  { intros f Hf Hm. apply list_elem_of_filter. split; [|done].
    by apply missing_filter. }
  split.
  - unfold validate. rewrite Ht, Ho. simpl.
    unfold validateRequiredFields.
    rewrite (object_of_shape _ Ht Ho). simpl negb. cbv iota.
    change (filter _ requiredFields)
      with (filter (λ f, p f = true) requiredFields).
    destruct (filter (λ f, p f = true) requiredFields) as [|x l] eqn:Hl.
    + specialize (Hin f0 Hf0 Hm0). by apply elem_of_nil in Hin.
    + done.
  - intros f Hf Hm. apply required_message_names. by apply Hin.
Qed.

(** *** Which step an error comes from *)

Lemma required_not_repository config e :
  validateRequiredFields config = inl e → is_repository_error e = false.
Proof.
  unfold validateRequiredFields.
  destruct (negb (is_object config)); [by intros [= <-]|].
  by intros [_ ->]%throw_if_inl.
Qed.

Lemma for_each_not_repository {A} (body : A → result unit) xs e :
  (∀ x e, body x = inl e → is_repository_error e = false) →
  for_each body xs = inl e → is_repository_error e = false.
Proof.
  intros Hbody. induction xs as [|x xs IH]; simpl; [done|].
  intros [?|([] & _ & ?)]%bind_inl; eauto.
Qed.

Lemma datatypes_not_repository config e :
  validateDataTypes config = inl e → is_repository_error e = false.
Proof.
  unfold validateDataTypes.
  intros [H|([] & _ & [H|([] & _ & [H|([] & _ & H)]%bind_inl)
         ]%bind_inl)]%bind_inl.
  - revert H. apply for_each_not_repository.
    intros f e' [H|(v & _ & H)]%bind_inl.
    + destruct config; try done; by injection H as <-.
    + by apply throw_if_inl in H as [_ ->].
  - by apply throw_if_inl in H as [_ ->].
  - by apply throw_if_inl in H as [_ ->].
  - by apply throw_if_inl in H as [_ ->].
Qed.

Lemma item_not_repository k item index e :
  validateItem k item index = inl e → is_repository_error e = false.
Proof.
  unfold validateItem, get_prop.
  destruct item; simpl; try (by intros [= <-]);
    repeat (intros [H|([] & _ & H)]%bind_inl;
            [by apply throw_if_inl in H as [_ ->]|revert H]);
    by intros [_ ->]%throw_if_inl.
Qed.

Lemma entries_not_repository k items : ∀ index e,
  for_entries (validateItem k) index items = inl e →
  is_repository_error e = false.
Proof.
  induction items as [|item items IH]; intros index e; simpl; [done|].
  intros [?|([] & _ & ?)]%bind_inl; eauto using item_not_repository.
Qed.

Lemma section_not_repository k structure e :
  validateSection k structure = inl e → is_repository_error e = false.
Proof.
  unfold validateSection.
  destruct (truthy _); [|done].
  destruct (get structure (section_name k));
    try (by intros [= <-]).
  apply entries_not_repository.
Qed.

Lemma structure_not_repository config e :
  validateStructure config = inl e → is_repository_error e = false.
Proof.
  unfold validateStructure.
  intros [H|(structure & _ & H)]%bind_inl.
  { destruct config; try done; by injection H as <-. }
  destruct (negb _); [done|]. revert H.
  intros [?|([] & _ & ?)]%bind_inl; eauto using section_not_repository.
Qed.

Lemma navigation_error config e :
  nullish config = false →
  validateNavigation config = inl e → is_navigation_error e = true.
Proof.
  intros Hn. unfold validateNavigation. rewrite get_prop_ok by done.
  cbn [bind]. destruct (negb _); [done|].
  destruct (truthy _); [|done].
  destruct (get (get config "navigation") "order");
    try (by intros [= <-]).
  intros [H|([] & _ & [H|([] & _ & H)]%bind_inl)]%bind_inl;
    by apply throw_if_inl in H as [_ ->].
Qed.

Lemma navigation_not_repository e :
  is_navigation_error e = true → is_repository_error e = false.
Proof. by destruct e. Qed.

Lemma repository_error isValidUrl config e :
  nullish config = false →
  validateRepository isValidUrl config = inl e →
  is_repository_error e = true.
Proof.
  intros Hn. unfold validateRepository. rewrite get_prop_ok by done.
  cbn [bind]. destruct (negb _); [done|].
  intros [H|([] & _ & [H|([] & _ & H)]%bind_inl)]%bind_inl;
    by apply throw_if_inl in H as [_ ->].
Qed.

End ValidatorFacts.

(** ** The navigation builder *)

Module NavigationFacts.
Import JS Navigation NavigationSpec ValidatorFacts.

Lemma strip_suffix_unfold pat s :
  Str.strip_suffix pat s =
  if String.eqb s pat then ""
  else match s with
       | EmptyString => EmptyString
       | String c s' => String c (Str.strip_suffix pat s')
       end.
Proof. by destruct s. Qed.

Lemma strip_suffix_append pat k : Str.strip_suffix pat (k +:+ pat) = k.
Proof.
  induction k as [|c k IH]; rewrite strip_suffix_unfold.
  - rewrite append_nil_l. by rewrite String.eqb_refl.
  - rewrite append_cons.
    destruct (String.eqb _ pat) eqn:Heq.
    + apply String.eqb_eq in Heq. apply (f_equal String.length) in Heq.
      simpl in Heq. rewrite length_append in Heq. lia.
    + by rewrite IH.
Qed.

(** The key is recovered from the path of a link. *)
Lemma cleanPath_link key t : cleanPath (path (link_of key t)) = key.
Proof.
  unfold cleanPath, link_of. simpl.
  change ("/" +:+ key +:+ ".html") with (String "/" (key +:+ ".html")).
  simpl. exact (strip_suffix_append ".html" key).
Qed.

Lemma truthy_key k : k ≠ "" → truthy (VStr k) = true.
Proof. by destruct k. Qed.

Lemma link_to_key config k t :
  k ≠ "" → getPageTitle config (VStr k) = inr t →
  link_to config (VStr k) = inr (Some (link_of k t)).
Proof.
  intros Hk Ht. unfold link_to. rewrite (truthy_key _ Hk), Ht. done.
Qed.

Section Chain.
Variable config : value.
Variable keys : list string.
Hypothesis keys_nonempty : "" ∉ keys.
Hypothesis titles :
  ∀ k, k ∈ keys → ∃ t, getPageTitle config (VStr k) = inr t.

Let order : list value := VStr <$> keys.

Lemma nth_order i k d : keys !! i = Some k → nth i order d = VStr k.
Proof.
  intros Hk. apply nth_lookup_Some. unfold order.
  by rewrite list_lookup_fmap, Hk.
Qed.

Lemma link_to_at i k :
  keys !! i = Some k →
  ∃ t, link_to config (VStr k) = inr (Some (link_of k t)).
Proof.
  intros Hk. assert (Hin : k ∈ keys) by (by eapply list_elem_of_lookup_2).
  destruct (titles k Hin) as [t Ht]. exists t.
  apply link_to_key; [|done]. by intros ->.
Qed.

(** The entry built at position [i]: its links lead to the neighbours
    in the order. *)
Lemma entryAt_spec i k :
  keys !! i = Some k →
  ∃ e, entryAt config order i = inr e ∧
       index e = i ∧ total e = length keys ∧
       match i with
       | O => previous e = None
       | S j => ∃ k' t, keys !! j = Some k' ∧
                        previous e = Some (link_of k' t)
       end ∧
       match keys !! S i with
       | None => next e = None
       | Some k' => ∃ t, next e = Some (link_of k' t)
       end.
Proof.
  intros Hk. pose proof (lookup_lt_Some _ _ _ Hk) as Hlt.
  unfold entryAt.
  assert (Hlen : length order = length keys)
    by (unfold order; apply length_fmap).
  rewrite Hlen.
  assert (Hprev : ∃ prev,
    link_to config (if 0 <? i then nth (i - 1) order VUndef else VNull)
      = inr prev ∧
    match i with
    | O => prev = None
    | S j => ∃ k' t, keys !! j = Some k' ∧ prev = Some (link_of k' t)
    end).
  { destruct i as [|j]; simpl.
    - by exists None.
    - destruct (lookup_lt_is_Some_2 keys j) as [k' Hk']; [lia|].
      rewrite Nat.sub_0_r, (nth_order _ _ _ Hk').
      destruct (link_to_at _ _ Hk') as [t Ht].
      exists (Some (link_of k' t)). eauto. }
  assert (Hnext : ∃ nxt,
    link_to config (if i <? length keys - 1
                    then nth (i + 1) order VUndef else VNull)
      = inr nxt ∧
    match keys !! S i with
    | None => nxt = None
    | Some k' => ∃ t, nxt = Some (link_of k' t)
    end).
  { destruct (keys !! S i) as [k'|] eqn:Hk'.
    - pose proof (lookup_lt_Some _ _ _ Hk').
      destruct (Nat.ltb_spec i (length keys - 1)); [|lia].
      rewrite Nat.add_1_r, (nth_order _ _ _ Hk').
      destruct (link_to_at _ _ Hk') as [t Ht].
      exists (Some (link_of k' t)). eauto.
    - apply lookup_ge_None in Hk'.
      destruct (Nat.ltb_spec i (length keys - 1)); [lia|].
      by exists None. }
  destruct Hprev as (prev & -> & Hp), Hnext as (nxt & -> & Hn).
  simpl. eexists. split; [done|]. simpl. done.
Qed.

Hypothesis keys_nodup : NoDup keys.
Hypothesis keys_not_proto : "__proto__" ∉ keys.

Lemma obj_set_insert k e (o : gmap string entry) :
  k ≠ "__proto__" → obj_set k e o = <[k := e]> o.
Proof.
  intros Hk. unfold obj_set.
  by destruct (String.eqb_spec k "__proto__").
Qed.

(** The [forEach] adds to the object one entry for each remaining key
    and leaves the other keys alone. *)
Lemma for_each_indexed_spec rest : ∀ i acc,
  NoDup rest → "__proto__" ∉ rest →
  (∀ j k, rest !! j = Some k → keys !! (i + j) = Some k) →
  ∃ nav, for_each_indexed config order (VStr <$> rest) i acc = inr nav ∧
         (∀ k, k ∉ rest → nav !! k = acc !! k) ∧
         (∀ j k, rest !! j = Some k →
                 ∃ e, entryAt config order (i + j) = inr e ∧
                      nav !! k = Some e).
Proof.
  induction rest as [|k0 rest IH]; intros i acc Hnd Hproto Hkeys.
  - exists acc. simpl. split_and!; [done|done|]. by intros j k.
  - apply NoDup_cons in Hnd as [Hk0 Hnd].
    apply not_elem_of_cons in Hproto as [Hp0 Hproto].
    destruct (entryAt_spec i k0) as (e0 & He0 & _).
    { rewrite <- (Nat.add_0_r i). by apply Hkeys. }
    destruct (IH (S i) (<[k0 := e0]> acc) Hnd Hproto)
      as (nav & Hnav & Hother & Hrest).
    { intros j k Hj. rewrite Nat.add_succ_l, <- Nat.add_succ_r.
      by apply Hkeys. }
    exists nav. split_and!.
    + simpl. unfold visit. rewrite He0. simpl.
      rewrite obj_set_insert by done. exact Hnav.
    + intros k [Hne Hk]%not_elem_of_cons.
      rewrite (Hother k Hk). by rewrite lookup_insert_ne.
    + intros [|j] k Hj; simpl in Hj.
      * injection Hj as <-. exists e0. rewrite Nat.add_0_r.
        split; [done|]. rewrite (Hother k0 Hk0).
        by rewrite lookup_insert_eq.
      * destruct (Hrest j k Hj) as (e & He & Hlk).
        exists e. by rewrite Nat.add_succ_r, <- Nat.add_succ_l.
Qed.

Lemma build_spec :
  ∃ nav, for_each_indexed config order order 0 ∅ = inr nav ∧
         (∀ k, k ∉ keys → nav !! k = None) ∧
         (∀ i k, keys !! i = Some k →
                 ∃ e, entryAt config order i = inr e ∧ nav !! k = Some e).
Proof.
  destruct (for_each_indexed_spec keys 0 ∅ keys_nodup keys_not_proto)
    as (nav & Hnav & Hother & Hin); [done|].
  exists nav. split_and!; [done| |done].
  intros k Hk. by rewrite (Hother k Hk).
Qed.

Lemma size_spec (nav : gmap string entry) :
  (∀ k, k ∉ keys → nav !! k = None) →
  (∀ i k, keys !! i = Some k → is_Some (nav !! k)) →
  size nav = length keys.
Proof.
  intros Hout Hin.
  assert (Hdom : dom nav = list_to_set keys).
  { apply set_eq. intros k.
    rewrite elem_of_dom, elem_of_list_to_set. split.
    - intros Hk. destruct (decide (k ∈ keys)) as [|Hn]; [done|].
      rewrite (Hout k Hn) in Hk. by destruct Hk.
    - intros (i & Hi)%list_elem_of_lookup_1. eauto. }
  rewrite <- size_dom, Hdom. by apply size_list_to_set.
Qed.

(** Walking from the key at position [i] visits the keys from there to
    the end of the order. *)
Lemma walk_spec (nav : gmap string entry) :
  (∀ i k, keys !! i = Some k →
          ∃ e, entryAt config order i = inr e ∧ nav !! k = Some e) →
  ∀ fuel i k, keys !! i = Some k → length keys ≤ i + fuel →
              walk nav fuel k = Some (drop i keys).
Proof.
  intros Hnav fuel.
  induction fuel as [|fuel IH]; intros i k Hk Hfuel.
  - apply lookup_lt_Some in Hk. lia.
  - destruct (Hnav i k Hk) as (e & He & Hlk).
    destruct (entryAt_spec i k Hk) as (e' & He' & _ & _ & _ & Hnext).
    assert (e' = e) as -> by congruence.
    simpl. rewrite Hlk. simpl.
    rewrite (drop_S _ _ _ Hk).
    destruct (keys !! S i) as [k'|] eqn:Hk'.
    + destruct Hnext as [t ->]. rewrite cleanPath_link.
      rewrite (IH (S i) k' Hk') by lia. done.
    + rewrite Hnext. apply lookup_ge_None in Hk'.
      by rewrite drop_ge.
Qed.

End Chain.

(** *** What validation guarantees of an override *)

Lemma set_size_le paths : set_size paths ≤ length paths.
Proof.
  induction paths as [|x paths IH]; simpl; [done|].
  destruct (existsb _ _); lia.
Qed.

Lemma set_size_distinct keys :
  set_size (VStr <$> keys) = length (VStr <$> keys) → NoDup keys.
Proof.
  induction keys as [|k keys IH]; [constructor|].
  rewrite fmap_cons. simpl.
  destruct (existsb _ _) eqn:Hex.
  - pose proof (set_size_le (VStr <$> keys)). lia.
  - intros [= Hsize]. constructor; [|by apply IH].
    intros Hin. apply not_true_iff_false in Hex. apply Hex.
    apply existsb_exists. exists (VStr k). split.
    + apply list_elem_of_In, list_elem_of_fmap. eauto.
    + simpl. apply String.eqb_refl.
Qed.

Lemma strings_of_valid paths :
  filter (λ p, negb (truthy p) || negb (is_string p) = true) paths = [] →
  ∃ keys, paths = VStr <$> keys ∧ "" ∉ keys.
Proof.
  induction paths as [|p paths IH]; [exists []; split; [done|]; apply not_elem_of_nil|].
  rewrite filter_cons. case_decide as Hp; [done|].
  intros (keys & -> & Hne)%IH.
  apply not_true_iff_false, orb_false_iff in Hp as [Ht Hs].
  apply negb_false_iff in Ht, Hs.
  destruct p as [| | | |k| |]; try done.
  exists (k :: keys). split; [done|].
  apply not_elem_of_cons. split; [|done]. by intros <-.
Qed.

(** An override that passes [validateNavigation] is a list of distinct,
    non-empty strings. *)
Lemma validated_order_distinct config paths :
  ConfigValidator.validateNavigation config = inr () →
  get (get config "navigation") "order" = VArr paths →
  truthy (get config "navigation") = true →
  ∃ keys, paths = VStr <$> keys ∧ NoDup keys ∧ "" ∉ keys.
Proof.
  unfold ConfigValidator.validateNavigation. intros Hvalid Horder Hnav.
  rewrite get_prop_ok in Hvalid by (by destruct config).
  cbn [bind] in Hvalid.
  rewrite Hnav, Horder in Hvalid. simpl in Hvalid.
  apply bind_inr in Hvalid as ([] & Hdup & Hvalid).
  apply bind_inr in Hvalid as ([] & Hinvalid & _).
  unfold throw_if in Hdup, Hinvalid.
  destruct (set_size paths =? length paths) eqn:Hsize; [|done].
  apply Nat.eqb_eq in Hsize.
  destruct (filter _ paths) as [|bad rest] eqn:Hfilter; [|done].
  destruct (strings_of_valid paths Hfilter) as (keys & -> & Hne).
  exists keys. split_and!; [done| |done]. by apply set_size_distinct.
Qed.

(** *** The default order of a structure of section items *)

Lemma get_item_path it :
  get (item_value it) "path"
  = match item_path it with Some p => VStr p | None => VUndef end.
Proof. by destruct it as [[?|] [?|] [?|]]. Qed.

Lemma push_paths_cons item rest order :
  push_paths (item :: rest) order
  = bind (get_prop item "path") (λ p,
      if truthy p then
        bind (clean_of p) (λ c, push_paths rest (order ++ [VStr c]))
      else push_paths rest order).
Proof. reflexivity. Qed.

Lemma get_prop_item it k :
  get_prop (item_value it) k = inr (get (item_value it) k).
Proof. reflexivity. Qed.

Lemma push_paths_items items : ∀ order,
  push_paths (item_value <$> items) order
  = inr (order ++ (VStr <$> omap page_key items)).
Proof.
  induction items as [|it items IH]; intros order.
  - simpl. by rewrite app_nil_r.
  - rewrite fmap_cons, push_paths_cons, get_prop_item, get_item_path.
    simpl bind. unfold page_key. simpl omap.
    destruct (item_path it) as [p|]; simpl.
    + destruct p as [|c p]; simpl; [by rewrite IH|].
      rewrite IH, <- app_assoc. done.
    + by rewrite IH.
Qed.

(** The default order is made of the page keys of the introduction, of
    the chapters, of the conclusion and of the appendices, in this order;
    a section that is absent and an item without a path contribute
    nothing. *)
Lemma default_order_of_structure introduction chapters conclusion appendices
    others :
  generateDefaultNavigationOrder
    (VObj (("structure",
            structure_of introduction chapters conclusion appendices)
           :: others))
  = inr (VStr <$> (page_keys introduction ++ page_keys chapters ++
                   page_keys conclusion ++ page_keys appendices)).
Proof.
  unfold generateDefaultNavigationOrder. simpl get_prop. simpl bind.
  unfold or_else, structure_of. simpl truthy. cbv iota.
  rewrite !fmap_app.
  destruct introduction as [i|], chapters as [c|], conclusion as [k|],
    appendices as [a|]; unfold push_section, get, as_array; simpl;
    repeat (rewrite push_paths_items; simpl);
    rewrite ?app_nil_r, <- ?app_assoc; reflexivity.
Qed.

(** A title can be computed for every page key when the structure is made
    of section items. *)
Lemma find_title_cons item rest pagePath :
  find_title (item :: rest) pagePath
  = bind (get_prop item "path") (λ p,
      if truthy p then
        bind (clean_of p) (λ c,
          if strict_eq_str pagePath c
          then ok (Some (or_else (get item "title") pagePath))
          else find_title rest pagePath)
      else find_title rest pagePath).
Proof. reflexivity. Qed.

Lemma find_title_items items key :
  ∃ found, find_title (item_value <$> items) (VStr key) = inr found.
Proof.
  induction items as [|it items [found IH]]; [by eexists|].
  rewrite fmap_cons, find_title_cons.
  rewrite get_prop_item, get_item_path. simpl bind.
  destruct (item_path it) as [p|]; simpl; [|eauto].
  destruct p as [|c p]; simpl; [eauto|].
  destruct (String.eqb _ _); eauto.
Qed.

Lemma titles_of_structure config introduction chapters conclusion appendices
    key :
  get config "structure"
  = structure_of introduction chapters conclusion appendices →
  ∃ t, getPageTitle config (VStr key) = inr t.
Proof.
  intros Hstructure.
  assert (Hfound : ∀ items, ∃ t,
    bind (find_title (item_value <$> items) (VStr key))
      (λ found, match found with
                | Some t => ok t
                | None => ok (VStr (capitalize (spaced key)))
                end) = inr t).
  { intros items. destruct (find_title_items items key) as [found ->].
    simpl. destruct found; eauto. }
  unfold getPageTitle.
  assert (get_prop config "structure" = inr (get config "structure")) as ->.
  { by destruct config. }
  rewrite Hstructure. simpl bind.
  unfold or_else, structure_of. simpl truthy. cbv iota.
  destruct introduction as [i|], chapters as [c|], conclusion as [k|],
    appendices as [a|]; unfold spread_or_empty, get; simpl;
    rewrite ?app_nil_r, <- ?fmap_app; apply Hfound || apply (Hfound []).
Qed.

End NavigationFacts.

(** ** The template engine *)

Module TemplateFacts.
Import JS TemplateEngine TemplateSpec.

(** *** Scanning *)

Lemma strip_prefix_append p s : Str.strip_prefix p (p +:+ s) = Some s.
Proof.
  induction p as [|c p IH]; [done|].
  rewrite append_cons. simpl. by rewrite chars_eqb_refl.
Qed.

Lemma strip_prefix_Some p s r : Str.strip_prefix p s = Some r → s = p +:+ r.
Proof.
  revert s. induction p as [|c p IH]; intros s; simpl.
  - by intros [= ->].
  - destruct s as [|d s]; [done|].
    destruct (Chars.eqb c d) eqn:Hcd; [|done].
    apply chars_eqb_eq in Hcd as ->. intros ->%IH. done.
Qed.

Lemma strip_prefix_head c p d s :
  c ≠ d → Str.strip_prefix (String c p) (String d s) = None.
Proof.
  intros Hcd. simpl. destruct (Chars.eqb c d) eqn:Heq; [|done].
  by apply chars_eqb_eq in Heq.
Qed.

Lemma strip_prefix_cons c p s :
  Str.strip_prefix (String c p) (String c s) = Str.strip_prefix p s.
Proof. simpl. by rewrite chars_eqb_refl. Qed.

Lemma span_append f a c r :
  Str.all f a = true → f c = false →
  Str.span f (a +:+ String c r) = (a, String c r).
Proof.
  intros Ha Hc. induction a as [|d a IH].
  - rewrite append_nil_l. simpl. by rewrite Hc.
  - simpl in Ha. apply andb_true_iff in Ha as [Hd Ha].
    rewrite append_cons. simpl. by rewrite Hd, (IH Ha).
Qed.

Lemma find_sub_unfold pat s :
  Str.find_sub pat s =
  match Str.strip_prefix pat s with
  | Some rest => Some (EmptyString, rest)
  | None =>
      match s with
      | EmptyString => None
      | String c s' =>
          match Str.find_sub pat s' with
          | Some (a, b) => Some (String c a, b)
          | None => None
          end
      end
  end.
Proof. by destruct s. Qed.

Lemma find_sub_append pat a post :
  starts_nowhere pat a (pat +:+ post) →
  Str.find_sub pat (a +:+ pat +:+ post) = Some (a, post).
Proof.
  induction a as [|c a IH]; intros Hno; rewrite find_sub_unfold.
  - rewrite append_nil_l. by rewrite strip_prefix_append.
  - destruct Hno as [Hhere Hno]. rewrite Hhere.
    rewrite append_cons. by rewrite (IH Hno).
Qed.

Lemma find_sub_plain pat s :
  plain s → Str.find_sub (String "{" pat) s = None.
Proof.
  unfold plain. induction s as [|d s IH]; [done|].
  simpl Str.all. rewrite andb_true_iff. intros [Hd Hs].
  rewrite find_sub_unfold. rewrite strip_prefix_head.
  - by rewrite (IH Hs).
  - intros <-. done.
Qed.

(** *** Global replacement *)

Lemma needs_open_bind {A} (lit : string) (k : string → option A) s :
  Str.strip_prefix "{{" s = None →
  (Str.strip_prefix (String "{" (String "{" lit)) s ≫= k) = None.
Proof.
  intros Hs.
  destruct (Str.strip_prefix (String "{" (String "{" lit)) s) as [r|] eqn:Hr;
    [|done].
  apply strip_prefix_Some in Hr as ->.
  change (String "{" (String "{" lit) +:+ r)
    with ("{{" +:+ (lit +:+ r)) in Hs.
  by rewrite strip_prefix_append in Hs.
Qed.

Lemma replace_go_skip m a rest :
  Str.replace_go m (String.length a) (a +:+ rest) = Str.replace_go m 0 rest.
Proof.
  induction a as [|c a IH]; [by destruct rest|].
  rewrite append_cons. simpl. exact IH.
Qed.

(** A match at the head is replaced, and matching resumes after it. *)
Lemma replace_match m tok rest r :
  tok ≠ "" → m (tok +:+ rest) = Some (r, String.length tok) →
  Str.replace_all m (tok +:+ rest) = r +:+ Str.replace_all m rest.
Proof.
  intros Hne Hm. destruct tok as [|c tok]; [done|].
  unfold Str.replace_all. rewrite append_cons in *. simpl.
  rewrite Hm. simpl. by rewrite replace_go_skip.
Qed.

Lemma replace_char m c rest :
  m (String c rest) = None →
  Str.replace_all m (String c rest) = String c (Str.replace_all m rest).
Proof. intros Hm. unfold Str.replace_all. simpl. by rewrite Hm. Qed.

(** Plain text is copied. *)
Lemma replace_plain m s rest :
  needs_open m → plain s →
  Str.replace_all m (s +:+ rest) = s +:+ Str.replace_all m rest.
Proof.
  intros Hm. unfold plain. induction s as [|c s IH]; [done|].
  simpl. rewrite andb_true_iff. intros [Hc Hs].
  rewrite !append_cons. rewrite replace_char.
  - by rewrite (IH Hs).
  - apply Hm. apply strip_prefix_head. intros <-. done.
Qed.

Lemma replace_nil m : Str.replace_all m "" = "".
Proof. done. Qed.

Lemma replace_plain_all m s : needs_open m → plain s → Str.replace_all m s = s.
Proof.
  intros Hm Hs. rewrite <- (append_nil_r s) at 1.
  rewrite (replace_plain _ _ _ Hm Hs), replace_nil. apply append_nil_r.
Qed.

(** A directive that the pattern does not match at its head is copied,
    when what follows its opening braces is plain. *)
Lemma replace_skip m inner rest :
  needs_open m → inner ≠ "" → plain inner →
  m ("{{" +:+ inner +:+ rest) = None →
  Str.replace_all m ("{{" +:+ inner +:+ rest)
  = "{{" +:+ inner +:+ Str.replace_all m rest.
Proof.
  intros Hm Hne Hplain Hhead.
  change ("{{" +:+ inner +:+ rest)
    with (String "{" (String "{" (inner +:+ rest))) in *.
  rewrite (replace_char _ _ _ Hhead). rewrite replace_char.
  - by rewrite (replace_plain _ _ _ Hm Hplain).
  - apply Hm. destruct inner as [|c inner]; [done|].
    rewrite append_cons, strip_prefix_cons.
    apply strip_prefix_head. intros <-.
    unfold plain in Hplain. simpl in Hplain. done.
Qed.

(** *** The patterns *)

Lemma span_split f s a b : Str.span f s = (a, b) → s = a +:+ b.
Proof.
  revert a b. induction s as [|c s IH]; intros a b; simpl.
  - by intros [= <- <-].
  - destruct (f c).
    + destruct (Str.span f s) as [a' b']. intros [= <- <-].
      by rewrite append_cons, (IH a' b').
    + by intros [= <- <-].
Qed.

Lemma plain_append s t : plain (s +:+ t) ↔ plain s ∧ plain t.
Proof. unfold plain. rewrite all_append. apply andb_true_iff. Qed.

Lemma plain_path_plain key : plain_path key → plain (key +:+ "}}").
Proof.
  intros [_ Hkey]. apply plain_append. split; [|done].
  revert Hkey. apply all_impl.
  intros c. unfold path_char, not_lbrace. destruct (Chars.eqb c "{"); done.
Qed.

Lemma plain_path_all (f : ascii → bool) key :
  (∀ c, path_char c = true → f c = true) →
  plain_path key → Str.all f key = true.
Proof. intros Hf [_ Hkey]. revert Hkey. by apply all_impl. Qed.

Lemma path_char_item c : path_char c = true → item_key_char c = true.
Proof.
  unfold path_char, item_key_char.
  destruct (Chars.eqb c "{"), (Chars.eqb c "}"), (Chars.eqb c "#"),
    (Chars.eqb c "/"), (Chars.eqb c "@"); done.
Qed.

Lemma path_char_var c : path_char c = true → var_key_char c = true.
Proof.
  unfold path_char, var_key_char.
  destruct (Chars.eqb c "{"), (Chars.eqb c "}"), (Chars.eqb c "#"),
    (Chars.eqb c "/"), (Chars.eqb c "@"); done.
Qed.

Lemma path_char_not_rbrace c : path_char c = true → not_rbrace c = true.
Proof.
  unfold path_char, not_rbrace.
  destruct (Chars.eqb c "{"), (Chars.eqb c "}"); done.
Qed.

(** The variable pattern matches a directive whose key is made of allowed
    characters. *)
Lemma var_match_directive allowed key rest :
  key ≠ "" → Str.all allowed key = true → allowed "}"%char = false →
  var_match allowed ("{{" +:+ key +:+ "}}" +:+ rest)
  = Some (key, String.length key + 4).
Proof.
  intros Hne Hall Hbrace. unfold var_match.
  rewrite strip_prefix_append. simpl.
  change ("}}" +:+ rest) with (String "}" (String "}" rest)).
  rewrite (span_append _ _ _ _ Hall Hbrace).
  destruct key; [done|]. simpl. done.
Qed.

(** No pattern of the engine matches at the opening braces of a directive
    after which the text is plain: the block patterns and the [else]
    pattern need a closing tag further on. *)
Lemma suffix_of_plain pre r w : pre +:+ r = w → plain w → plain r.
Proof. intros <- [_ ?]%plain_append. done. Qed.

Lemma obind_some {A B} (x : A) (f : A → option B) : (Some x ≫= f) = f x.
Proof. reflexivity. Qed.

Lemma block_match_plain opening closing w :
  plain w →
  block_match ("{{" +:+ opening) (String "{" closing) ("{{" +:+ w) = None.
Proof.
  intros Hw. unfold block_match.
  destruct (Str.strip_prefix _ _) as [r1|] eqn:H1; [|done].
  rewrite obind_some.
  apply strip_prefix_Some in H1. rewrite append_assoc in H1.
  apply (inj (String.append "{{")) in H1.
  destruct (Str.span not_rbrace r1) as [sp r2] eqn:H2.
  apply span_split in H2.
  destruct (Str.strip_prefix "}}" r2) as [r3|] eqn:H3; [|done].
  rewrite obind_some.
  apply strip_prefix_Some in H3.
  destruct (capture_after_ws sp); [|done].
  rewrite obind_some.
  assert (plain r3) as Hr3.
  { subst r1 r2. symmetry in H1. rewrite <- !append_assoc in H1.
    by apply suffix_of_plain in H1. }
  by rewrite (find_sub_plain _ _ Hr3).
Qed.

Lemma else_match_plain w : plain w → else_match ("{{" +:+ w) = None.
Proof.
  intros Hw. unfold else_match.
  destruct (Str.strip_prefix _ _) as [r|] eqn:H1; [|done].
  rewrite obind_some.
  apply strip_prefix_Some in H1.
  change ("{{else}}" +:+ r) with ("{{" +:+ "else}}" +:+ r) in H1.
  apply (inj (String.append "{{")) in H1. symmetry in H1.
  apply suffix_of_plain in H1; [|done].
  by rewrite (find_sub_plain _ _ H1).
Qed.

Lemma needs_open_block {A} opening closing
    (k : string * string * nat → option A) :
  ∀ s, Str.strip_prefix "{{" s = None →
       (block_match (String "{" (String "{" opening)) closing s ≫= k) = None.
Proof.
  intros s Hs. unfold block_match.
  by rewrite (needs_open_bind opening _ s Hs).
Qed.

Lemma needs_open_var {A} allowed (k : string * nat → option A) :
  ∀ s, Str.strip_prefix "{{" s = None → (var_match allowed s ≫= k) = None.
Proof.
  intros s Hs. unfold var_match.
  by rewrite (needs_open_bind "" _ s Hs).
Qed.

Lemma needs_open_else : needs_open else_match.
Proof. intros s Hs. unfold else_match. by apply needs_open_bind. Qed.

Lemma replace_skip_all m inner :
  needs_open m → inner ≠ "" → plain inner → m ("{{" +:+ inner) = None →
  Str.replace_all m ("{{" +:+ inner) = "{{" +:+ inner.
Proof.
  intros Hm Hne Hplain Hhead.
  pose proof (replace_skip m inner "" Hm Hne Hplain) as H.
  rewrite replace_nil, !append_nil_r in H. by apply H.
Qed.

(** *** Global replacement by a function that may raise *)

Lemma cat_nil_l r : cat (ok "") r = r.
Proof. by destruct r. Qed.

Lemma cat_nil_r r : cat r (ok "") = r.
Proof. destruct r as [e|s]; [done|]. simpl. by rewrite append_nil_r. Qed.

Lemma cat_assoc a b c : cat (cat a b) c = cat a (cat b c).
Proof.
  destruct a as [?|x], b as [?|y], c as [?|z]; try done.
  simpl. by rewrite append_assoc.
Qed.

Lemma cat_append s t r : cat (ok (s +:+ t)) r = cat (ok s) (cat (ok t) r).
Proof. by rewrite <- cat_assoc. Qed.

Lemma cat_inr a b s :
  cat a b = inr s ↔ ∃ x y, a = inr x ∧ b = inr y ∧ s = x +:+ y.
Proof.
  destruct a as [?|x], b as [?|y]; simpl; split;
    try done; try (by intros (? & ? & ? & ? & ?)).
  - intros [= <-]. eauto.
  - by intros (? & ? & [= <-] & [= <-] & ->).
Qed.

Lemma collect_cons r rs : collect (r :: rs) = cat r (collect rs).
Proof. reflexivity. Qed.

Lemma collect_app rs1 rs2 :
  collect (rs1 ++ rs2) = cat (collect rs1) (collect rs2).
Proof.
  induction rs1 as [|r rs1 IH].
  - change (collect ([] ++ rs2)) with (collect rs2).
    change (collect []) with (ok "" : result string).
    by rewrite cat_nil_l.
  - change (collect ((r :: rs1) ++ rs2)) with (cat r (collect (rs1 ++ rs2))).
    by rewrite collect_cons, IH, cat_assoc.
Qed.

Lemma collect_ok ss : collect (inr <$> ss) = ok (Str.concat ss).
Proof.
  induction ss as [|x ss IH]; [done|].
  rewrite fmap_cons, collect_cons, IH. reflexivity.
Qed.

(** A collection returns exactly when each of its parts does. *)
Lemma collect_inr rs s :
  collect rs = inr s ↔ ∃ ss, rs = inr <$> ss ∧ s = Str.concat ss.
Proof.
  split.
  - revert s. induction rs as [|r rs IH]; intros s.
    + intros [= <-]. by exists [].
    + rewrite collect_cons. intros (x & y & -> & Hy & ->)%cat_inr.
      destruct (IH y Hy) as (ss & -> & ->). by exists (x :: ss).
  - intros (ss & -> & ->). apply collect_ok.
Qed.

(** The only error of a result. *)
Definition raises_only (e : error) {A : Type} (r : result A) : Prop :=
  ∀ e', r = inl e' → e' = e.

Lemma cat_raises_only e a b :
  raises_only e a → raises_only e b → raises_only e (cat a b).
Proof.
  intros Ha Hb e'. destruct a as [ea|x]; simpl.
  - intros [= <-]. by apply Ha.
  - destruct b as [eb|y]; simpl; [|done]. intros [= <-]. by apply Hb.
Qed.

Lemma collect_raises_only e rs :
  Forall (raises_only e) rs → raises_only e (collect rs).
Proof.
  induction 1 as [|r rs Hr _ IH]; [done|].
  rewrite collect_cons. by apply cat_raises_only.
Qed.

(** A collection of which a part raises [e], the only error of the
    parts, raises [e]. *)
Lemma collect_inl e rs :
  Forall (raises_only e) rs → inl e ∈ rs → collect rs = inl e.
Proof.
  intros Hall Hin. destruct (collect rs) as [e'|s] eqn:Hc.
  - f_equal. by apply (collect_raises_only e rs Hall).
  - apply collect_inr in Hc as (ss & -> & _).
    apply list_elem_of_fmap in Hin as (? & ? & _). done.
Qed.

Lemma ToString_raises v : raises_only TypeError (ToString v).
Proof. intros e. unfold ToString. destruct (stringable v); by intros [= <-]. Qed.

Lemma replace_with_go_skip m a rest :
  replace_with_go m (String.length a) (a +:+ rest) = replace_with_go m 0 rest.
Proof.
  induction a as [|c a IH]; [by destruct rest|].
  rewrite append_cons. simpl. exact IH.
Qed.

(** A match at the head is replaced, and matching resumes after it. *)
Lemma replace_with_match m tok rest r :
  tok ≠ "" → m (tok +:+ rest) = Some (r, String.length tok) →
  replace_with m (tok +:+ rest) = cat r (replace_with m rest).
Proof.
  intros Hne Hm. destruct tok as [|c tok]; [done|].
  unfold replace_with. rewrite append_cons in *. simpl replace_with_go.
  rewrite Hm. simpl Nat.pred. by rewrite replace_with_go_skip.
Qed.

Lemma replace_with_char m c rest :
  m (String c rest) = None →
  replace_with m (String c rest)
  = cat (ok (String c "")) (replace_with m rest).
Proof. intros Hm. unfold replace_with. simpl. by rewrite Hm. Qed.

(** Plain text is copied. *)
Lemma replace_with_plain m s rest :
  needs_open m → plain s →
  replace_with m (s +:+ rest) = cat (ok s) (replace_with m rest).
Proof.
  intros Hm. unfold plain. induction s as [|c s IH].
  - intros _. by rewrite cat_nil_l.
  - simpl. rewrite andb_true_iff. intros [Hc Hs].
    rewrite !append_cons. rewrite replace_with_char.
    + rewrite (IH Hs). by rewrite <- cat_assoc.
    + apply Hm. apply strip_prefix_head. intros <-. done.
Qed.

Lemma replace_with_nil m : replace_with m "" = ok "".
Proof. done. Qed.

Lemma replace_with_plain_all m s :
  needs_open m → plain s → replace_with m s = ok s.
Proof.
  intros Hm Hs. rewrite <- (append_nil_r s) at 1.
  rewrite (replace_with_plain _ _ _ Hm Hs), replace_with_nil.
  simpl. by rewrite append_nil_r.
Qed.

(** A directive that the pattern does not match at its head is copied,
    when what follows its opening braces is plain. *)
Lemma replace_with_skip m inner rest :
  needs_open m → inner ≠ "" → plain inner →
  m ("{{" +:+ inner +:+ rest) = None →
  replace_with m ("{{" +:+ inner +:+ rest)
  = cat (ok ("{{" +:+ inner)) (replace_with m rest).
Proof.
  intros Hm Hne Hplain Hhead.
  change ("{{" +:+ inner +:+ rest)
    with (String "{" (String "{" (inner +:+ rest))) in *.
  rewrite (replace_with_char _ _ _ Hhead). rewrite replace_with_char.
  - rewrite (replace_with_plain _ _ _ Hm Hplain).
    by rewrite <- !cat_assoc.
  - apply Hm. destruct inner as [|c inner]; [done|].
    rewrite append_cons, strip_prefix_cons.
    apply strip_prefix_head. intros <-.
    unfold plain in Hplain. simpl in Hplain. done.
Qed.

Lemma replace_with_skip_all m inner :
  needs_open m → inner ≠ "" → plain inner → m ("{{" +:+ inner) = None →
  replace_with m ("{{" +:+ inner) = ok ("{{" +:+ inner).
Proof.
  intros Hm Hne Hplain Hhead.
  pose proof (replace_with_skip m inner "" Hm Hne Hplain) as H.
  rewrite replace_with_nil, !append_nil_r, cat_nil_r in H. by apply H.
Qed.

(** *** The reference lookup *)

Lemma walk_keys_descend v keys : walk_keys v keys = descend v keys.
Proof.
  revert v. induction keys as [|key keys IH]; intros v; [done|].
  simpl. destruct v; simpl; by rewrite ?IH.
Qed.

Lemma getValueByPath_resolve obj path :
  getValueByPath obj path = resolve obj path.
Proof.
  unfold getValueByPath, resolve. rewrite walk_keys_descend.
  destruct obj; simpl; by rewrite ?orb_true_r.
Qed.

Lemma text_or_empty_shown v : text_or_empty v = shown v.
Proof. unfold text_or_empty, shown, or_else. by destruct (truthy v). Qed.

Lemma shown_raises v : raises_only TypeError (shown v).
Proof.
  unfold shown. destruct (truthy v); [apply ToString_raises|done].
Qed.

(** *** The passes over a lone variable directive *)

Section LoneDirective.
Variable data : value.
Variables pre key post : string.
Hypothesis pre_plain : plain pre.
Hypothesis post_plain : plain post.
Hypothesis key_path : plain_path key.

Let inner : string := key +:+ "}}" +:+ post.
Let template : string := pre +:+ "{{" +:+ inner.

Lemma inner_plain : plain inner.
Proof.
  unfold inner. rewrite <- append_assoc.
  apply plain_append. split; [by apply plain_path_plain|done].
Qed.

Lemma inner_nonempty : inner ≠ "".
Proof. unfold inner. destruct key_path as [Hne _]. by destruct key. Qed.

Lemma ifPass_lone : ifPass data template = template.
Proof.
  unfold ifPass, template.
  rewrite replace_plain; [|intros s; apply needs_open_block|done].
  f_equal. apply replace_skip_all.
  - intros s; apply needs_open_block.
  - apply inner_nonempty.
  - apply inner_plain.
  - change "{{#if" with ("{{" +:+ "#if").
    by rewrite (block_match_plain _ _ _ inner_plain).
Qed.

Lemma eachPass_lone : eachPass data template = ok template.
Proof.
  unfold eachPass, template.
  rewrite replace_with_plain; [|intros s; apply needs_open_block|done].
  rewrite replace_with_skip_all; [done|..].
  - intros s; apply needs_open_block.
  - apply inner_nonempty.
  - apply inner_plain.
  - change "{{#each" with ("{{" +:+ "#each").
    by rewrite (block_match_plain _ _ _ inner_plain).
Qed.

Lemma elsePass_lone : elsePass template = template.
Proof.
  unfold elsePass, template.
  rewrite replace_plain; [|apply needs_open_else|done].
  f_equal. apply replace_skip_all.
  - apply needs_open_else.
  - apply inner_nonempty.
  - apply inner_plain.
  - apply else_match_plain, inner_plain.
Qed.

Lemma varPass_lone :
  varPass data template
  = cat (ok pre)
        (cat (text_or_empty (getValueByPath data (Str.trim key))) (ok post)).
Proof.
  unfold varPass, template, inner.
  rewrite replace_with_plain; [|intros s; apply needs_open_var|done].
  f_equal.
  replace ("{{" +:+ key +:+ "}}" +:+ post)
    with (("{{" +:+ key +:+ "}}") +:+ post) by (by rewrite !append_assoc).
  rewrite (replace_with_match _ _ _
             (text_or_empty (getValueByPath data (Str.trim key)))).
  - f_equal. apply replace_with_plain_all; [|done].
    intros s; apply needs_open_var.
  - done.
  - rewrite !append_assoc.
    rewrite var_match_directive.
    + simpl. do 2 f_equal. rewrite !length_append. simpl. lia.
    + apply key_path.
    + apply (plain_path_all _ _ path_char_var key_path).
    + done.
Qed.

(** Rendering a template made of plain text around one variable
    directive. *)
Lemma renderTemplate_lone :
  renderTemplate template data
  = cat (ok pre)
        (cat (text_or_empty (getValueByPath data (Str.trim key))) (ok post)).
Proof.
  unfold renderTemplate. rewrite ifPass_lone, eachPass_lone.
  cbn [bind ok]. by rewrite elsePass_lone, varPass_lone.
Qed.

End LoneDirective.


(** *** The body of an iteration block, token by token *)

Lemma show_inner t : is_text t = false → show_token t = "{{" +:+ inner_of t.
Proof. by destruct t. Qed.

Lemma inner_plain_nonempty t :
  wf_token t → is_text t = false → inner_of t ≠ "" ∧ plain (inner_of t).
Proof.
  destruct t as [s| | |key]; simpl; try done.
  intros [Hkey _] _. split; [|by apply plain_path_plain].
  destruct Hkey as [Hne _]. by destruct key.
Qed.

(** A token at whose head the pattern does not match is copied. *)
Lemma replace_copy_token m t rest :
  needs_open m → wf_token t →
  (is_text t = false → m (show_token t +:+ rest) = None) →
  Str.replace_all m (show_token t +:+ rest)
  = show_token t +:+ Str.replace_all m rest.
Proof.
  intros Hm Hwf Hhead. destruct (is_text t) eqn:Ht.
  - destruct t; try done. simpl. by apply replace_plain.
  - destruct (inner_plain_nonempty t Hwf Ht) as [Hne Hplain].
    specialize (Hhead eq_refl). rewrite (show_inner t Ht) in *.
    rewrite !append_assoc in *. by apply replace_skip.
Qed.

Lemma body_text_cons t body :
  body_text (t :: body) = show_token t +:+ body_text body.
Proof. reflexivity. Qed.

(** The first character after the opening braces decides. *)
Lemma strip_prefix_third c p d w :
  c ≠ d →
  Str.strip_prefix ("{{" +:+ String c p) ("{{" +:+ String d w) = None.
Proof.
  intros Hcd.
  change ("{{" +:+ String c p) with (String "{" (String "{" (String c p))).
  change ("{{" +:+ String d w) with (String "{" (String "{" (String d w))).
  rewrite !strip_prefix_cons. by apply strip_prefix_head.
Qed.

Lemma path_first key :
  plain_path key → ∃ d key', key = String d key' ∧ path_char d = true.
Proof.
  intros [Hne Hall]. destruct key as [|d key']; [done|].
  simpl in Hall. apply andb_true_iff in Hall as [Hd _]. eauto.
Qed.

(** A directive token does not start with the text [{{c...] when [c] is
    none of [@], [t] and the characters of a path. *)
Lemma token_head_mismatch c p t rest :
  wf_token t → is_text t = false →
  c ≠ "@"%char → c ≠ "t"%char → path_char c = false →
  Str.strip_prefix ("{{" +:+ String c p) (show_token t +:+ rest) = None.
Proof.
  intros Hwf Ht Hat Hth Hpath. destruct t as [s| | |key]; try done.
  - change (show_token Index +:+ rest)
      with ("{{" +:+ String "@" ("index}}" +:+ rest)).
    by apply strip_prefix_third.
  - change (show_token This +:+ rest)
      with ("{{" +:+ String "t" ("his}}" +:+ rest)).
    by apply strip_prefix_third.
  - destruct Hwf as [Hkey _].
    destruct (path_first key Hkey) as (d & key' & -> & Hd).
    change (show_token (Sub (String d key')) +:+ rest)
      with ("{{" +:+ String d ((key' +:+ "}}") +:+ rest)).
    apply strip_prefix_third. intros ->. congruence.
Qed.

Lemma pretty_N_go_all (f : ascii → bool) x :
  (∀ d, f (pretty_N_char d) = true) →
  ∀ s, Str.all f s = true → Str.all f (pretty_N_go x s) = true.
Proof.
  intros Hf. induction (N.lt_wf_0 x) as [x _ IH]; intros s Hs.
  destruct (decide (x = 0)%N) as [->|Hx]; [done|].
  rewrite pretty_N_go_step by lia.
  apply IH; [apply N.div_lt; lia|].
  simpl. by rewrite Hf, Hs.
Qed.

Lemma pretty_nat_all (f : ascii → bool) (n : nat) :
  (∀ d, f (pretty_N_char d) = true) → Str.all f (pretty n) = true.
Proof.
  intros Hf. unfold pretty, pretty_nat, pretty, pretty_N.
  case_decide; [|by apply pretty_N_go_all].
  simpl. rewrite andb_true_r. exact (Hf 0%N).
Qed.

Lemma pretty_nat_plain (n : nat) : plain (pretty n).
Proof.
  apply pretty_nat_all. intros d. unfold pretty_N_char. by repeat case_match.
Qed.

Lemma pretty_nat_digits (n : nat) : Str.all Chars.digit (pretty n) = true.
Proof.
  apply pretty_nat_all. intros d. unfold pretty_N_char. by repeat case_match.
Qed.

Section ItemBody.
Variable item : value.
Variable k : nat.

(** The two replacements of [renderItem]. *)
Let index_pattern : string → option (string * nat) :=
  λ s, _ ← Str.strip_prefix "{{@index}}" s; Some (pretty (k + 1), 10).
Let item_pattern : string → option (result string * nat) :=
  λ s, '(key, n) ← var_match item_key_char s;
       let trimmedKey := Str.trim key in
       Some (if String.eqb trimmedKey "this" then ToString item
             else text_or_empty (getValueByPath item trimmedKey), n).

Lemma after_index_wf t : wf_token t → wf_token (after_index k t).
Proof. destruct t; simpl; try done. intros _. apply pretty_nat_plain. Qed.

Lemma after_both t :
  after_item item k (after_index k t) = token_value item k t.
Proof. by destruct t. Qed.

(** A token at whose head the pattern does not match is copied. *)
Lemma replace_with_copy_token m t rest :
  needs_open m → wf_token t →
  (is_text t = false → m (show_token t +:+ rest) = None) →
  replace_with m (show_token t +:+ rest)
  = cat (ok (show_token t)) (replace_with m rest).
Proof.
  intros Hm Hwf Hhead. destruct (is_text t) eqn:Ht.
  - destruct t; try done. simpl show_token. by apply replace_with_plain.
  - destruct (inner_plain_nonempty t Hwf Ht) as [Hne Hplain].
    specialize (Hhead eq_refl). rewrite (show_inner t Ht) in *.
    rewrite !append_assoc in *. by apply replace_with_skip.
Qed.

Lemma index_pass body :
  Forall wf_token body →
  Str.replace_all index_pattern (body_text body)
  = body_text (after_index k <$> body).
Proof.
  assert (Hopen : needs_open index_pattern).
  { intros s Hs. unfold index_pattern. by apply needs_open_bind. }
  induction 1 as [|t body Hwf _ IH]; [done|].
  rewrite fmap_cons, !body_text_cons.
  destruct t as [s| | |key].
  - rewrite replace_copy_token by done. by rewrite IH.
  - rewrite (replace_match _ "{{@index}}" _ (pretty (k + 1))).
    + by rewrite IH.
    + done.
    + unfold index_pattern. simpl show_token.
      by rewrite strip_prefix_append.
  - rewrite replace_copy_token; [by rewrite IH|done|done|].
    intros _. unfold index_pattern. simpl show_token.
    change ("{{this}}" +:+ body_text body)
      with ("{{" +:+ String "t" ("his}}" +:+ body_text body)).
    change "{{@index}}" with ("{{" +:+ String "@" "index}}").
    by rewrite strip_prefix_third.
  - rewrite replace_copy_token; [by rewrite IH|done|done|].
    intros _. unfold index_pattern.
    destruct Hwf as [Hkey _].
    destruct (path_first key Hkey) as (d & key' & -> & Hd).
    change (show_token (Sub (String d key')) +:+ body_text body)
      with ("{{" +:+ String d ((key' +:+ "}}") +:+ body_text body)).
    change "{{@index}}" with ("{{" +:+ String "@" "index}}").
    rewrite strip_prefix_third; [done|]. intros <-. done.
Qed.

Lemma item_pass body :
  Forall wf_token body →
  replace_with item_pattern (body_text body)
  = collect (after_item item k <$> body).
Proof.
  assert (Hopen : needs_open item_pattern).
  { intros s Hs. unfold item_pattern. by apply needs_open_var. }
  induction 1 as [|t body Hwf _ IH]; [done|].
  rewrite fmap_cons, body_text_cons, collect_cons.
  destruct t as [s| | |key].
  - rewrite replace_with_copy_token by done. by rewrite IH.
  - rewrite replace_with_copy_token; [by rewrite IH|done|done|].
    intros _. reflexivity.
  - rewrite (replace_with_match _ "{{this}}" _ (ToString item)).
    + by rewrite IH.
    + done.
    + unfold item_pattern. simpl show_token.
      change ("{{this}}" +:+ body_text body)
        with ("{{" +:+ "this" +:+ "}}" +:+ body_text body).
      by rewrite var_match_directive.
  - destruct Hwf as [Hkey Hthis].
    rewrite (replace_with_match _ ("{{" +:+ key +:+ "}}") _
               (text_or_empty (getValueByPath item (Str.trim key)))).
    + rewrite IH. simpl after_item.
      by rewrite text_or_empty_shown, getValueByPath_resolve.
    + done.
    + unfold item_pattern. rewrite !append_assoc.
      rewrite var_match_directive.
      * rewrite obind_some. cbv zeta.
        apply String.eqb_neq in Hthis. rewrite Hthis.
        do 2 f_equal. rewrite !length_append. simpl. lia.
      * apply Hkey.
      * apply (plain_path_all _ _ path_char_item Hkey).
      * done.
Qed.

(** [renderItem] gives each token its value. *)
Lemma renderItem_tokens body :
  Forall wf_token body →
  renderItem (body_text body) item k
  = collect (token_value item k <$> body).
Proof.
  intros Hwf. unfold renderItem.
  fold index_pattern. fold item_pattern.
  rewrite (index_pass body Hwf), item_pass.
  - rewrite <- list_fmap_compose. f_equal.
    apply list_fmap_ext. intros ? t _. apply after_both.
  - apply Forall_fmap. eapply Forall_impl; [exact Hwf|].
    intros t. apply after_index_wf.
Qed.

End ItemBody.


(** *** An iteration block *)

Lemma starts_nowhere_app pat a b rest :
  starts_nowhere pat a (b +:+ rest) → starts_nowhere pat b rest →
  starts_nowhere pat (a +:+ b) rest.
Proof.
  intros Ha Hb. induction a as [|c a IH]; [done|].
  destruct Ha as [Hhere Ha]. rewrite append_cons. split.
  - by rewrite <- append_cons, append_assoc.
  - by apply IH.
Qed.

Lemma starts_nowhere_plain pat a rest :
  plain a → starts_nowhere (String "{" pat) a rest.
Proof.
  unfold plain. induction a as [|c a IH]; [done|].
  simpl Str.all. rewrite andb_true_iff. intros [Hc Ha]. split.
  - rewrite append_cons. apply strip_prefix_head. intros <-. done.
  - by apply IH.
Qed.

(** No closing tag starts inside a well-formed token. *)
Lemma starts_nowhere_token p t rest :
  wf_token t →
  starts_nowhere ("{{" +:+ String "/" p) (show_token t) rest.
Proof.
  intros Hwf. destruct (is_text t) eqn:Ht.
  - destruct t; try done. by apply starts_nowhere_plain.
  - destruct (inner_plain_nonempty t Hwf Ht) as [Hne Hplain].
    pose proof (token_head_mismatch "/" p t rest Hwf Ht) as Hhead.
    rewrite (show_inner t Ht) in *.
    destruct (inner_of t) as [|d inner] eqn:Hinner; [done|].
    split; [by apply Hhead|]. split.
    + change ("{{" +:+ String "/" p) with (String "{" (String "{" (String "/" p))).
      rewrite append_cons, strip_prefix_cons.
      apply strip_prefix_head. intros <-. done.
    + by apply (starts_nowhere_plain _ (String d inner)).
Qed.

Lemma starts_nowhere_body p body rest :
  Forall wf_token body →
  starts_nowhere ("{{" +:+ String "/" p) (body_text body) rest.
Proof.
  induction 1 as [|t body Hwf _ IH]; [done|].
  rewrite body_text_cons. apply starts_nowhere_app; [|done].
  by apply starts_nowhere_token.
Qed.

Lemma join_empty parts : Str.join "" parts = Str.concat parts.
Proof.
  induction parts as [|x [|y parts] IH]; [done| |].
  - simpl. by rewrite append_nil_r.
  - change (Str.join "" (x :: y :: parts))
      with (x +:+ "" +:+ Str.join "" (y :: parts)).
    by rewrite IH.
Qed.

(** [xs.map(f).join('')] *)
Lemma sequence_join rs :
  bind (sequence rs) (λ parts, ok (Str.join "" parts)) = collect rs.
Proof.
  induction rs as [|r rs IH]; [done|].
  rewrite collect_cons, <- IH. destruct r as [e|x]; [done|].
  simpl. destruct (sequence rs) as [e|xs]; [done|].
  cbn [bind ok]. by rewrite !join_empty.
Qed.

Lemma ws_len_space s : Str.ws_len (String " " s) = 1.
Proof. reflexivity. Qed.

Lemma greedy_ws_S f r :
  greedy_ws (S f) r
  = match Str.ws_len r with
    | O => r
    | n => if Str.is_empty (Str.drop n r) then r
           else greedy_ws f (Str.drop n r)
    end.
Proof. reflexivity. Qed.

Lemma greedy_ws_stop path :
  Str.ws_len path = 0 → greedy_ws (String.length path) path = path.
Proof.
  intros Hws. destruct path as [|c p] eqn:Hp; [done|].
  change (String.length (String c p)) with (S (String.length p)).
  rewrite greedy_ws_S. by rewrite Hws.
Qed.

Section EachBlock.
Variable data : value.
Variable path : string.
Variable body : list token.
Variable post : string.
Hypothesis path_ok : plain_path path.
Hypothesis path_start : Str.ws_len path = 0.
Hypothesis body_wf : Forall wf_token body.

Let block : string :=
  "{{#each " +:+ path +:+ "}}" +:+ body_text body +:+ "{{/each}}".

Lemma block_length :
  String.length block
  = String.length "{{#each" + String.length (String " " path) + 2 +
    String.length (body_text body) + String.length "{{/each}}".
Proof. unfold block. rewrite !length_append. simpl. lia. Qed.

Lemma each_block_match :
  block_match "{{#each" "{{/each}}" (block +:+ post)
  = Some (path, body_text body, String.length block).
Proof.
  rewrite block_length. unfold block_match, block.
  rewrite !append_assoc.
  change ("{{#each " +:+ path +:+ "}}" +:+ body_text body +:+ "{{/each}}"
          +:+ post)
    with ("{{#each" +:+ String " " path +:+
          String "}" (String "}" (body_text body +:+ "{{/each}}" +:+ post))).
  rewrite strip_prefix_append, obind_some.
  rewrite span_append; [| |done].
  - change (String "}" (String "}" (body_text body +:+ "{{/each}}" +:+ post)))
      with ("}}" +:+ body_text body +:+ "{{/each}}" +:+ post).
    rewrite strip_prefix_append, obind_some.
    unfold capture_after_ws. rewrite ws_len_space.
    change (Str.drop 1 (String " " path)) with path.
    destruct path_ok as [Hne _].
    destruct (Str.is_empty path) eqn:Hempty; [by destruct path|].
    rewrite obind_some, (greedy_ws_stop _ path_start).
    rewrite find_sub_append; [done|].
    by apply (starts_nowhere_body "each}}").
  - simpl. apply (plain_path_all _ _ path_char_not_rbrace path_ok).
Qed.

(** The iteration pass replaces the block by the values of its tokens for
    each element in turn, or by nothing when the path does not lead to an
    array. *)
Lemma eachPass_block :
  eachPass data (block +:+ post)
  = cat (match resolve data (Str.trim path) with
         | VArr array => each_value body array
         | _ => ok ""
         end) (eachPass data post).
Proof.
  unfold eachPass. apply replace_with_match.
  - unfold block. done.
  - rewrite each_block_match, obind_some. do 2 f_equal.
    rewrite getValueByPath_resolve.
    destruct (resolve data (Str.trim path)); try done.
    rewrite sequence_join. unfold each_value. f_equal.
    apply imap_ext. intros i item _. by apply renderItem_tokens.
Qed.

End EachBlock.


(** *** Rendering a template that is one iteration block *)

(** A pattern that matches at the head of no token copies a body. *)
Lemma replace_copy_body m body rest :
  needs_open m → Forall wf_token body →
  (∀ t rest', wf_token t → is_text t = false →
              m (show_token t +:+ rest') = None) →
  Str.replace_all m (body_text body +:+ rest)
  = body_text body +:+ Str.replace_all m rest.
Proof.
  intros Hm Hwf Hhead. induction Hwf as [|t body Ht _ IH]; [done|].
  rewrite body_text_cons, !append_assoc.
  rewrite replace_copy_token; [by rewrite IH|done|done|].
  by apply Hhead.
Qed.

Section WholeBlock.
Variable data : value.
Variable path : string.
Variable body : list token.
Hypothesis path_ok : plain_path path.
Hypothesis path_start : Str.ws_len path = 0.
Hypothesis body_wf : Forall wf_token body.

Let block : string :=
  "{{#each " +:+ path +:+ "}}" +:+ body_text body +:+ "{{/each}}".

Lemma ifPass_block : ifPass data block = block.
Proof.
  unfold ifPass, block.
  assert (Hopen : needs_open
    (λ s, '(condition, content, n) ← block_match "{{#if" "{{/if}}" s;
          Some (if truthy (getValueByPath data (Str.trim condition))
                then content else "", n))).
  { intros s. apply needs_open_block. }
  change ("{{#each " +:+ path +:+ "}}" +:+ body_text body +:+ "{{/each}}")
    with ("{{" +:+ "#each " +:+ path +:+ "}}" +:+ body_text body +:+
          "{{/each}}").
  rewrite <- (append_assoc path), <- (append_assoc "#each ").
  rewrite replace_skip; [|done|done| |].
  - rewrite replace_copy_body; [|done|done|].
    + change "{{/each}}" with ("{{" +:+ "/each}}").
      by rewrite replace_skip_all.
    + intros t rest' Hwf Ht. unfold block_match.
      change "{{#if" with ("{{" +:+ String "#" "if").
      by rewrite token_head_mismatch.
  - apply plain_append. split; [done|]. by apply plain_path_plain.
  - reflexivity.
Qed.

(** When the text the block expands to has no opening brace, it is what
    [renderTemplate] returns; when the expansion raises, so does
    [renderTemplate]. *)
Lemma renderTemplate_block (rendered : result string) :
  match resolve data (Str.trim path) with
  | VArr array => each_value body array
  | _ => ok ""
  end = rendered →
  (∀ text, rendered = inr text → plain text) →
  renderTemplate block data = rendered.
Proof.
  intros Hr Hplain. unfold renderTemplate. rewrite ifPass_block.
  pose proof (eachPass_block data path body "" path_ok path_start body_wf)
    as Heach.
  rewrite append_nil_r, Hr in Heach. fold block in Heach.
  change (eachPass data "") with (ok "" : result string) in Heach.
  rewrite cat_nil_r in Heach.
  rewrite Heach. destruct rendered as [e|text]; [done|].
  specialize (Hplain text eq_refl). cbn [bind]. unfold elsePass, varPass.
  rewrite (replace_plain_all else_match); [|apply needs_open_else|done].
  apply replace_with_plain_all; [|done].
  intros s. apply needs_open_var.
Qed.

End WholeBlock.


(** *** [preprocessData] and [render] *)

Lemma assoc_set_eq k v props : assoc k (assoc_set k v props) = Some v.
Proof.
  induction props as [|[k' v'] props IH]; simpl.
  - by rewrite String.eqb_refl.
  - destruct (String.eqb k k') eqn:Hk; simpl.
    + by rewrite String.eqb_refl.
    + by rewrite Hk.
Qed.

Lemma assoc_set_ne k k' v props :
  k ≠ k' → assoc k' (assoc_set k v props) = assoc k' props.
Proof.
  intros Hne. induction props as [|[k0 v0] props IH]; simpl.
  - destruct (String.eqb_spec k' k); [congruence|done].
  - destruct (String.eqb_spec k k0) as [->|Hk0]; simpl.
    + destruct (String.eqb_spec k' k0); [congruence|done].
    + destruct (String.eqb_spec k' k0); [done|]. exact IH.
Qed.

Lemma assoc_set_idem k v w props :
  assoc_set k v (assoc_set k w props) = assoc_set k v props.
Proof.
  induction props as [|[k0 v0] props IH]; simpl.
  - by rewrite String.eqb_refl.
  - destruct (String.eqb_spec k k0) as [->|Hk0]; simpl.
    + by rewrite String.eqb_refl.
    + destruct (String.eqb_spec k k0); [done|]. by rewrite IH.
Qed.

(** Writing to a property that exists keeps the order of the properties:
    it commutes with a write to another property. *)
Lemma assoc_set_comm k k' v v' props :
  k ≠ k' → is_Some (assoc k props) →
  assoc_set k' v' (assoc_set k v props) = assoc_set k v (assoc_set k' v' props).
Proof.
  intros Hne. induction props as [|[k0 v0] props IH]; simpl.
  - by intros [? ?].
  - intros Hsome.
    destruct (String.eqb_spec k k0) as [->|Hk0]; simpl.
    + destruct (String.eqb_spec k' k0) as [->|Hk'0]; [done|]. simpl.
      by rewrite String.eqb_refl.
    + destruct (String.eqb_spec k' k0) as [->|Hk'0]; simpl.
      * by destruct (String.eqb_spec k k0).
      * destruct (String.eqb_spec k k0); [done|]. by rewrite IH.
Qed.

Lemma get_set_eq k v props : get (set_own k v (VObj props)) k = v.
Proof. simpl. by rewrite assoc_set_eq. Qed.

Lemma get_set_ne k k' v props :
  k ≠ k' → get (set_own k v (VObj props)) k' = get (VObj props) k'.
Proof. intros Hne. simpl. by rewrite assoc_set_ne. Qed.

Lemma url_of_ext p q :
  get p "repository" = get q "repository" → url_of p = url_of q.
Proof. unfold url_of. by intros ->. Qed.

Lemma preprocessData_object today props :
  preprocessData today (VObj props)
  = bind (title_step (VObj (defaults today props)))
         (λ processed, repository_step processed (VObj props)).
Proof. reflexivity. Qed.

Lemma defaults_assoc today props k :
  ¬ default_key k → assoc k (defaults today props) = assoc k props.
Proof.
  unfold default_key, defaults. intros Hk.
  rewrite !assoc_set_ne; [done|..]; intros <-; tauto.
Qed.

Lemma title_step_object props :
  string_or_falsy (get (VObj props) "title") →
  title_step (VObj props) = inr (VObj props) ∨
  ∃ name, title_step (VObj props)
          = inr (VObj (assoc_set "packageName" (VStr name) props)).
Proof.
  unfold title_step. intros [Hf|Hs].
  - left. by rewrite Hf.
  - destruct (get (VObj props) "title") as [| | | |t| |]; try done.
    destruct (truthy (VStr t)); [right; by eexists|by left].
Qed.

Lemma repository_step_ok processed data :
  string_or_falsy (url_of processed) →
  ∃ out, repository_step processed data = inr out.
Proof.
  unfold repository_step. intros [Hf|Hs].
  - rewrite Hf. eauto.
  - destruct (url_of processed) as [| | | |u| |]; try done.
    destruct (truthy (VStr u)); [|eauto].
    destruct (github_match u) as [[owner name]|]; eauto.
Qed.

(** [preprocessData] succeeds on a data object whose [title] and
    [repository.url] are falsy or strings. *)
Lemma preprocessData_ok today props :
  string_or_falsy (get (VObj props) "title") →
  string_or_falsy (url_of (VObj props)) →
  ∃ out, preprocessData today (VObj props) = inr out.
Proof.
  intros Htitle Hurl. rewrite preprocessData_object.
  assert (Hnd : ∀ k, k = "title" ∨ k = "repository" → ¬ default_key k).
  { intros k [->| ->] [?|[?|[?|?]]]; discriminate. }
  destruct (title_step_object (defaults today props)) as [Ht|[name Ht]].
  { unfold get. rewrite defaults_assoc by auto. exact Htitle. }
  - rewrite Ht. simpl bind. apply repository_step_ok.
    rewrite (url_of_ext _ (VObj props)); [done|].
    unfold get. by rewrite defaults_assoc by auto.
  - rewrite Ht. simpl bind. apply repository_step_ok.
    rewrite (url_of_ext _ (VObj props)); [done|].
    unfold get. rewrite assoc_set_ne by discriminate.
    by rewrite defaults_assoc by auto.
Qed.

(** A key that is not a numeral is no index of an array. *)
Lemma index_of_key_not_numeral n k :
  Str.all Chars.digit k = false → index_of_key n k = None.
Proof.
  intros Hk. unfold index_of_key.
  destruct (list_find _ _) as [[i j]|] eqn:Hfind; [|done].
  apply list_find_Some in Hfind as (_ & -> & _).
  by rewrite pretty_nat_digits in Hk.
Qed.

(** A [repository] with a [url] is an object. *)
Lemma url_of_string processed u :
  url_of processed = VStr u →
  ∃ rprops, get processed "repository" = VObj rprops ∧
            assoc "url" rprops = Some (VStr u).
Proof.
  unfold url_of. destruct (get processed "repository") as [| |b|n|s|l|rprops];
    try done.
  - simpl. by rewrite index_of_key_not_numeral.
  - simpl. by rewrite index_of_key_not_numeral.
  - simpl. destruct (assoc "url" rprops) as [v|] eqn:Hv; [|done].
    simpl. intros ->. eauto.
Qed.

Lemma repository_step_inv processed data out :
  repository_step processed data = inr out →
  out = (processed, data) ∨
  ∃ u owner name rprops,
    get processed "repository" = VObj rprops ∧
    assoc "url" rprops = Some (VStr u) ∧
    github_match u = Some (owner, name) ∧
    out = (set_own "repository" (write_repository owner name (VObj rprops))
             processed,
           set_own "repository" (write_repository owner name (VObj rprops))
             data).
Proof.
  unfold repository_step.
  destruct (truthy (url_of processed)); [|intros [= <-]; by left].
  destruct (url_of processed) as [| | | |u| |] eqn:Hurl; try done.
  destruct (url_of_string _ _ Hurl) as (rprops & Hrepo & Hu).
  destruct (github_match u) as [[owner name]|] eqn:Hm;
    [|intros [= <-]; by left].
  intros [= <-]. right. exists u, owner, name, rprops. by rewrite Hrepo.
Qed.

Lemma title_step_inv processed out :
  title_step processed = inr out →
  out = processed ∨
  ∃ t, get processed "title" = VStr t ∧
       out = set_own "packageName" (VStr (packageName t)) processed.
Proof.
  unfold title_step. destruct (truthy _); [|intros [= <-]; by left].
  destruct (get processed "title") as [| | | |t| |]; try done.
  intros [= <-]. right. eauto.
Qed.

(** [render] writes to the caller's data object under [repository]
    only. *)
Lemma title_step_error processed e :
  title_step processed = inl e → e = TypeError.
Proof.
  unfold title_step. destruct (truthy _); [|done].
  destruct (get processed "title"); by intros [= <-].
Qed.

Lemma repository_step_error processed data e :
  repository_step processed data = inl e → e = TypeError.
Proof.
  unfold repository_step. destruct (truthy _); [|done].
  destruct (url_of processed) as [| |b|n|u|l|o]; try (by intros [= <-]).
  by destruct (github_match u) as [[owner name]|].
Qed.

Lemma preprocessData_error today props e :
  preprocessData today (VObj props) = inl e → e = TypeError.
Proof.
  rewrite preprocessData_object.
  intros [H|(p5 & _ & H)]%ValidatorFacts.bind_inl.
  - by eapply title_step_error.
  - by eapply repository_step_error.
Qed.

(** *** What rendering raises *)

Lemma replace_with_go_raises e m :
  (∀ a r n, m a = Some (r, n) → raises_only e r) →
  ∀ s skip, raises_only e (replace_with_go m skip s).
Proof.
  intros Hm. induction s as [|c s IH]; intros skip; [done|].
  cbn [replace_with_go]. destruct skip as [|k]; [|apply IH].
  destruct (m (String c s)) as [[r n]|] eqn:Hr.
  - apply cat_raises_only; [by eapply Hm|apply IH].
  - apply cat_raises_only; [done|apply IH].
Qed.

Lemma sequence_raises {A} e (rs : list (result A)) :
  Forall (raises_only e) rs → raises_only e (sequence rs).
Proof.
  induction 1 as [|r rs Hr _ IH]; [done|].
  intros e'. simpl. destruct r as [er|x]; simpl.
  - intros [= <-]. by apply Hr.
  - destruct (sequence rs) as [es|xs]; simpl; [|done].
    intros [= <-]. by apply IH.
Qed.

Lemma text_or_empty_raises v : raises_only TypeError (text_or_empty v).
Proof. apply ToString_raises. Qed.

Lemma renderItem_raises content item index :
  raises_only TypeError (renderItem content item index).
Proof.
  unfold renderItem. apply replace_with_go_raises. intros a r n.
  destruct (var_match item_key_char a) as [[key n']|]; [|done].
  simpl. destruct (String.eqb _ _); intros [= <- _].
  - apply ToString_raises.
  - apply text_or_empty_raises.
Qed.

Lemma eachPass_raises data template :
  raises_only TypeError (eachPass data template).
Proof.
  unfold eachPass. apply replace_with_go_raises. intros a r n.
  destruct (block_match _ _ a) as [[[arrayPath content] n']|]; [|done].
  simpl. intros [= <- _].
  destruct (getValueByPath data (Str.trim arrayPath)); try done.
  intros e [H|(parts & _ & H)]%ValidatorFacts.bind_inl; [|done].
  revert H. apply sequence_raises. apply Forall_forall.
  intros r [i [item [-> _]]]%elem_of_lookup_imap.
  apply renderItem_raises.
Qed.

Lemma varPass_raises data template :
  raises_only TypeError (varPass data template).
Proof.
  unfold varPass. apply replace_with_go_raises. intros a r n.
  destruct (var_match var_key_char a) as [[key n']|]; [|done].
  simpl. intros [= <- _]. apply text_or_empty_raises.
Qed.

Lemma renderTemplate_raises template data :
  raises_only TypeError (renderTemplate template data).
Proof.
  intros e. unfold renderTemplate.
  intros [H|(text & _ & H)]%ValidatorFacts.bind_inl.
  - by eapply eachPass_raises.
  - by eapply varPass_raises.
Qed.

Lemma preprocessData_frame today props processed data' k :
  preprocessData today (VObj props) = inr (processed, data') →
  k ≠ "repository" → get data' k = get (VObj props) k.
Proof.
  rewrite preprocessData_object.
  intros (p5 & _ & Hrepo)%ValidatorFacts.bind_inr Hk.
  apply repository_step_inv in Hrepo
    as [[= _ ->]|(u & owner & name & rprops & _ & _ & _ & [= _ ->])];
    [done|].
  apply get_set_ne. by intros <-.
Qed.

Lemma defaults_comm today props shared :
  is_Some (assoc "repository" props) →
  defaults today (assoc_set "repository" shared props)
  = assoc_set "repository" shared (defaults today props).
Proof.
  intros Hsome. unfold defaults, get. cbv zeta.
  rewrite (assoc_set_ne "repository" "version") by done.
  rewrite (assoc_set_comm "repository" "version") by done.
  rewrite (assoc_set_ne "repository" "language") by done.
  rewrite (assoc_set_comm "repository" "language")
    by (by rewrite ?assoc_set_ne).
  rewrite (assoc_set_ne "repository" "license") by done.
  rewrite (assoc_set_comm "repository" "license")
    by (by rewrite ?assoc_set_ne).
  rewrite (assoc_set_comm "repository" "currentDate")
    by (by rewrite ?assoc_set_ne).
  done.
Qed.

Lemma write_repository_again owner name rprops :
  write_repository owner name (write_repository owner name (VObj rprops))
  = write_repository owner name (VObj rprops).
Proof.
  simpl. f_equal.
  rewrite <- (assoc_set_comm "owner" "name")
    by (done || by rewrite assoc_set_eq).
  by rewrite (assoc_set_idem "owner"), assoc_set_idem.
Qed.

(** A second call on the data object as the first call left it computes
    the same processed data and leaves the object as it is. *)
Lemma preprocessData_again today props processed data' :
  preprocessData today (VObj props) = inr (processed, data') →
  preprocessData today data' = inr (processed, data').
Proof.
  intros Hfirst. pose proof Hfirst as Hcopy.
  rewrite preprocessData_object in Hfirst.
  apply ValidatorFacts.bind_inr in Hfirst as (p5 & Htitle & Hrepo).
  apply repository_step_inv in Hrepo
    as [[= -> ->]|(u & owner & name & rprops & Hget & Hu & Hm & [= -> ->])];
    [done|].
  set (shared := write_repository owner name (VObj rprops)) in *.
  assert (Hrepo0 : assoc "repository" props = Some (VObj rprops)).
  { apply title_step_inv in Htitle as [->|(t & _ & ->)];
      unfold get, set_own in Hget;
      rewrite ?assoc_set_ne, defaults_assoc in Hget
        by (done || intros [?|[?|[?|?]]]; discriminate);
      by destruct (assoc "repository" props) as [?|]; simplify_eq/=. }
  assert (Htitle' :
    title_step (VObj (defaults today (assoc_set "repository" shared props)))
    = inr (set_own "repository" shared p5)).
  { rewrite defaults_comm by (by rewrite Hrepo0).
    unfold title_step in *. unfold get in *.
    rewrite assoc_set_ne by done.
    destruct (truthy _); [|by injection Htitle as <-].
    destruct (default VUndef (assoc "title" (defaults today props)))
      as [| | | |t| |]; try done.
    injection Htitle as <-. simpl. do 2 f_equal.
    apply assoc_set_comm; [done|].
    rewrite defaults_assoc by (intros [?|[?|[?|?]]]; discriminate).
    by rewrite Hrepo0. }
  change (preprocessData today (VObj (assoc_set "repository" shared props))
          = inr (set_own "repository" shared p5,
                 VObj (assoc_set "repository" shared props))).
  rewrite preprocessData_object, Htitle'. simpl bind.
  assert (∃ q, p5 = VObj q) as [q ->].
  { apply title_step_inv in Htitle as [->|(t & _ & ->)]; by eexists. }
  unfold repository_step.
  assert (Hshared : get (set_own "repository" shared (VObj q)) "repository"
                    = shared) by apply get_set_eq.
  assert (Hurl : url_of (set_own "repository" shared (VObj q)) = VStr u).
  { unfold url_of. rewrite Hshared. unfold shared. simpl.
    rewrite !assoc_set_ne by done. by rewrite Hu. }
  rewrite Hurl, Hm, Hshared.
  assert (truthy (VStr u) = true) as ->.
  { unfold repository_step in Hcopy. destruct u; [|done].
    by vm_compute in Hm. }
  unfold shared. rewrite write_repository_again. simpl.
  by rewrite !assoc_set_idem.
Qed.


End TemplateFacts.


(** * The claims *)

Module Claims.
Import JS ConfigValidator Navigation TemplateEngine.
Import ValidatorSpec NavigationSpec TemplateSpec Samples.
Import ValidatorFacts NavigationFacts TemplateFacts.

(** Closed decidable facts, by evaluation. *)
Ltac by_decide :=
  match goal with
  | |- ?P => apply (bool_decide_unpack P); vm_compute; exact I
  end.

(** ** C1: the navigation chain *)

(** C1, as stated, fails: two section items with the same path give a
    page-key sequence of length 2 and a navigation map with one entry. *)
Lemma navigation_duplicate_path :
  navigationOrder config_same_path = inr [VStr "a"; VStr "a"] ∧
  ∃ nav, generateNavigationData config_same_path = inr nav ∧ size nav = 1.
Proof.
  split; [vm_compute; reflexivity|].
  eexists. split; [vm_compute; reflexivity|]. vm_compute. reflexivity.
Qed.

(** C1 (amended): when the built page-key sequence (flattened from the
    structure or taken from [navigation.order]) is made of [N] distinct,
    non-empty keys other than [__proto__], and a title can be computed for
    each of them, the builder returns a map with exactly [N] entries; the
    entry of the key at position [i] has index [i] and total [N], its
    [previous] is [null] exactly when it is the first and its [next] is
    [null] exactly when it is the last, so exactly one entry has no
    [previous] and exactly one has no [next] (for [N = 1] the single entry
    has neither); walking [next] from the head visits the [N] keys in
    order, each once, and then reaches [null]. *)
Theorem navigation_chain (config : value) (keys : list string) :
  navigationOrder config = inr (VStr <$> keys) →
  NoDup keys → "" ∉ keys → "__proto__" ∉ keys →
  (∀ k, k ∈ keys → ∃ t, getPageTitle config (VStr k) = inr t) →
  ∃ nav,
    generateNavigationData config = inr nav ∧
    size nav = length keys ∧
    (∀ i k, keys !! i = Some k →
       ∃ e, nav !! k = Some e ∧ index e = i ∧ total e = length keys ∧
            (previous e = None ↔ i = 0) ∧
            (next e = None ↔ S i = length keys)) ∧
    (∀ k e, nav !! k = Some e → previous e = None → keys !! 0 = Some k) ∧
    (∀ k e, nav !! k = Some e → next e = None →
            keys !! (length keys - 1) = Some k) ∧
    (∀ head, keys !! 0 = Some head →
             walk nav (length keys) head = Some keys).
Proof.
  intros Horder Hnd Hne Hproto Htitles.
  destruct (build_spec config keys Hne Htitles Hnd Hproto)
    as (nav & Hnav & Hout & Hin).
  assert (Hentry : ∀ i k, keys !! i = Some k →
    ∃ e, nav !! k = Some e ∧ index e = i ∧ total e = length keys ∧
         (previous e = None ↔ i = 0) ∧ (next e = None ↔ S i = length keys)).
  { intros i k Hk. destruct (Hin i k Hk) as (e & He & Hlk).
    destruct (entryAt_spec config keys Hne Htitles i k Hk)
      as (e' & He' & Hi & Ht & Hp & Hn).
    assert (e' = e) as -> by congruence.
    exists e. do 3 (split; [done|]). split.
    - destruct i as [|j]; [done|].
      destruct Hp as (k' & t & _ & ->). done.
    - pose proof (lookup_lt_Some _ _ _ Hk).
      destruct (keys !! S i) as [k'|] eqn:Hk'.
      + apply lookup_lt_Some in Hk'. destruct Hn as [t ->].
        split; [done|lia].
      + apply lookup_ge_None in Hk'. split; [lia|done]. }
  assert (Hback : ∀ k e, nav !! k = Some e →
    ∃ i, keys !! i = Some k).
  { intros k e Hlk. destruct (decide (k ∈ keys)) as [Hk|Hk].
    - by apply list_elem_of_lookup_1.
    - rewrite (Hout k Hk) in Hlk. done. }
  exists nav. split_and!.
  - unfold generateNavigationData. rewrite Horder. exact Hnav.
  - apply (size_spec keys Hnd nav Hout). intros i k Hk.
    destruct (Hin i k Hk) as (e & _ & ->). done.
  - exact Hentry.
  - intros k e Hlk Hp. destruct (Hback k e Hlk) as [i Hi].
    destruct (Hentry i k Hi) as (e' & Hlk' & _ & _ & Hprev & _).
    assert (e' = e) as -> by congruence.
    apply Hprev in Hp as ->. done.
  - intros k e Hlk Hn. destruct (Hback k e Hlk) as [i Hi].
    destruct (Hentry i k Hi) as (e' & Hlk' & _ & _ & _ & Hnext).
    assert (e' = e) as -> by congruence.
    apply Hnext in Hn. replace (length keys - 1) with i by lia. done.
  - intros head Hhead.
    rewrite (walk_spec config keys Hne Htitles nav Hin (length keys) 0 head)
      by (done || lia).
    done.
Qed.

Lemma navigation_chain_witness :
  ∃ nav,
    generateNavigationData config_ab = inr nav ∧
    size nav = 2 ∧
    (∀ i k, ["a"; "b"] !! i = Some k →
       ∃ e, nav !! k = Some e ∧ index e = i ∧ total e = 2 ∧
            (previous e = None ↔ i = 0) ∧ (next e = None ↔ S i = 2)) ∧
    (∀ k e, nav !! k = Some e → previous e = None → k = "a") ∧
    (∀ k e, nav !! k = Some e → next e = None → k = "b") ∧
    walk nav 2 "a" = Some ["a"; "b"].
Proof.
  destruct (navigation_chain config_ab ["a"; "b"])
    as (nav & Hnav & Hsize & Hentry & Hhead & Hlast & Hwalk).
  - vm_compute. reflexivity.
  - by_decide.
  - by_decide.
  - by_decide.
  - intros k _.
    apply (titles_of_structure config_ab None
             (Some [{| item_id := Some "a"; item_title := Some "A";
                       item_path := Some "/a.html" |};
                    {| item_id := Some "b"; item_title := Some "B";
                       item_path := Some "/b.html" |}]) None None).
    reflexivity.
  - exists nav. split_and!; [done|done|done| | |].
    + intros k e Hk Hp. specialize (Hhead k e Hk Hp). by injection Hhead.
    + intros k e Hk Hn. specialize (Hlast k e Hk Hn). by injection Hlast.
    + by apply Hwalk.
Defined.

(** ** C2: all the missing required fields are reported at once *)

(** C2: for a configuration object in which two or more of the required
    fields [title], [description], [author] are missing or falsy, [validate]
    raises one error, and the message of that error contains the name of
    every required field that is missing or falsy. *)
Theorem validate_reports_all_missing (isValidUrl : string → bool)
    (config : value) (f1 f2 : string) :
  truthy config = true → typeof_object config = true →
  f1 ∈ requiredFields → f2 ∈ requiredFields → f1 ≠ f2 →
  missing_or_falsy config f1 → missing_or_falsy config f2 →
  ∃ e, validate isValidUrl config = inl e ∧
       ∀ field, field ∈ requiredFields → missing_or_falsy config field →
                Str.contains field (message e) = true.
Proof.
  intros Ht Ho Hf1 _ _ Hm1 _.
  destruct (validate_required isValidUrl config Ht Ho) as (missing & Hv & Hc).
  - by exists f1.
  - by exists (RequiredFieldsMissing missing).
Qed.

Lemma validate_reports_all_missing_witness :
  ∃ e, validate (λ _, true) config_author_only = inl e ∧
       ∀ field, field ∈ requiredFields →
                missing_or_falsy config_author_only field →
                Str.contains field (message e) = true.
Proof.
  apply (validate_reports_all_missing _ config_author_only
           "title" "description").
  - reflexivity.
  - reflexivity.
  - by_decide.
  - by_decide.
  - discriminate.
  - left. reflexivity.
  - left. reflexivity.
Defined.

(** ** C3: the two-chapter configuration, end to end *)

(** C3: the configuration with the two chapters [a] and [b] is valid; its
    default navigation order is [["a","b"]]: the default order of a
    structure is made of the page keys of the introduction, the chapters,
    the conclusion and the appendices, in this order, a page key being a
    path without its leading slash and its trailing [.html] and an item
    without a path contributing nothing.  The entry of [a] has no previous
    page, next page [{path: "/b.html", title: "B"}], index 0 and total 2; the
    entry of [b] has previous page [{path: "/a.html", title: "A"}], no next
    page, index 1 and total 2. *)
Theorem two_chapters_end_to_end (isValidUrl : string → bool) :
  validate isValidUrl config_ab = inr () ∧
  generateDefaultNavigationOrder config_ab = inr [VStr "a"; VStr "b"] ∧
  (∀ introduction chapters conclusion appendices others,
     generateDefaultNavigationOrder
       (VObj (("structure",
               structure_of introduction chapters conclusion appendices)
              :: others))
     = inr (VStr <$> (page_keys introduction ++ page_keys chapters ++
                      page_keys conclusion ++ page_keys appendices))) ∧
  ∃ nav,
    generateNavigationData config_ab = inr nav ∧
    nav !! "a" = Some {| previous := None;
                         next := Some {| path := "/b.html"; title := VStr "B" |};
                         index := 0; total := 2 |} ∧
    nav !! "b" = Some {| previous := Some {| path := "/a.html";
                                             title := VStr "A" |};
                         next := None; index := 1; total := 2 |}.
Proof.
  split; [reflexivity|]. split; [reflexivity|].
  split; [apply default_order_of_structure|].
  eexists. split; [vm_compute; reflexivity|].
  split; vm_compute; reflexivity.
Qed.

(** ** C7: version strings *)

(** C7: [isValidVersion] accepts exactly the strings of the grammar
    [MAJOR.MINOR.PATCH[-prerelease][+build]] whose numeric parts have no
    leading zero; it accepts ["1.0.0"], ["1.0.0-alpha"] and
    ["1.0.0+build.1"] and rejects ["1.0"] and ["v1.0.0"]. *)
Theorem isValidVersion_semver :
  (∀ version, isValidVersion version = true ↔ SemVer.version version) ∧
  isValidVersion "1.0.0" = true ∧
  isValidVersion "1.0" = false ∧
  isValidVersion "v1.0.0" = false ∧
  isValidVersion "1.0.0-alpha" = true ∧
  isValidVersion "1.0.0+build.1" = true.
Proof.
  split.
  - intros version. unfold isValidVersion.
    rewrite RegexFacts.test_lang. apply SemVerFacts.semver_lang.
  - repeat split; vm_compute; reflexivity.
Qed.

(** ** C9: the order of the validation steps *)

(** C9, as stated, fails: with a repository whose branch is a number and
    a navigation order with a duplicate, both steps have something to
    report and [validate] raises the navigation-order error. *)
Lemma validate_raises_navigation_error_first :
  validateRepository (λ _, true) config_two_violations
    = inl RepoBranchNotString ∧
  validateNavigation config_two_violations = inl NavOrderDuplicate ∧
  validate (λ _, true) config_two_violations = inl NavOrderDuplicate.
Proof. repeat split; vm_compute; reflexivity. Qed.

(** C9 (amended): [validate] checks the shape, the required fields, the
    scalar types and formats, the structure, the navigation order and then
    the repository; so for a configuration that violates both the
    repository rules and the navigation-order rules [validate] raises an
    error that is not the repository error, and that is the
    navigation-order error when the earlier steps pass. *)
Theorem validate_navigation_before_repository (isValidUrl : string → bool)
    (config : value) (e_nav e_repo : error) :
  validateNavigation config = inl e_nav →
  validateRepository isValidUrl config = inl e_repo →
  ∃ e, validate isValidUrl config = inl e ∧
       is_repository_error e = false ∧ e ≠ e_repo ∧
       (truthy config = true → typeof_object config = true →
        validateRequiredFields config = inr () →
        validateDataTypes config = inr () →
        validateStructure config = inr () →
        e = e_nav ∧ is_navigation_error e = true).
Proof.
  intros Hnav Hrepo.
  destruct (nullish config) eqn:Hnullish.
  { exists ConfigShapeError.
    assert (validate isValidUrl config = inl ConfigShapeError ∧
            e_repo = TypeError ∧ truthy config = false) as (Hv & -> & Hf).
    { destruct config; try done; by injection Hrepo as <-. }
    split_and!; [done|done|done|]. intros Ht. congruence. }
  pose proof (navigation_error _ _ Hnullish Hnav) as Hkind.
  pose proof (repository_error _ _ _ Hnullish Hrepo) as Hkind'.
  assert (Hgoal : ∃ e, validate isValidUrl config = inl e ∧
                       is_repository_error e = false ∧
    (truthy config = true → typeof_object config = true →
     validateRequiredFields config = inr () →
     validateDataTypes config = inr () →
     validateStructure config = inr () →
     e = e_nav ∧ is_navigation_error e = true)).
  { unfold validate.
    destruct (negb (truthy config) || negb (typeof_object config)) eqn:Hshape.
    { exists ConfigShapeError. split_and!; [done|done|].
      intros Ht Ho. by rewrite Ht, Ho in Hshape. }
    destruct (validateRequiredFields config) as [e|[]] eqn:H1; simpl.
    { exists e. split_and!; [done|by eapply required_not_repository|].
      intros; discriminate. }
    destruct (validateDataTypes config) as [e|[]] eqn:H2; simpl.
    { exists e. split_and!; [done|by eapply datatypes_not_repository|].
      intros; discriminate. }
    destruct (validateStructure config) as [e|[]] eqn:H3; simpl.
    { exists e. split_and!; [done|by eapply structure_not_repository|].
      intros; discriminate. }
    rewrite Hnav. simpl. exists e_nav.
    split_and!; [done|by apply navigation_not_repository|done]. }
  destruct Hgoal as (e & Hv & Hnr & Hsteps).
  exists e. split_and!; [done|done| |done].
  intros ->. congruence.
Qed.

Lemma validate_navigation_before_repository_witness :
  ∃ e, validate (λ _, true) config_two_violations = inl e ∧
       is_repository_error e = false ∧ e ≠ RepoBranchNotString ∧
       (truthy config_two_violations = true →
        typeof_object config_two_violations = true →
        validateRequiredFields config_two_violations = inr () →
        validateDataTypes config_two_violations = inr () →
        validateStructure config_two_violations = inr () →
        e = NavOrderDuplicate ∧ is_navigation_error e = true).
Proof.
  apply (validate_navigation_before_repository _ config_two_violations).
  - vm_compute. reflexivity.
  - vm_compute. reflexivity.
Defined.

(** ** C4: conditional blocks with an [else] branch *)

(** C4 at two inputs: with a falsy condition the block with an [else]
    branch renders as the empty string, not as the [else] branch; with a
    truthy condition it renders both branches. *)
Theorem if_else_renders_neither_or_both :
  renderTemplate "{{#if flag}}A{{else}}B{{/if}}" (VObj [("flag", VBool false)])
    = inr "" ∧
  renderTemplate "{{#if flag}}A{{else}}B{{/if}}" (VObj [("flag", VBool true)])
    = inr "AB".
Proof. split; vm_compute; reflexivity. Qed.

(** ** C5: iteration blocks *)

(** C5, as stated, fails: the text that replaces [{{this}}] is scanned
    again by the pass that replaces the variables, so that an element
    that holds a directive is not rendered as its value; and an element
    that cannot be converted to a string is not rendered at all. *)
Lemma each_element_is_scanned_again :
  renderTemplate "{{#each items}}{{@index}}:{{this}};{{/each}}"
    (VObj [("items", VArr [VStr "{{title}}"; VStr "b"]);
           ("title", VStr "T")])
  = inr "1:T;2:b;" ∧
  renderTemplate "{{#each items}}{{this}}{{/each}}"
    (VObj [("items", VArr [VObj [("toString", VNum 1)]])])
  = inl TypeError.
Proof. split; vm_compute; reflexivity. Qed.

(** C5 (amended): an iteration block whose body is made of text and of the
    directives [{{@index}}], [{{this}}] and [{{<subpath>}}], the paths
    reading own properties only, is replaced by the iteration pass, when
    its path leads to an array, by the concatenation in array order of the
    body in which [{{@index}}] is the position of the element plus one,
    [{{this}}] the element converted to a string and [{{<subpath>}}] the
    value at that path of the element converted to a string, the empty
    string for a falsy value; a value that cannot be converted raises a
    [TypeError].  This text is what [renderTemplate] returns for the block
    when it has no opening brace left for the pass that follows.  When the
    path does not lead to an array the block is replaced by the empty
    string.  The block [{{#each items}}{{@index}}:{{this}}\n{{/each}}]
    renders, for the items [x] and [y], as [1:x\n2:y\n]. *)
Theorem each_block_renders_elements (data : value) (path : string)
    (body : list token) (post : string) :
  plain_path path → Str.ws_len path = 0 → Forall wf_token body →
  own_path data (Str.trim path) = true →
  let block :=
    "{{#each " +:+ path +:+ "}}" +:+ body_text body +:+ "{{/each}}" in
  (∀ array, resolve data (Str.trim path) = VArr array →
     own_body body array = true →
     eachPass data (block +:+ post)
       = cat (each_value body array) (eachPass data post) ∧
     ((∀ text, each_value body array = inr text → plain text) →
      renderTemplate block data = each_value body array)) ∧
  (isArray (resolve data (Str.trim path)) = false →
     eachPass data (block +:+ post) = eachPass data post ∧
     renderTemplate block data = inr "") ∧
  renderTemplate ("{{#each items}}{{@index}}:{{this}}" +:+ nl +:+ "{{/each}}")
    data_items = inr ("1:x" +:+ nl +:+ "2:y" +:+ nl).
Proof.
  intros Hpath Hstart Hbody _ block. split_and!.
  - intros array Harray _. split.
    + unfold block. rewrite eachPass_block by done. by rewrite Harray.
    + intros Hplain. apply renderTemplate_block; try done.
      by rewrite Harray.
  - intros Hnot. split.
    + unfold block. rewrite eachPass_block by done.
      destruct (resolve data (Str.trim path)); try done; apply cat_nil_l.
    + apply renderTemplate_block; try done.
      * by destruct (resolve data (Str.trim path)).
      * by intros text [= <-].
  - vm_compute. reflexivity.
Qed.

Lemma each_block_renders_elements_witness :
  eachPass
    (VObj [("chapters", VArr [VObj [("id", VStr "a"); ("pages", VNum 12)];
                              VObj [("id", VStr "b"); ("pages", VNum 0)]])])
    "{{#each chapters}}{{@index}}. {{id}} ({{pages}});{{/each}}"
  = inr "1. a (12);2. b ();".
Proof.
  destruct (each_block_renders_elements
              (VObj [("chapters",
                      VArr [VObj [("id", VStr "a"); ("pages", VNum 12)];
                            VObj [("id", VStr "b"); ("pages", VNum 0)]])])
              "chapters"
              [Index; Text ". "; Sub "id"; Text " ("; Sub "pages"; Text ");"]
              "") as [Harray _].
  - split; [discriminate|reflexivity].
  - reflexivity.
  - repeat constructor; try discriminate.
  - reflexivity.
  - destruct (Harray [VObj [("id", VStr "a"); ("pages", VNum 12)];
                      VObj [("id", VStr "b"); ("pages", VNum 0)]]
                eq_refl eq_refl) as [Heach _].
    exact Heach.
Defined.

(** ** C6: when [render] raises *)




(** ** C8: what [render] reads and writes *)

(** C8, as stated, fails: the same registry, template name and data
    object give two different texts on two different days; and the call
    writes [owner] and [name] into the caller's [data.repository]. *)
Lemma render_reads_the_clock :
  render "2024-01-01" {["t" := "{{currentDate}}"]} "t" (VObj [])
    = inr ("2024-01-01", VObj []) ∧
  render "2024-01-02" {["t" := "{{currentDate}}"]} "t" (VObj [])
    = inr ("2024-01-02", VObj []) ∧
  render "2024-01-01" {["t" := "{{title}}"]} "t" data_repository
    = inr ("T",
           VObj [("title", VStr "T");
                 ("repository",
                  VObj [("url", VStr "https://github.com/o/r.git");
                        ("owner", VStr "o"); ("name", VStr "r")])]).
Proof. repeat split; vm_compute; reflexivity. Qed.

(** C8 (amended): [render] reads the current date and nothing else around
    it; it never changes a top-level property of the caller's data object
    other than [repository]; and two calls on the same day with the same
    registry, template name and data object, the second one finding the
    object as the first one left it, return the same text. *)
Theorem render_frame_and_repeat (today : string)
    (templates : gmap string string) (templateName : string)
    (props : list (string * value)) (out : string) (data' : value) :
  render today templates templateName (VObj props) = inr (out, data') →
  (∀ k, k ≠ "repository" → get data' k = get (VObj props) k) ∧
  render today templates templateName data' = inr (out, data').
Proof.
  unfold render. destruct (templates !! templateName) as [template|]; [|done].
  destruct (Str.is_empty template); [done|].
  intros ([processed d] & Hpre & (text & Htext & [= <- <-])%bind_inr)%bind_inr.
  split.
  - intros k Hk. by apply (preprocessData_frame today props processed).
  - rewrite (preprocessData_again _ _ _ _ Hpre). cbn [bind].
    by rewrite Htext.
Qed.

Lemma render_frame_and_repeat_witness :
  ∃ data',
    render "2024-01-01" {["t" := "{{title}}"]} "t" data_repository
      = inr ("T", data') ∧
    get data' "title" = VStr "T" ∧
    render "2024-01-01" {["t" := "{{title}}"]} "t" data' = inr ("T", data').
Proof.
  eexists. split; [vm_compute; reflexivity|].
  destruct (render_frame_and_repeat "2024-01-01" {["t" := "{{title}}"]} "t"
              [("title", VStr "T");
               ("repository",
                VObj [("url", VStr "https://github.com/o/r.git")])]
              "T"
              (VObj [("title", VStr "T");
                     ("repository",
                      VObj [("url", VStr "https://github.com/o/r.git");
                            ("owner", VStr "o"); ("name", VStr "r")])]))
    as [Hframe Hagain].
  - vm_compute. reflexivity.
  - split; [|exact Hagain]. reflexivity.
Defined.

(** ** C10: defined but falsy values *)

(** C10: a variable directive whose path leads to a falsy value ([false],
    [0], the empty string) is replaced by the empty string, so that the
    text rendered is the one rendered when the path leads nowhere; and so is
    an element property inside the body of an iteration block. *)
Theorem falsy_value_renders_empty (pre key post : string) :
  plain pre → plain post → plain_path key →
  (∀ data, truthy (getValueByPath data (Str.trim key)) = false →
           renderTemplate (pre +:+ "{{" +:+ key +:+ "}}" +:+ post) data
           = inr (pre +:+ post)) ∧
  (∀ data absent,
     defined_falsy (getValueByPath data (Str.trim key)) →
     getValueByPath absent (Str.trim key) = VUndef →
     renderTemplate (pre +:+ "{{" +:+ key +:+ "}}" +:+ post) data
     = renderTemplate (pre +:+ "{{" +:+ key +:+ "}}" +:+ post) absent) ∧
  (∀ item index,
     Str.trim key ≠ "this" →
     truthy (getValueByPath item (Str.trim key)) = false →
     renderItem (pre +:+ "{{" +:+ key +:+ "}}" +:+ post) item index
     = inr (pre +:+ post)).
Proof.
  intros Hpre Hpost Hkey.
  assert (Hrender : ∀ data,
    truthy (getValueByPath data (Str.trim key)) = false →
    renderTemplate (pre +:+ "{{" +:+ key +:+ "}}" +:+ post) data
    = inr (pre +:+ post)).
  { intros data Hfalsy. rewrite renderTemplate_lone by done.
    unfold text_or_empty, or_else. by rewrite Hfalsy. }
  split_and!.
  - exact Hrender.
  - intros data absent [_ Hfalsy] Habsent.
    rewrite (Hrender data Hfalsy), (Hrender absent); [done|].
    by rewrite Habsent.
  - intros item index Hthis Hfalsy.
    replace (pre +:+ "{{" +:+ key +:+ "}}" +:+ post)
      with (body_text [Text pre; Sub key; Text post]).
    + rewrite renderItem_tokens.
      * simpl. rewrite <- getValueByPath_resolve. unfold shown.
        rewrite Hfalsy. simpl. by rewrite append_nil_r.
      * constructor; [exact Hpre|]. constructor; [by split|].
        constructor; [exact Hpost|]. constructor.
    + unfold body_text. simpl. by rewrite append_nil_r, !append_assoc.
Qed.

Lemma falsy_value_renders_empty_witness :
  renderTemplate "a{{n}}b" (VObj [("n", VNum 0)]) = inr "ab" ∧
  renderItem "a{{n}}b" (VObj [("n", VStr "")]) 0 = inr "ab".
Proof.
  destruct (falsy_value_renders_empty "a" "n" "b") as (Hdata & _ & Hitem).
  - reflexivity.
  - reflexivity.
  - split; [discriminate|reflexivity].
  - split.
    + apply (Hdata (VObj [("n", VNum 0)])). reflexivity.
    + apply (Hitem (VObj [("n", VStr "")]) 0); [|reflexivity].
      vm_compute. discriminate.
Defined.

End Claims.

(** * Further properties of the code *)

Ltac decide_closed :=
  match goal with
  | |- ?P => apply (bool_decide_unpack P); vm_compute; exact I
  end.

(** ** Validation *)

Module ValidatorExtraFacts.
Import JS ConfigValidator ValidatorSpec ValidatorContract ValidatorFacts.

Lemma throw_if_inr c e : throw_if c e = inr () ↔ c = false.
Proof. destruct c; simpl; split; done. Qed.

Lemma plus_class_test p s :
  Regex.test (Regex.Plus (Regex.Class p)) s =
  negb (Str.is_empty s) && Str.all p s.
Proof.
  apply eq_true_iff_eq. rewrite RegexFacts.test_lang, SemVerFacts.plus_class.
  rewrite andb_true_iff, negb_true_iff. destruct s; simpl; intuition congruence.
Qed.

Lemma bind_throw_if c e (k : result unit) :
  bind (throw_if c e) (λ _, k) = inr () ↔ c = false ∧ k = inr ().
Proof. destruct c; simpl; intuition congruence. Qed.

Lemma validateItem_valid k item index :
  validateItem k item index = inr () ↔ valid_item item = true.
Proof.
  unfold validateItem, valid_item, get_prop.
  destruct (nullish item) eqn:Hn.
  { destruct item; try done; simpl; split; discriminate. }
  assert (match item with VUndef | VNull => throw TypeError
          | _ => ok (get item "id") end = ok (get item "id")) as ->
    by (by destruct item).
  cbn [bind ok].
  generalize (get item "id") (get item "title"). intros id t.
  rewrite !bind_throw_if, throw_if_inr. unfold test_value, idRegex.
  rewrite plus_class_test, !negb_false_iff.
  destruct id as [| |b|n|s|l|o]; try (simpl; intuition congruence).
  simpl. destruct t; simpl; rewrite ?andb_true_iff; try intuition congruence.
Qed.

Lemma validateItem_error k item index e :
  validateItem k item index = inl e →
  if nullish item then e = TypeError
  else ∃ p, e = StructureItemError k index p.
Proof.
  unfold validateItem, get_prop.
  destruct (nullish item) eqn:Hn.
  { destruct item; try done; by intros [= <-]. }
  assert (match item with VUndef | VNull => throw TypeError
          | _ => ok (get item "id") end = ok (get item "id")) as ->
    by (by destruct item).
  cbn [bind ok].
  repeat (intros [H|([] & _ & H)]%bind_inl;
          [apply throw_if_inl in H as [_ ->]; eauto|revert H]).
  intros [_ ->]%throw_if_inl; eauto.
Qed.

Lemma for_entries_skip k good : ∀ index rest,
  Forall (λ it, valid_item it = true) good →
  for_entries (validateItem k) index (good ++ rest) =
  for_entries (validateItem k) (index + length good) rest.
Proof.
  induction good as [|it good IH]; intros index rest Hgood; simpl.
  - by rewrite Nat.add_0_r.
  - apply Forall_cons in Hgood as [Hit Hgood].
    apply (validateItem_valid k it (index + 1)) in Hit. rewrite Hit. simpl.
    rewrite IH by done. f_equal. lia.
Qed.

Lemma for_entries_valid k items : ∀ index,
  for_entries (validateItem k) index items = inr () ↔
  Forall (λ it, valid_item it = true) items.
Proof.
  induction items as [|it items IH]; intros index; simpl.
  - split; [constructor|done].
  - rewrite Forall_cons, <- (IH (S index)), <- (validateItem_valid k it (index + 1)).
    destruct (validateItem k it (index + 1)) as [e|[]]; simpl; [|tauto].
    split; [done|]. by intros [? _].
Qed.

Lemma length_zero_ltb {A} (l : list A) : (0 <? length l) = false ↔ l = [].
Proof. destruct l; simpl; split; done. Qed.

Lemma existsb_same_string k keys :
  existsb (same_value_zero (VStr k)) (VStr <$> keys) = true ↔ k ∈ keys.
Proof.
  induction keys as [|k' keys IH]; simpl.
  - split; [done|by intros ?%elem_of_nil].
  - rewrite orb_true_iff, IH, elem_of_cons, String.eqb_eq. tauto.
Qed.

Lemma set_size_nodup keys :
  NoDup keys → set_size (VStr <$> keys) = length (VStr <$> keys).
Proof.
  induction 1 as [|k keys Hk _ IH]; [done|].
  rewrite fmap_cons. simpl.
  destruct (existsb _ _) eqn:Hex; [by apply existsb_same_string in Hex|].
  by rewrite IH.
Qed.

Lemma entries_filter_strings keys :
  filter (λ p, negb (truthy p) || negb (is_string p) = true) (VStr <$> keys)
  = [] ↔ Forall (λ k, k ≠ "") keys.
Proof.
  induction keys as [|k keys IH]; [split; [constructor|done]|].
  rewrite fmap_cons, filter_cons, Forall_cons, <- IH.
  case_decide as Hd; destruct k; simpl in Hd; try done; intuition congruence.
Qed.

Lemma format_filter_strings keys :
  filter (λ p, negb (test_value navPathRegex p) = true) (VStr <$> keys) = []
  ↔ Forall (λ k, k ≠ "" ∧ Str.all Chars.nav_char k = true) keys.
Proof.
  induction keys as [|k keys IH]; [split; [constructor|done]|].
  rewrite fmap_cons, filter_cons, Forall_cons, <- IH.
  unfold test_value, navPathRegex. simpl to_string.
  rewrite plus_class_test.
  case_decide as Hd; rewrite negb_true_iff, andb_false_iff, negb_false_iff in Hd;
    destruct (Str.all Chars.nav_char k); destruct k as [|c k]; simpl in Hd;
    try done; intuition congruence.
Qed.

Lemma validateNavigation_valid config :
  validateNavigation config = inr () ↔
  nullish config = false ∧
  (truthy (get config "navigation") = false ∨
   truthy (get (get config "navigation") "order") = false ∨
   valid_order (get (get config "navigation") "order")).
Proof.
  destruct (nullish config) eqn:Hn.
  { split; [by destruct config|by intros [? _]]. }
  unfold validateNavigation, valid_order. rewrite get_prop_ok by done.
  cbn [bind].
  destruct (truthy (get config "navigation")) eqn:Hnav; simpl;
    [|split; [by split; [|left]|done]].
  destruct (truthy (get (get config "navigation") "order")) eqn:Horder;
    [|split; [by split; [|right; left]|done]].
  destruct (get (get config "navigation") "order") as [| |b|n|s|paths|o];
    try (split; [done|by intros [_ [?|[?|(keys & ? & _)]]]]).
  rewrite !bind_throw_if, throw_if_inr, !length_zero_ltb, negb_false_iff,
    Nat.eqb_eq.
  split.
  - intros (Hsize & (keys & -> & _)%NavigationFacts.strings_of_valid & Hformat).
    split; [done|].
    right; right. exists keys. split; [done|]. split.
    + by apply NavigationFacts.set_size_distinct.
    + by apply format_filter_strings.
  - intros [_ [?|[?|(keys & [= ->] & Hnd & Hkeys)]]]; [done..|].
    split; [by apply set_size_nodup|]. split.
    + apply entries_filter_strings. eapply Forall_impl; [exact Hkeys|].
      by intros k [? _].
    + by apply format_filter_strings.
Qed.

Lemma required_ok config :
  validateRequiredFields config = inr () →
  ∀ f, f ∈ requiredFields → truthy (get config f) = true.
Proof.
  unfold validateRequiredFields. destruct (is_object config); [|done].
  simpl negb. cbv iota. rewrite throw_if_inr, length_zero_ltb.
  unfold requiredFields. rewrite !filter_cons, filter_nil.
  repeat case_decide; try done. intros _ f.
  rewrite !elem_of_cons, elem_of_nil.
  intros [->|[->|[->|[]]]];
    match goal with
    | H : ¬ (_ || negb (truthy (get config ?f)) = true) |- truthy (get config ?f) = true =>
        destruct (truthy (get config f)); [done|];
        exfalso; apply H; by rewrite orb_true_r
    end.
Qed.

Lemma truthy_string v :
  truthy v = true → is_string v = true → ∃ s, v = VStr s ∧ s ≠ "".
Proof. destruct v as [| |b|n|s|l|o]; try done. destruct s; [done|]. eauto. Qed.

Lemma datatypes_ok config :
  validateDataTypes config = inr () →
  (∀ f, f ∈ ["title"; "description"; "author"; "version"; "language"] →
        truthy (get config f) = true → is_string (get config f) = true) ∧
  (truthy (get config "title") = true →
   length_gt (get config "title") 100 = false) ∧
  (truthy (get config "description") = true →
   length_gt (get config "description") 500 = false) ∧
  (truthy (get config "version") = true →
   isValidVersion (to_string (get config "version")) = true).
Proof.
  destruct (nullish config) eqn:Hn; [by destruct config|].
  unfold validateDataTypes.
  intros ([] & Hfields & Hrest)%bind_inr.
  cbn [for_each] in Hfields.
  rewrite !get_prop_ok in Hfields by done. cbn [bind] in Hfields.
  rewrite !bind_throw_if in Hfields.
  rewrite !bind_throw_if, throw_if_inr in Hrest.
  destruct Hfields as (H1 & H2 & H3 & H4 & H5 & _).
  destruct Hrest as (H6 & H7 & H8).
  split_and!.
  - intros f. rewrite !elem_of_cons, elem_of_nil.
    intros [->|[->|[->|[->|[->|[]]]]]] Ht; rewrite Ht in *;
      simpl in *; by apply negb_false_iff.
  - intros Ht. by rewrite Ht in H6.
  - intros Ht. by rewrite Ht in H7.
  - intros Ht. rewrite Ht in H8. by apply negb_false_iff in H8.
Qed.

Lemma length_gt_string s n :
  length_gt (VStr s) n = false → Str.js_length s ≤ n.
Proof. unfold length_gt. simpl. intros H%Z.ltb_ge. lia. Qed.

Lemma validateSection_ok k structure :
  validateSection k structure = inr () →
  truthy (get structure (section_name k)) = true →
  ∃ items, get structure (section_name k) = VArr items ∧
           Forall (λ it, valid_item it = true) items.
Proof.
  unfold validateSection. intros H Ht. rewrite Ht in H.
  destruct (get structure (section_name k)) as [| |b|n|s|items|o]; try done.
  exists items. split; [done|]. by apply for_entries_valid in H.
Qed.

Lemma validateRepository_ok isValidUrl config :
  validateRepository isValidUrl config = inr () →
  truthy (get config "repository") = true →
  (truthy (get (get config "repository") "url") = true →
   ∃ u, get (get config "repository") "url" = VStr u ∧ isValidUrl u = true) ∧
  (truthy (get (get config "repository") "branch") = true →
   is_string (get (get config "repository") "branch") = true).
Proof.
  unfold validateRepository. intros H Ht.
  rewrite get_prop_ok in H by (by destruct config).
  cbn [bind] in H. rewrite Ht in H. simpl in H.
  rewrite !bind_throw_if, throw_if_inr in H. destruct H as (H1 & H2 & H3).
  split.
  - intros Hu. rewrite Hu in H1, H2. simpl in H1, H2.
    apply negb_false_iff in H1, H2.
    destruct (truthy_string _ Hu H1) as (u & Hv & _). rewrite Hv in *. eauto.
  - intros Hb. rewrite Hb in H3. by apply negb_false_iff in H3.
Qed.

(** On an object, [!(field in config) || !config[field]] is
    [!config[field]]. *)
Lemma missing_is_falsy props field :
  negb (has_prop field (VObj props)) || negb (truthy (get (VObj props) field))
  = negb (truthy (get (VObj props) field)).
Proof.
  simpl. by destruct (assoc field props) as [v|].
Qed.

Lemma required_ext props1 props2 :
  (∀ f, f ∈ checked_fields → get (VObj props1) f = get (VObj props2) f) →
  validateRequiredFields (VObj props1) = validateRequiredFields (VObj props2).
Proof.
  intros H. unfold validateRequiredFields, requiredFields.
  cbn [is_object negb].
  rewrite !filter_cons, !filter_nil, !missing_is_falsy.
  rewrite !H by (apply (bool_decide_unpack _); vm_compute; exact I). done.
Qed.

End ValidatorExtraFacts.

Module ValidatorExtras.
Import JS ConfigValidator ValidatorSpec ValidatorContract.
Import ValidatorFacts ValidatorExtraFacts.

(** X1: [validateChapter] and [validateAppendix] accept exactly the items
    whose [id] is a non-empty string of lower-case letters, digits and
    hyphens and whose [title] is a non-empty string, whatever the index;
    a rejected item raises a [TypeError] when it is [null] or
    [undefined], and otherwise an error that carries the index the
    function was given. *)
Theorem validateChapter_accepts_valid_items item index :
  (validateChapter item index = inr () ↔ valid_item item = true) ∧
  (validateAppendix item index = inr () ↔ valid_item item = true) ∧
  (∀ k e, validateItem k item index = inl e →
          if nullish item then e = TypeError
          else ∃ p, e = StructureItemError k index p).
Proof.
  split_and!.
  - apply validateItem_valid.
  - apply validateItem_valid.
  - intros k e. apply validateItem_error.
Qed.

(** X2: when the items before an invalid item of [structure.chapters]
    (or [structure.appendices]) are all valid, the section is rejected
    with the error of that item, numbered from one: a [TypeError] for a
    [null] or [undefined] item, otherwise an error carrying the position
    [length good + 1]. *)
Theorem validateSection_reports_first_invalid k structure good bad rest :
  get structure (section_name k) = VArr (good ++ bad :: rest) →
  Forall (λ it, valid_item it = true) good →
  valid_item bad = false →
  ∃ e, validateSection k structure = inl e ∧
       if nullish bad then e = TypeError
       else ∃ p, e = StructureItemError k (S (length good)) p.
Proof.
  intros Hsec Hgood Hbad. unfold validateSection. rewrite Hsec. simpl truthy.
  cbv iota. rewrite for_entries_skip by done. simpl for_entries.
  replace (length good + 1) with (S (length good)) by lia.
  destruct (validateItem k bad (S (length good))) as [e|[]] eqn:Hitem.
  - exists e. split; [done|]. by apply validateItem_error in Hitem.
  - apply validateItem_valid in Hitem. congruence.
Qed.

Lemma validateSection_reports_first_invalid_witness :
  ∃ e, validateSection Chapter
         (VObj [("chapters", VArr [
            Samples.item [("id", "a"); ("title", "A")];
            Samples.item [("id", "B"); ("title", "B")];
            VNull])]) = inl e ∧
       ∃ p, e = StructureItemError Chapter 2 p.
Proof.
  apply (validateSection_reports_first_invalid Chapter _
           [Samples.item [("id", "a"); ("title", "A")]]
           (Samples.item [("id", "B"); ("title", "B")]) [VNull]).
  - reflexivity.
  - repeat constructor.
  - reflexivity.
Defined.

(** X3: on [null] and [undefined] [validateNavigation] raises a
    [TypeError] (it reads [config.navigation]); it accepts any other
    configuration exactly when [navigation] is falsy, or
    [navigation.order] is falsy, or [navigation.order] is an array of
    pairwise distinct non-empty strings over letters, digits, [-], [_]
    and [/]. *)
Theorem validateNavigation_accepts_exactly config :
  (validateNavigation config = inl TypeError ↔ nullish config = true) ∧
  (validateNavigation config = inr () ↔
   nullish config = false ∧
   (truthy (get config "navigation") = false ∨
    truthy (get (get config "navigation") "order") = false ∨
    valid_order (get (get config "navigation") "order"))).
Proof.
  split; [|apply validateNavigation_valid].
  destruct (nullish config) eqn:Hn.
  - split; [done|]. by destruct config.
  - split; [|done]. by intros ?%navigation_error.
Qed.

(** X4: what [validate] guarantees of a configuration it accepts: title,
    description and author are non-empty strings, the title of at most
    100 and the description of at most 500 UTF-16 code units; a truthy
    version is a string of the semantic-versioning grammar and a truthy
    language a string; a truthy section of a truthy structure is an array
    of valid items; a truthy order of a truthy navigation is valid; and
    a truthy url of a truthy repository is a string the URL parser
    accepts. *)
Theorem validate_postcondition isValidUrl config :
  validate isValidUrl config = inr () →
  bounded_text (get config "title") 100 ∧
  bounded_text (get config "description") 500 ∧
  (∃ author, get config "author" = VStr author ∧ author ≠ "") ∧
  (truthy (get config "version") = true →
   ∃ v, get config "version" = VStr v ∧ SemVer.version v) ∧
  (truthy (get config "language") = true →
   is_string (get config "language") = true) ∧
  (∀ k, truthy (get config "structure") = true →
        truthy (get (get config "structure") (section_name k)) = true →
        ∃ items, get (get config "structure") (section_name k) = VArr items ∧
                 Forall (λ it, valid_item it = true) items) ∧
  (truthy (get config "navigation") = true →
   truthy (get (get config "navigation") "order") = true →
   valid_order (get (get config "navigation") "order")) ∧
  (truthy (get config "repository") = true →
   truthy (get (get config "repository") "url") = true →
   ∃ u, get (get config "repository") "url" = VStr u ∧ isValidUrl u = true).
Proof.
  unfold validate. destruct (negb _ || negb _) eqn:Hshape; [done|].
  assert (Hobject : nullish config = false) by (by destruct config).
  intros ([] & Hreq & ([] & Htypes & ([] & Hstruct & ([] & Hnav & Hrepo
          )%bind_inr)%bind_inr)%bind_inr)%bind_inr.
  pose proof (required_ok _ Hreq) as Hreq'.
  destruct (datatypes_ok _ Htypes) as (Hstr & Htitle & Hdesc & Hver).
  assert (Hfield : ∀ f, f ∈ requiredFields →
            ∃ s, get config f = VStr s ∧ s ≠ "").
  { intros f Hf. apply truthy_string; [by apply Hreq'|].
    apply Hstr; [|by apply Hreq'].
    revert Hf. unfold requiredFields. rewrite !elem_of_cons, !elem_of_nil.
    tauto. }
  destruct (Hfield "title") as (title & Ht & Htne);
    [decide_closed|].
  destruct (Hfield "description") as (desc & Hd & Hdne);
    [decide_closed|].
  split_and!.
  - exists title. split_and!; [done..|].
    apply length_gt_string. rewrite <- Ht. apply Htitle.
    apply Hreq'. decide_closed.
  - exists desc. split_and!; [done..|].
    apply length_gt_string. rewrite <- Hd. apply Hdesc.
    apply Hreq'. decide_closed.
  - apply Hfield. decide_closed.
  - intros Hv. destruct (truthy_string (get config "version")) as (v & Hv' & _);
      [done|apply Hstr; [decide_closed|done]|].
    exists v. split; [done|].
    specialize (Hver Hv). rewrite Hv' in Hver. simpl in Hver.
    unfold isValidVersion in Hver.
    by apply RegexFacts.test_lang, SemVerFacts.semver_lang in Hver.
  - apply Hstr. decide_closed.
  - intros k Hs Hsec. unfold validateStructure in Hstruct.
    rewrite get_prop_ok in Hstruct by done. cbn [bind] in Hstruct.
    rewrite Hs in Hstruct. simpl in Hstruct.
    apply bind_inr in Hstruct as ([] & Hc & Ha).
    destruct k; by apply validateSection_ok.
  - intros Hn Ho. apply validateNavigation_valid in Hnav as [_ [?|[?|?]]];
      congruence.
  - intros Hr Hu. by apply (validateRepository_ok isValidUrl config).
Qed.

Lemma validate_postcondition_witness :
  bounded_text (get Samples.config_ab "title") 100.
Proof.
  apply (validate_postcondition (λ _, true) Samples.config_ab).
  reflexivity.
Defined.

(** X5: an array passes the shape test of [validate] ([typeof] gives
    ['object']) and is then rejected for its required fields: all three
    are reported missing, whatever the array holds. *)
Theorem validate_rejects_arrays isValidUrl items :
  validate isValidUrl (VArr items) =
  inl (RequiredFieldsMissing ["title"; "description"; "author"]).
Proof.
  unfold validate. simpl. unfold validateRequiredFields, requiredFields.
  rewrite !filter_cons, filter_nil. simpl.
  rewrite !TemplateFacts.index_of_key_not_numeral by reflexivity.
  reflexivity.
Qed.

(** X7: [validate] reads eight fields of a configuration object and
    nothing else: two objects that agree on [title], [description],
    [author], [version], [language], [structure], [navigation] and
    [repository] are accepted or rejected alike, with the same error. *)
Theorem validate_reads_checked_fields isValidUrl props1 props2 :
  (∀ f, f ∈ checked_fields → get (VObj props1) f = get (VObj props2) f) →
  validate isValidUrl (VObj props1) = validate isValidUrl (VObj props2).
Proof.
  intros H. unfold validate. simpl negb. cbv iota. simpl orb. cbv iota.
  rewrite (required_ext props1 props2 H).
  unfold validateDataTypes, validateStructure, validateNavigation,
    validateRepository.
  cbn [for_each get_prop bind ok].
  rewrite !(H "title"), !(H "description"), !(H "author"), !(H "version"),
    !(H "language"), !(H "structure"), !(H "navigation"), !(H "repository")
    by (apply (bool_decide_unpack _); vm_compute; exact I).
  reflexivity.
Qed.

Lemma validate_reads_checked_fields_witness :
  validate (λ _, true)
    (VObj [("title", VStr "T"); ("description", VStr "D");
           ("theme", VNum 0)]) =
  validate (λ _, true)
    (VObj [("output", VNull); ("description", VStr "D");
           ("title", VStr "T")]).
Proof.
  apply (validate_reads_checked_fields (λ _, true)).
  intros f Hf.
  unfold checked_fields in Hf.
  rewrite !elem_of_cons, elem_of_nil in Hf.
  destruct Hf as [->|[->|[->|[->|[->|[->|[->|[->|[]]]]]]]]]; reflexivity.
Defined.

End ValidatorExtras.

(** ** Navigation *)

Module NavigationExtraFacts.
Import JS Navigation NavigationSpec NavigationContract.
Import ValidatorFacts NavigationFacts.

Lemma list_find_unfold {A} (P : A → Prop) `{∀ x, Decision (P x)} x l :
  list_find P (x :: l)
  = if decide (P x) then Some (0, x) else prod_map S id <$> list_find P l.
Proof. reflexivity. Qed.

(** *** Titles in any structure *)

Lemma find_title_readable items key :
  Forall readable_item items →
  find_title items (VStr key)
  = inr (match list_find (λ item, item_key item = Some key) items with
         | Some (_, item) =>
             Some (if truthy (get item "title") then get item "title"
                   else VStr key)
         | None => None
         end).
Proof.
  induction 1 as [|item items [Hitem Hpath] _ IH]; [done|].
  rewrite find_title_cons, (get_prop_ok _ _ Hitem). cbn [bind].
  rewrite list_find_unfold, IH.
  assert (Hrest :
    inr match list_find (λ item, item_key item = Some key) items with
        | Some (_, it) =>
            Some (if truthy (get it "title") then get it "title"
                  else VStr key)
        | None => None
        end
    = (inr match prod_map S id <$>
                 list_find (λ item, item_key item = Some key) items with
           | Some (_, it) =>
               Some (if truthy (get it "title") then get it "title"
                     else VStr key)
           | None => None
           end : result (option value))).
  { by destruct (list_find _ items) as [[i it']|]. }
  destruct (truthy (get item "path")) eqn:Htruthy.
  - destruct Hpath as [?|Hstring]; [congruence|].
    destruct (get item "path") as [| |b|n|p|l|o] eqn:Hp; try done.
    destruct p as [|c p]; [done|].
    assert (Hkey : item_key item = Some (cleanPath (String c p)))
      by (unfold item_key; by rewrite Hp).
    cbn [clean_of bind ok]. unfold strict_eq_str. rewrite Hkey.
    destruct (String.eqb_spec key (cleanPath (String c p))) as [->|Hne].
    + rewrite decide_True by done. reflexivity.
    + rewrite decide_False by congruence. exact Hrest.
  - rewrite decide_False; [exact Hrest|]. unfold item_key.
    destruct (get item "path") as [| |b|n|p|l|o]; try done.
    by destruct p.
Qed.

Lemma falsy_get v k :
  truthy v = false → k ∈ section_names → get v k = VUndef.
Proof.
  intros Hv Hk. destruct v as [| |b|n|s|l|o]; try done.
  destruct s; [|done]. unfold section_names in Hk.
  rewrite !elem_of_cons, elem_of_nil in Hk.
  by destruct Hk as [->|[->|[->|[->|[]]]]].
Qed.

Lemma spread_readable section :
  readable_section section →
  spread_or_empty section = inr (section_items section) ∧
  Forall readable_item (section_items section).
Proof.
  unfold spread_or_empty.
  intros [Hfalsy|(items & -> & Hitems)]; [|done].
  rewrite Hfalsy. by destruct section.
Qed.

Lemma getPageTitle_readable config key :
  nullish config = false →
  (∀ name, name ∈ section_names →
           readable_section (get (get config "structure") name)) →
  getPageTitle config (VStr key)
  = inr (title_in (structure_items (get config "structure")) key).
Proof.
  intros Hconfig Hsections. unfold getPageTitle.
  rewrite get_prop_ok by done. cbn [bind].
  assert (Hname : ∀ name, name ∈ section_names →
            get (or_else (get config "structure") (VObj [])) name
            = get (get config "structure") name).
  { intros name Hin. unfold or_else.
    destruct (truthy (get config "structure")) eqn:Hs; [done|].
    rewrite (falsy_get _ _ Hs Hin).
    unfold section_names in Hin. rewrite !elem_of_cons, elem_of_nil in Hin.
    by destruct Hin as [->|[->|[->|[->|[]]]]]. }
  assert (Hin : ∀ name, name ∈ section_names → name ∈ section_names) by done.
  rewrite !Hname by (apply (bool_decide_unpack _); vm_compute; exact I).
  destruct (spread_readable _ (Hsections "introduction"
              ltac:(apply (bool_decide_unpack _); vm_compute; exact I)))
    as [-> Hi].
  destruct (spread_readable _ (Hsections "chapters"
              ltac:(apply (bool_decide_unpack _); vm_compute; exact I)))
    as [-> Hc].
  destruct (spread_readable _ (Hsections "conclusion"
              ltac:(apply (bool_decide_unpack _); vm_compute; exact I)))
    as [-> Hk].
  destruct (spread_readable _ (Hsections "appendices"
              ltac:(apply (bool_decide_unpack _); vm_compute; exact I)))
    as [-> Ha].
  cbn [bind]. rewrite find_title_readable.
  - unfold title_in, structure_items. cbn [bind].
    by destruct (list_find _ _) as [[i item]|].
  - by repeat apply Forall_app_2.
Qed.

(** *** What a successful build tells of the links *)

Lemma link_to_inv config k l :
  k ≠ "" → link_to config (VStr k) = inr l →
  ∃ t, getPageTitle config (VStr k) = inr t ∧ l = Some (link_of k t).
Proof.
  intros Hk. unfold link_to. rewrite (truthy_key _ Hk).
  cbn [ToString stringable bind ok to_string].
  intros (t & Ht & [= <-])%bind_inr. eauto.
Qed.

Lemma order_nth keys i k d :
  keys !! i = Some k → nth i (VStr <$> keys) d = VStr k.
Proof.
  intros Hk. apply nth_lookup_Some. by rewrite list_lookup_fmap, Hk.
Qed.

Lemma entryAt_inv config keys i k e :
  "" ∉ keys → keys !! i = Some k →
  entryAt config (VStr <$> keys) i = inr e →
  index e = i ∧ total e = length keys ∧
  match i with
  | O => previous e = None
  | S j => ∃ k' t, keys !! j = Some k' ∧
                   getPageTitle config (VStr k') = inr t ∧
                   previous e = Some (link_of k' t)
  end ∧
  match keys !! S i with
  | None => next e = None
  | Some k' => ∃ t, getPageTitle config (VStr k') = inr t ∧
                    next e = Some (link_of k' t)
  end.
Proof.
  intros Hne Hk. pose proof (lookup_lt_Some _ _ _ Hk) as Hlt.
  assert (Hin : ∀ j k', keys !! j = Some k' → k' ≠ "").
  { intros j k' Hj ->. apply Hne. by eapply list_elem_of_lookup_2. }
  unfold entryAt. rewrite length_fmap.
  intros (prev & Hprev & (nxt & Hnext & [= <-])%bind_inr)%bind_inr. simpl.
  split_and!; [done..| |].
  - destruct i as [|j]; simpl in Hprev; [by injection Hprev as <-|].
    destruct (lookup_lt_is_Some_2 keys j) as [k' Hk']; [lia|].
    rewrite Nat.sub_0_r, (order_nth _ _ _ _ Hk') in Hprev.
    apply link_to_inv in Hprev as (t & Ht & ->); [|by eapply Hin].
    eauto.
  - destruct (keys !! S i) as [k'|] eqn:Hk'.
    + pose proof (lookup_lt_Some _ _ _ Hk').
      destruct (Nat.ltb_spec i (length keys - 1)); [|lia].
      rewrite Nat.add_1_r, (order_nth _ _ _ _ Hk') in Hnext.
      apply link_to_inv in Hnext as (t & Ht & ->); [|by eapply Hin].
      eauto.
    + apply lookup_ge_None in Hk'.
      destruct (Nat.ltb_spec i (length keys - 1)); [lia|].
      by injection Hnext as <-.
Qed.

Lemma for_each_indexed_inv config order rest : ∀ i acc nav,
  NoDup rest → "__proto__" ∉ rest →
  for_each_indexed config order (VStr <$> rest) i acc = inr nav →
  (∀ k, k ∉ rest → nav !! k = acc !! k) ∧
  (∀ j k, rest !! j = Some k →
          ∃ e, entryAt config order (i + j) = inr e ∧ nav !! k = Some e).
Proof.
  induction rest as [|k0 rest IH]; intros i acc nav Hnd Hproto.
  - simpl. intros [= <-]. split; [done|]. by intros j k.
  - apply NoDup_cons in Hnd as [Hk0 Hnd].
    apply not_elem_of_cons in Hproto as [Hp0 Hproto].
    rewrite fmap_cons. simpl. unfold visit at 1.
    intros (acc' & (e0 & He0 & [= <-])%bind_inr & Hrest)%bind_inr.
    simpl in Hrest.
    assert (obj_set k0 e0 acc = <[k0 := e0]> acc) as Hset.
    { unfold obj_set. by destruct (String.eqb_spec k0 "__proto__"). }
    rewrite Hset in Hrest.
    destruct (IH _ _ _ Hnd Hproto Hrest) as [Hother Hin].
    split.
    + intros k [Hne Hk]%not_elem_of_cons.
      rewrite (Hother k Hk). by rewrite lookup_insert_ne.
    + intros [|j] k Hj; simpl in Hj.
      * injection Hj as <-. exists e0. rewrite Nat.add_0_r.
        split; [done|]. rewrite (Hother k0 Hk0).
        by rewrite lookup_insert_eq.
      * destruct (Hin j k Hj) as (e & He & Hlk).
        exists e. by rewrite Nat.add_succ_r, <- Nat.add_succ_l.
Qed.

(** *** The fallback title *)

Lemma length_map f s : String.length (Str.map f s) = String.length s.
Proof. induction s as [|c s IH]; simpl; [done|]. by rewrite IH. Qed.

Lemma length_capitalize_go s : ∀ b,
  String.length (capitalize_go b s) = String.length s.
Proof. induction s as [|c s IH]; intros b; simpl; [done|]. by rewrite IH. Qed.

Lemma to_upper_not_separator c :
  separator c = false → separator (Chars.to_upper c) = false.
Proof.
  destruct c as [[] [] [] [] [] [] [] []]; vm_compute; congruence.
Qed.

Lemma capitalize_go_no_separator s : ∀ b,
  Str.all (λ c, negb (separator c)) s = true →
  Str.all (λ c, negb (separator c)) (capitalize_go b s) = true.
Proof.
  induction s as [|c s IH]; intros b; simpl; [done|].
  intros [Hc Hs]%andb_true_iff. rewrite (IH _ Hs), andb_true_r.
  apply negb_true_iff in Hc.
  destruct (Chars.word c && negb b);
    [by rewrite to_upper_not_separator|by rewrite Hc].
Qed.

Lemma spaced_no_separator s :
  Str.all (λ c, negb (separator c)) (spaced s) = true.
Proof.
  unfold spaced. induction s as [|c s IH]; [done|].
  cbn [Str.map Str.all]. rewrite IH, andb_true_r.
  fold (separator c). destruct (separator c) eqn:Hc; [done|].
  by rewrite Hc.
Qed.

End NavigationExtraFacts.

Module NavigationExtras.
Import JS Navigation NavigationSpec NavigationContract.
Import ValidatorFacts NavigationFacts NavigationExtraFacts.

(** X8: the path of a link and the page key determine each other:
    [cleanPath] of the path [/<key>.html] is the key again, so the link
    that [generateNavigationData] builds for a non-empty key leads back
    to that key. *)
Theorem cleanPath_inverts_link_path config key l :
  cleanPath ("/" +:+ key +:+ ".html") = key ∧
  (key ≠ "" → link_to config (VStr key) = inr (Some l) →
   cleanPath (path l) = key).
Proof.
  split.
  - exact (cleanPath_link key VUndef).
  - intros Hk (t & _ & [= ->])%link_to_inv; [|done].
    apply cleanPath_link.
Qed.

(** X9: the links of neighbouring pages are mutual.  When the page-key
    sequence is made of distinct, non-empty keys other than [__proto__]
    and [generateNavigationData] returns, the entry of the key at
    position [i] has as [next] the link to the key at position [i + 1],
    the entry of that key has as [previous] the link to the key at
    position [i], each link carries the title [getPageTitle] computes
    for its target, and the two indices are consecutive. *)
Theorem navigation_links_are_mutual config keys nav i k k' :
  navigationOrder config = inr (VStr <$> keys) →
  generateNavigationData config = inr nav →
  NoDup keys → "" ∉ keys → "__proto__" ∉ keys →
  keys !! i = Some k → keys !! S i = Some k' →
  ∃ e e' t t',
    nav !! k = Some e ∧ nav !! k' = Some e' ∧
    getPageTitle config (VStr k) = inr t ∧
    getPageTitle config (VStr k') = inr t' ∧
    next e = Some (link_of k' t') ∧ previous e' = Some (link_of k t) ∧
    index e = i ∧ index e' = S i.
Proof.
  intros Horder Hnav Hnd Hne Hproto Hk Hk'.
  unfold generateNavigationData in Hnav. rewrite Horder in Hnav.
  simpl in Hnav.
  destruct (for_each_indexed_inv _ _ _ _ _ _ Hnd Hproto Hnav) as [_ Hin].
  destruct (Hin i k Hk) as (e & He & Hlk).
  destruct (Hin (S i) k' Hk') as (e' & He' & Hlk').
  simpl in He, He'.
  destruct (entryAt_inv _ _ _ _ _ Hne Hk He) as (Hi & _ & _ & Hnext).
  destruct (entryAt_inv _ _ _ _ _ Hne Hk' He') as (Hi' & _ & Hprev & _).
  rewrite Hk' in Hnext. destruct Hnext as (t' & Ht' & Hn).
  destruct Hprev as (k0 & t & Hk0 & Ht & Hp).
  assert (k0 = k) as -> by congruence.
  exists e, e', t, t'. done.
Qed.

Lemma navigation_links_are_mutual_witness :
  ∃ nav e e' t t',
    generateNavigationData Samples.config_ab = inr nav ∧
    nav !! "a" = Some e ∧ nav !! "b" = Some e' ∧
    getPageTitle Samples.config_ab (VStr "a") = inr t ∧
    getPageTitle Samples.config_ab (VStr "b") = inr t' ∧
    next e = Some (link_of "b" t') ∧ previous e' = Some (link_of "a" t).
Proof.
  exists (match generateNavigationData Samples.config_ab with
          | inr nav => nav
          | inl _ => ∅
          end).
  destruct (navigation_links_are_mutual Samples.config_ab ["a"; "b"]
              (match generateNavigationData Samples.config_ab with
               | inr nav => nav
               | inl _ => ∅
               end) 0 "a" "b")
    as (e & e' & t & t' & Ha & Hb & Ht & Ht' & Hn & Hp & _).
  - vm_compute. reflexivity.
  - vm_compute. reflexivity.
  - decide_closed.
  - decide_closed.
  - decide_closed.
  - reflexivity.
  - reflexivity.
  - exists e, e', t, t'. split; [vm_compute; reflexivity|]. done.
Defined.

(** X10: for a configuration of which each of the four sections is
    falsy or an array of items other than [null] and [undefined], the
    path of each item falsy or a string, [getPageTitle] returns the
    title of the first item, in the order introduction, chapters,
    conclusion, appendices, whose path gives the page key; the key
    itself when the title of that item is falsy; and, when no item gives
    the key, the key with [-], [_] and [/] turned into spaces and its
    words capitalised. *)
Theorem getPageTitle_first_matching_item config key :
  nullish config = false →
  (∀ name, name ∈ section_names →
           readable_section (get (get config "structure") name)) →
  getPageTitle config (VStr key)
  = inr (title_in (structure_items (get config "structure")) key).
Proof. apply getPageTitle_readable. Qed.

Lemma getPageTitle_first_matching_item_witness :
  getPageTitle Samples.config_fixture (VStr "preface")
  = inr (VStr "preface") ∧
  getPageTitle Samples.config_fixture (VStr "chapters/b") = inr (VStr "B") ∧
  getPageTitle Samples.config_fixture (VStr "src/unknown_page")
  = inr (VStr "Src Unknown Page").
Proof.
  assert (Hsections : ∀ name, name ∈ section_names →
    readable_section (get (get Samples.config_fixture "structure") name)).
  { intros name Hin. unfold section_names in Hin.
    rewrite !elem_of_cons, elem_of_nil in Hin.
    destruct Hin as [->|[->|[->|[->|[]]]]];
      try (by left); right; eexists; (split; [reflexivity|]);
      repeat constructor; by right. }
  split_and!.
  - apply (getPageTitle_first_matching_item Samples.config_fixture
             "preface"); [reflexivity|exact Hsections].
  - apply (getPageTitle_first_matching_item Samples.config_fixture
             "chapters/b"); [reflexivity|exact Hsections].
  - apply (getPageTitle_first_matching_item Samples.config_fixture
             "src/unknown_page"); [reflexivity|exact Hsections].
Defined.

(** X11: the title made up for a page that no item describes has the
    length of the key and holds none of the separators [-], [_] and
    [/]. *)
Theorem fallback_title_has_no_separator key :
  String.length (capitalize (spaced key)) = String.length key ∧
  Str.all (λ c, negb (separator c)) (capitalize (spaced key)) = true.
Proof.
  split.
  - unfold capitalize, spaced. by rewrite length_capitalize_go, length_map.
  - apply capitalize_go_no_separator, spaced_no_separator.
Qed.

End NavigationExtras.

(** ** Templates *)

Module TemplateExtraFacts.
Import JS TemplateEngine TemplateSpec TemplateContract TemplateFacts.

(** *** Paths *)

Lemma split_nonempty sep s : Str.split sep s ≠ [].
Proof.
  destruct s as [|c s]; simpl; [done|].
  destruct (Chars.eqb c sep); [done|]. by destruct (Str.split sep s).
Qed.

Lemma split_append sep a b :
  Str.split sep (a +:+ String sep b) = Str.split sep a ++ Str.split sep b.
Proof.
  induction a as [|c a IH].
  - rewrite append_nil_l. simpl. by rewrite chars_eqb_refl.
  - rewrite append_cons. simpl. rewrite IH.
    destruct (Chars.eqb c sep); [done|].
    pose proof (split_nonempty sep a).
    by destruct (Str.split sep a).
Qed.

Lemma walk_keys_undef keys : walk_keys VUndef keys = VUndef.
Proof. by destruct keys. Qed.

Lemma walk_keys_app keys1 keys2 : ∀ current,
  walk_keys current (keys1 ++ keys2)
  = walk_keys (walk_keys current keys1) keys2.
Proof.
  induction keys1 as [|k keys1 IH]; intros current; [done|].
  simpl. destruct current; by rewrite ?IH, ?walk_keys_undef.
Qed.

Lemma walk_keys_null keys : keys ≠ [] → walk_keys VNull keys = VUndef.
Proof. by destruct keys. Qed.

Lemma getValueByPath_compose obj a b :
  typeof_object (getValueByPath obj a) = true ∨
  getValueByPath obj a = VUndef →
  getValueByPath obj (a +:+ "." +:+ b)
  = getValueByPath (getValueByPath obj a) b.
Proof.
  intros Hmid. unfold getValueByPath in *.
  destruct (negb (truthy obj) || negb (typeof_object obj)) eqn:Hobj; [done|].
  change (a +:+ "." +:+ b) with (a +:+ String "." b).
  rewrite split_append, walk_keys_app.
  destruct Hmid as [Hmid| ->]; [|by rewrite walk_keys_undef].
  destruct (walk_keys obj (Str.split "." a)) as [| |x|n|s|l|o]; try done.
  simpl. by rewrite walk_keys_null by apply split_nonempty.
Qed.

Lemma getValueByPath_length obj a s :
  getValueByPath obj a = VStr s →
  getValueByPath obj (a +:+ ".length") = VNum (Z.of_nat (Str.js_length s)).
Proof.
  unfold getValueByPath.
  destruct (negb (truthy obj) || negb (typeof_object obj)) eqn:Hobj; [done|].
  change (a +:+ ".length") with (a +:+ String "." "length").
  rewrite split_append, walk_keys_app. by intros ->.
Qed.

(** *** The passes on a template without blocks *)

Lemma needs_open_if data : needs_open (if_pattern data).
Proof. intros s. apply needs_open_block. Qed.

Lemma needs_open_each data : needs_open (each_pattern data).
Proof. intros s. apply needs_open_block. Qed.

Lemma needs_open_variable data : needs_open (var_pattern data).
Proof. intros s. apply needs_open_var. Qed.

Lemma ifPass_tokens data body rest :
  Forall wf_token body →
  ifPass data (body_text body +:+ rest) = body_text body +:+ ifPass data rest.
Proof.
  intros Hwf. unfold ifPass. fold (if_pattern data).
  apply replace_copy_body; [apply needs_open_if|done|].
  intros t rest' Ht Htext. unfold if_pattern, block_match.
  change "{{#if" with ("{{" +:+ String "#" "if").
  by rewrite token_head_mismatch.
Qed.

(** A pattern that matches at the head of no token copies a body. *)
Lemma replace_with_copy_body m body rest :
  needs_open m → Forall wf_token body →
  (∀ t rest', wf_token t → is_text t = false →
              m (show_token t +:+ rest') = None) →
  replace_with m (body_text body +:+ rest)
  = cat (ok (body_text body)) (replace_with m rest).
Proof.
  intros Hm Hwf Hhead. induction Hwf as [|t body Ht _ IH].
  - change (body_text []) with "". by rewrite cat_nil_l.
  - rewrite body_text_cons, !append_assoc.
    rewrite replace_with_copy_token; [|done|done|by apply Hhead].
    by rewrite IH, cat_append.
Qed.

Lemma eachPass_tokens data body rest :
  Forall wf_token body →
  eachPass data (body_text body +:+ rest)
  = cat (ok (body_text body)) (eachPass data rest).
Proof.
  intros Hwf. unfold eachPass. fold (each_pattern data).
  apply replace_with_copy_body; [apply needs_open_each|done|].
  intros t rest' Ht Htext. unfold each_pattern, block_match.
  change "{{#each" with ("{{" +:+ String "#" "each").
  by rewrite token_head_mismatch.
Qed.

(** The [{{else}}] pattern needs a closing tag after it. *)
Lemma find_sub_suffix pat p : ∀ s,
  Str.find_sub pat (p +:+ s) = None → Str.find_sub pat s = None.
Proof.
  induction p as [|c p IH]; intros s; [done|].
  rewrite append_cons, find_sub_unfold.
  destruct (Str.strip_prefix pat (String c (p +:+ s))); [done|].
  destruct (Str.find_sub pat (p +:+ s)) as [[x y]|] eqn:Hf; [done|].
  intros _. by apply IH.
Qed.

Lemma find_sub_nowhere pat a :
  pat ≠ "" → starts_nowhere pat a "" → Str.find_sub pat a = None.
Proof.
  intros Hpat. induction a as [|c a IH].
  - intros _. by destruct pat.
  - intros [Hhead Hrest]. rewrite find_sub_unfold.
    rewrite append_nil_r in Hhead. rewrite Hhead.
    by rewrite IH.
Qed.

Lemma replace_nothing m s :
  (∀ p r, s = p +:+ r → m r = None) → Str.replace_all m s = s.
Proof.
  induction s as [|c s IH]; intros Hm; [done|].
  rewrite replace_char by (by apply (Hm "")).
  rewrite IH; [done|]. intros p r ->. by apply (Hm (String c p)).
Qed.

Lemma elsePass_no_closing s :
  Str.find_sub "{{/" s = None → elsePass s = s.
Proof.
  intros Hs. apply replace_nothing. intros p r ->.
  unfold else_match.
  destruct (Str.strip_prefix "{{else}}" r) as [r'|] eqn:Hr; [|done].
  apply strip_prefix_Some in Hr as ->. rewrite obind_some.
  apply find_sub_suffix in Hs. apply find_sub_suffix in Hs.
  by rewrite Hs.
Qed.

Lemma body_no_closing body :
  Forall wf_token body → Str.find_sub "{{/" (body_text body) = None.
Proof.
  intros Hwf. apply find_sub_nowhere; [done|].
  by apply (starts_nowhere_body "").
Qed.

Lemma varPass_tokens data body :
  Forall wf_token body →
  varPass data (body_text body) = rendered data body.
Proof.
  unfold varPass, rendered. fold (var_pattern data).
  pose proof (needs_open_variable data) as Hopen.
  induction 1 as [|t body Hwf _ IH]; [done|].
  rewrite fmap_cons, body_text_cons, collect_cons.
  destruct t as [s| | |key].
  - rewrite replace_with_copy_token by done. by rewrite IH.
  - rewrite replace_with_copy_token; [by rewrite IH|done|done|].
    intros _. reflexivity.
  - rewrite (replace_with_match _ "{{this}}" _
               (text_or_empty (getValueByPath data "this"))).
    + rewrite IH. simpl top_value.
      by rewrite text_or_empty_shown, getValueByPath_resolve.
    + done.
    + unfold var_pattern. simpl show_token.
      change ("{{this}}" +:+ body_text body)
        with ("{{" +:+ "this" +:+ "}}" +:+ body_text body).
      by rewrite var_match_directive.
  - destruct Hwf as [Hkey Hthis].
    rewrite (replace_with_match _ ("{{" +:+ key +:+ "}}") _
               (text_or_empty (getValueByPath data (Str.trim key)))).
    + rewrite IH. simpl top_value.
      by rewrite text_or_empty_shown, getValueByPath_resolve.
    + done.
    + unfold var_pattern. rewrite !append_assoc.
      rewrite var_match_directive.
      * rewrite obind_some.
        do 2 f_equal. rewrite !length_append. simpl. lia.
      * apply Hkey.
      * apply (plain_path_all _ _ path_char_var Hkey).
      * done.
Qed.

End TemplateExtraFacts.

Module TemplateSyntaxFacts.
Import JS TemplateEngine TemplateSpec TemplateContract TemplateSyntax.
Import TemplateFacts TemplateExtraFacts.

Lemma show_nodes_cons n nodes :
  show_nodes (n :: nodes) = show_node n +:+ show_nodes nodes.
Proof. reflexivity. Qed.

Lemma show_nodes_app a b : show_nodes (a ++ b) = show_nodes a +:+ show_nodes b.
Proof.
  induction a as [|n a IH]; [done|].
  simpl app. by rewrite !show_nodes_cons, IH, append_assoc.
Qed.

Lemma show_template_cons b blocks :
  show_template (b :: blocks) = show_block b +:+ show_template blocks.
Proof. reflexivity. Qed.

(** *** The conditional pass *)

Lemma ifPass_pattern data s :
  ifPass data s = Str.replace_all (if_pattern data) s.
Proof. reflexivity. Qed.

Lemma eachPass_pattern data s :
  eachPass data s = replace_with (each_pattern data) s.
Proof. reflexivity. Qed.

Lemma each_opening_plain path :
  plain_path path → plain ("#each " +:+ path +:+ "}}").
Proof.
  intros Hpath. change ("#each " +:+ path +:+ "}}")
    with ("#each " +:+ (path +:+ "}}")).
  apply plain_append. split; [done|]. by apply plain_path_plain.
Qed.

Lemma ifPass_node data n rest :
  wf_node data n →
  ifPass data (show_node n +:+ rest) = show_node n +:+ ifPass data rest.
Proof.
  destruct n as [t|path body]; simpl wf_node.
  - intros Hwf. pose proof (ifPass_tokens data [t] rest) as H.
    unfold body_text in H. simpl in H. rewrite append_nil_r in H.
    apply H. by constructor.
  - intros (Hpath & _ & Hbody & _). unfold show_node.
    rewrite !ifPass_pattern.
    pose proof (needs_open_if data) as Hopen.
    change ("{{#each " +:+ path +:+ "}}" +:+ body_text body +:+ "{{/each}}")
      with ("{{" +:+ "#each " +:+ path +:+ "}}" +:+ body_text body +:+
            "{{/each}}").
    rewrite !append_assoc.
    rewrite <- (append_assoc path "}}"), <- (append_assoc "#each ").
    rewrite replace_skip; [|done|done|by apply each_opening_plain|reflexivity].
    rewrite <- ifPass_pattern, ifPass_tokens by done.
    rewrite ifPass_pattern.
    change ("{{/each}}" +:+ rest) with ("{{" +:+ "/each}}" +:+ rest).
    rewrite replace_skip; [|done|done|done|reflexivity].
    by rewrite !append_assoc.
Qed.

Lemma ifPass_nodes data nodes rest :
  Forall (wf_node data) nodes →
  ifPass data (show_nodes nodes +:+ rest)
  = show_nodes nodes +:+ ifPass data rest.
Proof.
  induction 1 as [|n nodes Hn _ IH]; [done|].
  rewrite show_nodes_cons, !append_assoc.
  by rewrite ifPass_node, IH.
Qed.

(** No [{{/if}}] starts inside a node. *)
Lemma starts_nowhere_directive p inner rest :
  plain inner → first_char_is_not_slash inner →
  starts_nowhere ("{{" +:+ String "/" p) ("{{" +:+ inner) rest.
Proof.
  intros Hplain Hfirst. destruct inner as [|d inner]; [done|].
  simpl in Hfirst.
  change ("{{" +:+ String d inner)
    with (String "{" (String "{" (String d inner))).
  split; [|split].
  - change (String "{" (String "{" (String d inner)) +:+ rest)
      with ("{{" +:+ String d (inner +:+ rest)).
    apply strip_prefix_third. congruence.
  - change ("{{" +:+ String "/" p)
      with (String "{" (String "{" (String "/" p))).
    rewrite append_cons, strip_prefix_cons.
    apply strip_prefix_head. intros <-. done.
  - by apply (starts_nowhere_plain _ (String d inner)).
Qed.

Lemma starts_nowhere_node data n rest :
  wf_node data n → starts_nowhere "{{/if}}" (show_node n) rest.
Proof.
  destruct n as [t|path body]; simpl wf_node.
  - intros Hwf. by apply (starts_nowhere_token "if}}").
  - intros (Hpath & _ & Hbody & _). unfold show_node.
    change ("{{#each " +:+ path +:+ "}}" +:+ body_text body +:+ "{{/each}}")
      with ("{{" +:+ "#each " +:+ path +:+ "}}" +:+ body_text body +:+
            "{{/each}}").
    rewrite <- (append_assoc path "}}"), <- (append_assoc "#each "),
      <- (append_assoc "{{").
    apply starts_nowhere_app; [|apply starts_nowhere_app].
    + apply (starts_nowhere_directive "if}}");
        [by apply each_opening_plain|done].
    + by apply (starts_nowhere_body "if}}").
    + repeat split; reflexivity.
Qed.

Lemma starts_nowhere_nodes data nodes rest :
  Forall (wf_node data) nodes →
  starts_nowhere "{{/if}}" (show_nodes nodes) rest.
Proof.
  induction 1 as [|n nodes Hn _ IH]; [done|].
  rewrite show_nodes_cons. apply starts_nowhere_app; [|done].
  by eapply starts_nowhere_node.
Qed.

Section IfNodes.
Variable data : value.
Variable path : string.
Variable content : list node.
Variable post : string.
Hypothesis path_ok : plain_path path.
Hypothesis path_start : Str.ws_len path = 0.
Hypothesis content_wf : Forall (wf_node data) content.

Let block : string :=
  "{{#if " +:+ path +:+ "}}" +:+ show_nodes content +:+ "{{/if}}".

Lemma if_nodes_length :
  String.length block
  = String.length "{{#if" + String.length (String " " path) + 2 +
    String.length (show_nodes content) + String.length "{{/if}}".
Proof. unfold block. rewrite !length_append. simpl. lia. Qed.

Lemma if_nodes_match :
  block_match "{{#if" "{{/if}}" (block +:+ post)
  = Some (path, show_nodes content, String.length block).
Proof.
  rewrite if_nodes_length. unfold block_match, block.
  rewrite !append_assoc.
  change ("{{#if " +:+ path +:+ "}}" +:+ show_nodes content +:+ "{{/if}}"
          +:+ post)
    with ("{{#if" +:+ String " " path +:+
          String "}" (String "}" (show_nodes content +:+ "{{/if}}" +:+ post))).
  rewrite strip_prefix_append, obind_some.
  rewrite span_append; [| |done].
  - change (String "}" (String "}" (show_nodes content +:+ "{{/if}}" +:+ post)))
      with ("}}" +:+ show_nodes content +:+ "{{/if}}" +:+ post).
    rewrite strip_prefix_append, obind_some.
    unfold capture_after_ws. rewrite ws_len_space.
    change (Str.drop 1 (String " " path)) with path.
    destruct path_ok as [Hne _].
    destruct (Str.is_empty path) eqn:Hempty; [by destruct path|].
    rewrite obind_some, (greedy_ws_stop _ path_start).
    rewrite find_sub_append; [done|].
    by eapply starts_nowhere_nodes.
  - simpl. apply (plain_path_all _ _ path_char_not_rbrace path_ok).
Qed.

Lemma ifPass_if_nodes :
  ifPass data (block +:+ post)
  = (if truthy (resolve data (Str.trim path))
     then show_nodes content else "") +:+ ifPass data post.
Proof.
  unfold ifPass. apply replace_match.
  - unfold block. done.
  - by rewrite if_nodes_match, obind_some, getValueByPath_resolve.
Qed.

End IfNodes.

Lemma ifPass_block_chosen data b rest :
  wf_block data b →
  ifPass data (show_block b +:+ rest)
  = show_nodes (chosen data b) +:+ ifPass data rest.
Proof.
  destruct b as [n|path content]; simpl wf_block.
  - intros Hn. simpl chosen. rewrite show_nodes_cons.
    change (show_nodes []) with "". rewrite append_nil_r.
    by apply ifPass_node.
  - intros (Hpath & Hstart & Hcontent). unfold show_block, chosen.
    rewrite (ifPass_if_nodes data path content rest Hpath Hstart Hcontent).
    by destruct (truthy _).
Qed.

Lemma chosen_wf data b :
  wf_block data b → Forall (wf_node data) (chosen data b).
Proof.
  destruct b as [n|path content]; simpl.
  - by constructor.
  - intros (_ & _ & Hcontent). by destruct (truthy _).
Qed.

Lemma ifPass_template data blocks :
  Forall (wf_block data) blocks →
  ifPass data (show_template blocks)
  = show_nodes (blocks ≫= chosen data).
Proof.
  induction 1 as [|b blocks Hb _ IH]; [done|].
  rewrite show_template_cons, ifPass_block_chosen by done.
  rewrite IH. simpl. by rewrite show_nodes_app.
Qed.

(** *** The iteration pass *)

Lemma eachPass_node data n rest :
  wf_node data n →
  eachPass data (show_node n +:+ rest)
  = cat (settled_text data n) (eachPass data rest).
Proof.
  destruct n as [t|path body]; simpl wf_node.
  - intros Hwf. pose proof (eachPass_tokens data [t] rest) as H.
    unfold body_text in H. simpl in H. rewrite append_nil_r in H.
    apply H. by constructor.
  - intros (Hpath & Hstart & Hbody & _).
    apply (eachPass_block data path body rest Hpath Hstart Hbody).
Qed.

Lemma eachPass_nodes data nodes :
  Forall (wf_node data) nodes →
  eachPass data (show_nodes nodes) = collect (settled_text data <$> nodes).
Proof.
  induction 1 as [|n nodes Hn _ IH]; [done|].
  rewrite show_nodes_cons, eachPass_node, IH by done.
  by rewrite fmap_cons, collect_cons.
Qed.

Lemma settled_wf data n : wf_node data n → wf_token (settled data n).
Proof. destruct n as [t|path body]; simpl; [done|]. by intros (_ & _ & _ & ?). Qed.

(** Where the iteration pass returns, a node gives the text of its
    settled token, and stands for what that token stands for. *)
Lemma settled_text_inr data n text :
  settled_text data n = inr text →
  text = show_token (settled data n) ∧
  eval_node data n = top_value data (settled data n).
Proof.
  destruct n as [t|path body]; simpl.
  - by intros [= <-].
  - intros ->. done.
Qed.

Lemma settled_all data nodes text :
  collect (settled_text data <$> nodes) = inr text →
  text = body_text (settled data <$> nodes) ∧
  eval_node data <$> nodes = top_value data <$> (settled data <$> nodes).
Proof.
  revert text. induction nodes as [|n nodes IH]; intros text.
  - by intros [= <-].
  - rewrite fmap_cons, collect_cons.
    intros (x & y & Hx & Hy & ->)%cat_inr.
    apply settled_text_inr in Hx as [-> Hn].
    destruct (IH y Hy) as [-> Hnodes].
    rewrite !fmap_cons, body_text_cons, Hn, Hnodes. done.
Qed.

(** What a template stands for raises nothing but a [TypeError]. *)
Lemma token_value_raises item k t :
  raises_only TypeError (token_value item k t).
Proof.
  destruct t; simpl; try done; [apply ToString_raises|apply shown_raises].
Qed.

Lemma each_value_raises body array :
  raises_only TypeError (each_value body array).
Proof.
  unfold each_value. apply collect_raises_only, Forall_forall.
  intros r [i [item [-> _]]]%elem_of_lookup_imap.
  apply collect_raises_only, Forall_fmap, Forall_forall.
  intros t _. apply token_value_raises.
Qed.

Lemma eval_node_raises data n : raises_only TypeError (eval_node data n).
Proof.
  destruct n as [t|path body]; simpl.
  - destruct t; simpl; try done; apply shown_raises.
  - unfold each_output. destruct (resolve _ _); try done.
    apply each_value_raises.
Qed.

Lemma collect_inl_inv rs e : collect rs = inl e → inl e ∈ rs.
Proof.
  induction rs as [|r rs IH]; [done|].
  rewrite collect_cons. destruct r as [e'|x].
  - intros [= <-]. by left.
  - intros H. right. apply IH.
    destruct (collect rs); [|done]. by injection H as <-.
Qed.

Lemma settled_raises data nodes e :
  collect (settled_text data <$> nodes) = inl e →
  collect (eval_node data <$> nodes) = inl TypeError.
Proof.
  intros Hin%collect_inl_inv.
  apply list_elem_of_fmap in Hin as (n & Hn & Hin).
  assert (eval_node data n = inl TypeError) as Heval.
  { destruct n as [t|path body]; [done|]. simpl in *.
    rewrite <- Hn. f_equal. symmetry in Hn.
    by apply (eval_node_raises data (Each path body)) in Hn. }
  apply collect_inl.
  - apply Forall_fmap, Forall_forall. intros ? _. apply eval_node_raises.
  - rewrite <- Heval. by apply list_elem_of_fmap_2.
Qed.

Lemma eval_chosen data blocks :
  collect (eval_node data <$> (blocks ≫= chosen data))
  = eval_template data blocks.
Proof.
  unfold eval_template. induction blocks as [|b blocks IH]; [done|].
  rewrite fmap_cons, collect_cons, <- IH.
  change ((b :: blocks) ≫= chosen data)
    with (chosen data b ++ (blocks ≫= chosen data)).
  rewrite fmap_app, collect_app. f_equal.
  destruct b as [n|path content]; simpl.
  - change (collect [eval_node data n]) with (cat (eval_node data n) (ok "")).
    by rewrite cat_nil_r.
  - by destruct (truthy _).
Qed.

End TemplateSyntaxFacts.

Module PreprocessFacts.
Import JS TemplateEngine TemplateSpec TemplateFacts PreprocessContract.
Import BookGenerator.

(** *** The defaults *)

Lemma not_default_key k :
  k = "title" ∨ k = "repository" ∨ k = "packageName" → ¬ default_key k.
Proof. intros [->|[->| ->]] [?|[?|[?|?]]]; discriminate. Qed.

Lemma defaults_get today props :
  get (VObj (defaults today props)) "version"
  = or_else (get (VObj props) "version") (VStr "1.0.0") ∧
  get (VObj (defaults today props)) "language"
  = or_else (get (VObj props) "language") (VStr "ja") ∧
  get (VObj (defaults today props)) "license"
  = or_else (get (VObj props) "license") (VStr "MIT") ∧
  get (VObj (defaults today props)) "currentDate" = VStr today.
Proof.
  unfold defaults, get. cbv zeta.
  repeat (progress rewrite ?(assoc_set_ne "version" "language"),
    ?(assoc_set_ne "version" "license"),
    ?(assoc_set_ne "version" "currentDate"),
    ?(assoc_set_ne "language" "version"),
    ?(assoc_set_ne "language" "license"),
    ?(assoc_set_ne "language" "currentDate"),
    ?(assoc_set_ne "license" "version"),
    ?(assoc_set_ne "license" "language"),
    ?(assoc_set_ne "license" "currentDate"),
    ?(assoc_set_ne "currentDate" "version"),
    ?(assoc_set_ne "currentDate" "language"),
    ?(assoc_set_ne "currentDate" "license") by done).
  by rewrite !assoc_set_eq.
Qed.

Lemma preprocessData_shape today props processed data' :
  preprocessData today (VObj props) = inr (processed, data') →
  ∃ p5, title_step (VObj (defaults today props)) = inr p5 ∧
        (∃ q, p5 = VObj q) ∧
        (∀ k, k ≠ "packageName" →
              get p5 k = get (VObj (defaults today props)) k) ∧
        (∀ k, k ≠ "repository" → get processed k = get p5 k).
Proof.
  rewrite preprocessData_object.
  intros (p5 & Htitle & Hrepo)%ValidatorFacts.bind_inr.
  exists p5. split; [done|].
  assert (Hq : ∃ q, p5 = VObj q).
  { apply title_step_inv in Htitle as [->|(t & _ & ->)]; by eexists. }
  split; [done|]. split.
  - intros k Hk. apply title_step_inv in Htitle as [->|(t & _ & ->)]; [done|].
    apply get_set_ne. by intros <-.
  - intros k Hk. destruct Hq as [q ->].
    apply repository_step_inv in Hrepo
      as [[= -> _]|(u & owner & name & rprops & _ & _ & _ & [= -> _])];
      [done|].
    apply get_set_ne. by intros <-.
Qed.

(** *** The owner and the name of a GitHub repository *)

Lemma span_all f s : Str.all f s = true → Str.span f s = (s, "").
Proof.
  induction s as [|c s IH]; [done|]. simpl.
  intros [Hc Hs]%andb_true_iff. by rewrite Hc, (IH Hs).
Qed.

Lemma span_slash s t :
  Str.all not_slash s = true →
  Str.span not_slash (s +:+ String "/" t) = (s, String "/" t).
Proof. intros Hs. by apply span_append. Qed.

Lemma github_at_repository owner repo tail :
  owner ≠ "" → Str.all not_slash owner = true →
  repo ≠ "" → Str.all not_slash repo = true →
  tail = "" ∨ (∃ t, tail = String "/" t) →
  github_at ("github.com/" +:+ owner +:+ "/" +:+ repo +:+ tail)
  = Some (owner, repo).
Proof.
  intros Ho Hso Hr Hsr Htail. unfold github_at.
  rewrite strip_prefix_append, obind_some.
  change ("/" +:+ repo +:+ tail) with (String "/" (repo +:+ tail)).
  rewrite span_slash by done.
  destruct (Str.is_empty owner) eqn:He; [by destruct owner|].
  rewrite strip_prefix_cons. simpl Str.strip_prefix. rewrite obind_some.
  assert (Str.span not_slash (repo +:+ tail) = (repo, tail)) as ->.
  { destruct Htail as [->|[t ->]].
    - rewrite append_nil_r. by apply span_all.
    - by apply span_slash. }
  by destruct repo.
Qed.

Lemma github_match_unfold url :
  github_match url
  = match github_at url with
    | Some m => Some m
    | None =>
        match url with
        | EmptyString => None
        | String _ rest => github_match rest
        end
    end.
Proof. by destruct url. Qed.

Lemma github_match_repository scheme owner repo tail :
  Str.all not_g scheme = true →
  owner ≠ "" → Str.all not_slash owner = true →
  repo ≠ "" → Str.all not_slash repo = true →
  tail = "" ∨ (∃ t, tail = String "/" t) →
  github_match (scheme +:+ "github.com/" +:+ owner +:+ "/" +:+ repo +:+ tail)
  = Some (owner, repo).
Proof.
  intros Hscheme Ho Hso Hr Hsr Htail.
  induction scheme as [|c scheme IH].
  - rewrite append_nil_l, github_match_unfold.
    by rewrite github_at_repository.
  - simpl in Hscheme. apply andb_true_iff in Hscheme as [Hc Hscheme].
    rewrite append_cons, github_match_unfold.
    assert (github_at (String c (scheme +:+ "github.com/" +:+ owner +:+ "/"
                                 +:+ repo +:+ tail)) = None) as ->.
    { unfold github_at.
      rewrite strip_prefix_head; [done|].
      intros <-. by vm_compute in Hc. }
    by apply IH.
Qed.

Lemma github_match_nonempty u m : github_match u = Some m → u ≠ "".
Proof. by intros H ->. Qed.

Lemma preprocessData_writes_repository today props rprops u owner name :
  string_or_falsy (get (VObj props) "title") →
  get (VObj props) "repository" = VObj rprops →
  assoc "url" rprops = Some (VStr u) →
  github_match u = Some (owner, name) →
  ∃ processed,
    preprocessData today (VObj props)
    = inr (processed,
           set_own "repository" (write_repository owner name (VObj rprops))
             (VObj props)) ∧
    get processed "repository" = write_repository owner name (VObj rprops).
Proof.
  intros Htitle Hrepo Hu Hm. rewrite preprocessData_object.
  assert (Hstep : ∀ q,
    get (VObj q) "repository" = VObj rprops →
    repository_step (VObj q) (VObj props)
    = inr (set_own "repository" (write_repository owner name (VObj rprops))
             (VObj q),
           set_own "repository" (write_repository owner name (VObj rprops))
             (VObj props))).
  { intros q Hq. unfold repository_step.
    assert (url_of (VObj q) = VStr u) as ->.
    { unfold url_of. rewrite Hq. simpl. by rewrite Hu. }
    assert (truthy (VStr u) = true) as ->.
    { pose proof (github_match_nonempty _ _ Hm). by destruct u. }
    by rewrite Hm, Hq. }
  destruct (title_step_object (defaults today props)) as [Ht|[pn Ht]].
  { unfold get. rewrite defaults_assoc by (apply not_default_key; auto).
    exact Htitle. }
  - rewrite Ht. simpl bind. rewrite Hstep.
    + eexists. split; [reflexivity|]. apply get_set_eq.
    + unfold get. rewrite defaults_assoc by (apply not_default_key; auto).
      exact Hrepo.
  - rewrite Ht. simpl bind. rewrite Hstep.
    + eexists. split; [reflexivity|]. apply get_set_eq.
    + unfold get. rewrite assoc_set_ne by done.
      rewrite defaults_assoc by (apply not_default_key; auto).
      exact Hrepo.
Qed.

Lemma write_repository_get owner name rprops :
  get (write_repository owner name (VObj rprops)) "owner" = VStr owner ∧
  get (write_repository owner name (VObj rprops)) "name"
  = VStr (Str.strip_suffix ".git" name) ∧
  ∀ k, k ≠ "owner" → k ≠ "name" →
       get (write_repository owner name (VObj rprops)) k
       = get (VObj rprops) k.
Proof.
  simpl. split_and!.
  - by rewrite assoc_set_ne, assoc_set_eq.
  - by rewrite assoc_set_eq.
  - intros k Ho Hn. by rewrite !assoc_set_ne.
Qed.

Lemma preprocessData_title today props out :
  preprocessData today (VObj props) = inr out →
  string_or_falsy (get (VObj props) "title").
Proof.
  rewrite preprocessData_object.
  intros (p5 & Htitle & _)%ValidatorFacts.bind_inr.
  unfold title_step in Htitle. unfold get in Htitle.
  rewrite defaults_assoc in Htitle by (apply not_default_key; auto).
  unfold string_or_falsy, get.
  destruct (default VUndef (assoc "title" props)) as [| |b|n|t|l|o];
    try (by left); try (by right).
  - destruct b; [done|by left].
  - destruct (truthy (VNum n)) eqn:Hn; [done|by left].
Qed.

(** *** The package file *)

Lemma packageData_object props :
  packageData (VObj props)
  = bind (homepage (get (VObj props) "deployment")
            (get (VObj props) "repository")) (λ homepage,
    ok (VObj [
      ("name", or_else (get_opt (get (VObj props) "repository") "name")
                 (VStr "book"));
      ("version", or_else (get (VObj props) "version") (VStr "1.0.0"));
      ("description", or_else (get (VObj props) "description") (VStr ""));
      ("author", or_else (get (VObj props) "author") (VStr ""));
      ("license", VStr "MIT");
      ("scripts", VObj [
         ("build", VStr "bundle exec jekyll build");
         ("serve", VStr "bundle exec jekyll serve --livereload");
         ("deploy", VStr "npm run build && gh-pages -d _site");
         ("deploy-setup", VStr "gh-pages-clean");
         ("validate-deploy", VStr "node scripts/validate-github-pages.js");
         ("pages-status", VStr "node scripts/check-pages-status.js")]);
      ("devDependencies", VObj [("gh-pages", VStr "^6.0.0")]);
      ("repository",
         if truthy (get_opt (get (VObj props) "repository") "url")
         then VObj [("type", VStr "git");
                    ("url", get (get (VObj props) "repository") "url")]
         else VUndef);
      ("homepage", homepage)])).
Proof. reflexivity. Qed.

(** The package data are built exactly when the homepage is, and carry
    it. *)
Lemma packageData_name props pkg :
  packageData (VObj props) = inr pkg ↔
  ∃ page,
    homepage (get (VObj props) "deployment") (get (VObj props) "repository")
    = inr page ∧
    pkg = VObj [
      ("name", or_else (get_opt (get (VObj props) "repository") "name")
                 (VStr "book"));
      ("version", or_else (get (VObj props) "version") (VStr "1.0.0"));
      ("description", or_else (get (VObj props) "description") (VStr ""));
      ("author", or_else (get (VObj props) "author") (VStr ""));
      ("license", VStr "MIT");
      ("scripts", VObj [
         ("build", VStr "bundle exec jekyll build");
         ("serve", VStr "bundle exec jekyll serve --livereload");
         ("deploy", VStr "npm run build && gh-pages -d _site");
         ("deploy-setup", VStr "gh-pages-clean");
         ("validate-deploy", VStr "node scripts/validate-github-pages.js");
         ("pages-status", VStr "node scripts/check-pages-status.js")]);
      ("devDependencies", VObj [("gh-pages", VStr "^6.0.0")]);
      ("repository",
         if truthy (get_opt (get (VObj props) "repository") "url")
         then VObj [("type", VStr "git");
                    ("url", get (get (VObj props) "repository") "url")]
         else VUndef);
      ("homepage", page)].
Proof.
  rewrite packageData_object. split.
  - intros (page & Hpage & [= <-])%ValidatorFacts.bind_inr. eauto.
  - intros (page & -> & ->). reflexivity.
Qed.

Lemma homepage_returns config :
  (∃ page, homepage (get config "deployment") (get config "repository")
           = inr page) ↔ homepage_converts config = true.
Proof.
  unfold homepage, homepage_converts, ToString.
  destruct (truthy (get_opt (get config "deployment") "customDomain"))
    eqn:Hdomain.
  { assert (get (get config "deployment") "customDomain"
            = get_opt (get config "deployment") "customDomain") as ->.
    { by destruct (get config "deployment"). }
    destruct (stringable _); simpl; split; try done; eauto.
    by intros [? ?]. }
  destruct (truthy (get_opt (get config "repository") "owner")) eqn:Howner;
    [|split; eauto].
  assert (∀ k, get (get config "repository") k
               = get_opt (get config "repository") k) as Hget.
  { intros k. by destruct (get config "repository"). }
  rewrite !Hget.
  destruct (stringable (get_opt (get config "repository") "owner")); simpl;
    [|split; [by intros [? ?]|done]].
  destruct (stringable _); simpl; split; try done; eauto.
  by intros [? ?].
Qed.

(** *** The package name *)















End PreprocessFacts.

Module PreprocessErrorFacts.
Import JS TemplateEngine TemplateSpec TemplateFacts PreprocessContract.
Import PreprocessFacts.

Lemma repository_step_url processed data out :
  repository_step processed data = inr out →
  string_or_falsy (url_of processed).
Proof.
  unfold repository_step, string_or_falsy.
  destruct (truthy (url_of processed)); [|by left].
  destruct (url_of processed); try done. by right.
Qed.

Lemma title_step_url processed p5 :
  title_step processed = inr p5 → (∃ q, processed = VObj q) →
  url_of p5 = url_of processed.
Proof.
  intros Htitle [q ->]. apply url_of_ext.
  apply title_step_inv in Htitle as [->|(t & _ & ->)]; [done|].
  by apply get_set_ne.
Qed.

Lemma defaults_url today props :
  url_of (VObj (defaults today props)) = url_of (VObj props).
Proof.
  apply url_of_ext. unfold get.
  by rewrite defaults_assoc by (apply not_default_key; auto).
Qed.

Lemma preprocessData_url today props out :
  preprocessData today (VObj props) = inr out →
  string_or_falsy (url_of (VObj props)).
Proof.
  rewrite preprocessData_object.
  intros (p5 & Htitle & Hrepo)%ValidatorFacts.bind_inr.
  apply repository_step_url in Hrepo.
  rewrite (title_step_url _ _ Htitle), defaults_url in Hrepo by eauto.
  done.
Qed.

End PreprocessErrorFacts.

Module TemplateExtras.
Import JS TemplateEngine TemplateSpec TemplateContract TemplateSyntax.
Import BookGenerator PreprocessContract.
Import TemplateFacts TemplateExtraFacts TemplateSyntaxFacts.
Import PreprocessFacts PreprocessErrorFacts.

(** X12: [getValueByPath] composes along the dots of a path.  For a
    path [a] that reads own properties only, the value at [a.b] is the
    value at [b] of the value at [a] whenever that intermediate value is
    an object, an array, [null] or [undefined].  For a string in between
    the two differ: [getValueByPath] of a string is [undefined] for
    every path, while the value at [a.length] is the length of the
    string in UTF-16 code units. *)
Theorem getValueByPath_composes obj a b :
  own_path obj a = true →
  (typeof_object (getValueByPath obj a) = true ∨
   getValueByPath obj a = VUndef →
   getValueByPath obj (a +:+ "." +:+ b)
   = getValueByPath (getValueByPath obj a) b) ∧
  (∀ s, getValueByPath (VStr s) b = VUndef) ∧
  (∀ s, getValueByPath obj a = VStr s →
        getValueByPath obj (a +:+ ".length")
        = VNum (Z.of_nat (Str.js_length s))).
Proof.
  intros _. split; [by apply getValueByPath_compose|]. split.
  - intros s. unfold getValueByPath. simpl. by rewrite orb_true_r.
  - intros s. apply getValueByPath_length.
Qed.

Lemma getValueByPath_composes_witness :
  (getValueByPath Samples.data_repository "repository.url"
   = getValueByPath (getValueByPath Samples.data_repository "repository")
       "url") ∧
  getValueByPath Samples.data_repository "title.length" = VNum 1.
Proof.
  split.
  - destruct (getValueByPath_composes Samples.data_repository
                "repository" "url") as [Hcompose _]; [reflexivity|].
    apply Hcompose. left. reflexivity.
  - destruct (getValueByPath_composes Samples.data_repository
                "title" "") as (_ & _ & Hlength); [reflexivity|].
    apply (Hlength "T"). reflexivity.
Defined.

(** X13: what [renderTemplate] makes of a template built from text
    without braces, variable directives, iteration blocks over these,
    and conditional blocks around those.  When the paths read own
    properties only, the paths of the blocks are plain and the text each
    iteration block expands to holds no opening brace, the result is the
    concatenation of what the parts stand for: a variable directive
    gives the value at its path converted to a string (the empty string
    for a falsy value), and the value is not scanned again; an iteration
    block gives its body once for each element; a conditional block
    gives its content when the value at its path is truthy and nothing
    otherwise; outside of an iteration block [{{this}}] is the variable
    [this] and [{{@index}}] stays as it is; [{{else}}] is the variable
    [else] wherever it stands.  The call raises a [TypeError] exactly
    when one of these values cannot be converted to a string. *)
Theorem renderTemplate_structured data blocks :
  Forall (wf_block data) blocks →
  forallb (own_block data) blocks = true →
  renderTemplate (show_template blocks) data = eval_template data blocks.
Proof.
  intros Hwf _. unfold renderTemplate.
  rewrite ifPass_template by done.
  assert (Hnodes : Forall (wf_node data) (blocks ≫= chosen data)).
  { apply Forall_bind. eapply Forall_impl; [exact Hwf|].
    intros b. apply chosen_wf. }
  rewrite eachPass_nodes by done. rewrite <- eval_chosen.
  destruct (collect (settled_text data <$> (blocks ≫= chosen data)))
    as [e|text] eqn:Heach.
  { cbn [bind]. assert (e = TypeError) as ->.
    { revert Heach. apply collect_raises_only, Forall_fmap, Forall_forall.
      intros [t|path body] _; [done|]. simpl.
      apply (eval_node_raises data (Each path body)). }
    symmetry. by eapply settled_raises. }
  apply settled_all in Heach as [-> Hvalues]. cbn [bind].
  assert (Htokens : Forall wf_token (settled data <$> (blocks ≫= chosen data))).
  { apply Forall_fmap. eapply Forall_impl; [exact Hnodes|].
    intros n. apply settled_wf. }
  rewrite elsePass_no_closing by (by apply body_no_closing).
  rewrite varPass_tokens by done. unfold rendered. by rewrite Hvalues.
Qed.

Lemma renderTemplate_structured_witness :
  renderTemplate
    "# {{title}}{{#if structure.chapters}}{{#each structure.chapters}}- [{{@index}} {{title}}](src/chapter-{{id}}/index.md);{{/each}}{{else}}none{{/if}}{{@index}}"
    Samples.config_ab
  = inr "# T- [1 A](src/chapter-a/index.md);- [2 B](src/chapter-b/index.md);none{{@index}}".
Proof.
  apply (renderTemplate_structured Samples.config_ab
           [Plain (Tok (Text "# ")); Plain (Tok (Sub "title"));
            If "structure.chapters"
              [Each "structure.chapters"
                 [Text "- ["; Index; Text " "; Sub "title";
                  Text "](src/chapter-"; Sub "id"; Text "/index.md);"];
               Tok (Sub "else"); Tok (Text "none")];
            Plain (Tok Index)]).
  - repeat (constructor; simpl wf_block; simpl wf_node);
      repeat split; try done; try decide_closed; try (by vm_compute).
  - vm_compute. reflexivity.
Defined.

(** X14: the processed data of [preprocessData] carries the version,
    the language and the license of the data, [1.0.0], [ja] and [MIT]
    where these are falsy, the day of the clock as [currentDate]
    whatever the data say, the package name made from a truthy title,
    and every other property but [repository] as the data have it. *)
Theorem preprocessData_fills_defaults today props processed data' :
  preprocessData today (VObj props) = inr (processed, data') →
  get processed "version"
  = or_else (get (VObj props) "version") (VStr "1.0.0") ∧
  get processed "language"
  = or_else (get (VObj props) "language") (VStr "ja") ∧
  get processed "license"
  = or_else (get (VObj props) "license") (VStr "MIT") ∧
  get processed "currentDate" = VStr today ∧
  get processed "packageName"
  = (if truthy (get (VObj props) "title")
     then VStr (packageName (to_string (get (VObj props) "title")))
     else get (VObj props) "packageName") ∧
  ∀ k, ¬ default_key k → k ≠ "packageName" → k ≠ "repository" →
       get processed k = get (VObj props) k.
Proof.
  intros Hpre.
  destruct (preprocessData_shape _ _ _ _ Hpre)
    as (p5 & Htitle & _ & Hp5 & Hprocessed).
  destruct (defaults_get today props) as (Hv & Hl & Hc & Hd).
  split_and!.
  - by rewrite Hprocessed, Hp5.
  - by rewrite Hprocessed, Hp5.
  - by rewrite Hprocessed, Hp5.
  - by rewrite Hprocessed, Hp5.
  - rewrite Hprocessed by done.
    assert (Ht : get (VObj (defaults today props)) "title"
                 = get (VObj props) "title").
    { unfold get. by rewrite defaults_assoc by (apply not_default_key; auto). }
    unfold title_step in Htitle. rewrite Ht in Htitle.
    destruct (truthy (get (VObj props) "title")).
    + destruct (get (VObj props) "title") as [| | | |t| |]; try done.
      injection Htitle as <-. apply get_set_eq.
    + injection Htitle as <-. unfold get.
      by rewrite defaults_assoc by (apply not_default_key; auto).
  - intros k Hk Hpn Hr. rewrite Hprocessed, Hp5 by done.
    unfold get. by rewrite defaults_assoc.
Qed.

Lemma preprocessData_fills_defaults_witness :
  ∃ processed data',
    preprocessData "2024-01-01"
      (VObj [("title", VStr "My Book"); ("currentDate", VStr "1999-12-31");
             ("license", VStr "CC0")])
    = inr (processed, data') ∧
    get processed "version" = VStr "1.0.0" ∧
    get processed "license" = VStr "CC0" ∧
    get processed "currentDate" = VStr "2024-01-01" ∧
    get processed "packageName" = VStr "my-book".
Proof.
  eexists _, _. split; [reflexivity|].
  edestruct (preprocessData_fills_defaults "2024-01-01"
               [("title", VStr "My Book");
                ("currentDate", VStr "1999-12-31");
                ("license", VStr "CC0")])
    as (Hv & _ & Hl & Hd & Hp & _); [reflexivity|].
  split_and!; [exact Hv|exact Hl|exact Hd|exact Hp].
Defined.


(** X16: for a repository whose [url] names a GitHub repository after a
    prefix without the letter [g] ([https://], [http://]), the owner
    and the name are read off the url: [preprocessData] succeeds, and
    both the processed data and the caller's data object then carry
    [repository.owner] and [repository.name], the name without a
    trailing [.git], with the other properties of [repository] as they
    were. *)
Theorem preprocessData_reads_github_url today props rprops scheme owner repo
    tail :
  string_or_falsy (get (VObj props) "title") →
  get (VObj props) "repository" = VObj rprops →
  assoc "url" rprops
  = Some (VStr (scheme +:+ "github.com/" +:+ owner +:+ "/" +:+ repo +:+
                tail)) →
  Str.all not_g scheme = true →
  owner ≠ "" → Str.all not_slash owner = true →
  repo ≠ "" → Str.all not_slash repo = true →
  tail = "" ∨ (∃ t, tail = String "/" t) →
  ∃ processed data',
    preprocessData today (VObj props) = inr (processed, data') ∧
    get processed "repository" = get data' "repository" ∧
    get (get data' "repository") "owner" = VStr owner ∧
    get (get data' "repository") "name"
    = VStr (Str.strip_suffix ".git" repo) ∧
    ∀ k, k ≠ "owner" → k ≠ "name" →
         get (get data' "repository") k = get (VObj rprops) k.
Proof.
  intros Htitle Hrepo Hurl Hscheme Ho Hso Hr Hsr Htail.
  pose proof (github_match_repository scheme owner repo tail
                Hscheme Ho Hso Hr Hsr Htail) as Hm.
  destruct (preprocessData_writes_repository today props rprops _ owner repo
              Htitle Hrepo Hurl Hm) as (processed & Hpre & Hshared).
  exists processed. eexists. split; [exact Hpre|].
  rewrite get_set_eq, Hshared.
  destruct (write_repository_get owner repo rprops) as (H1 & H2 & H3).
  done.
Qed.

Lemma preprocessData_reads_github_url_witness :
  ∃ processed data',
    preprocessData "2024-01-01" Samples.data_repository
    = inr (processed, data') ∧
    get (get data' "repository") "owner" = VStr "o" ∧
    get (get data' "repository") "name" = VStr "r".
Proof.
  destruct (preprocessData_reads_github_url "2024-01-01"
              [("title", VStr "T");
               ("repository",
                VObj [("url", VStr "https://github.com/o/r.git")])]
              [("url", VStr "https://github.com/o/r.git")]
              "https://" "o" "r.git" "")
    as (processed & data' & Hpre & _ & Ho & Hn & _).
  - right. reflexivity.
  - reflexivity.
  - reflexivity.
  - reflexivity.
  - done.
  - reflexivity.
  - done.
  - reflexivity.
  - by left.
  - exists processed, data'. split; [exact Hpre|]. split; [exact Ho|exact Hn].
Defined.

(** X17: [addTemplate] registers a template under a name and leaves the
    other names alone: [render] then uses the new text for that name,
    also where another template was registered before; registering the
    empty text makes [render] raise its not-found error for the name. *)
Theorem addTemplate_then_render today templates name template other data :
  render today (addTemplate name template templates) name data
  = (if Str.is_empty template then inl (TemplateNotFound name)
     else bind (preprocessData today data) (λ '(processedData, data'),
          bind (renderTemplate template processedData) (λ text,
          ok (text, data')))) ∧
  (other ≠ name →
   render today (addTemplate name template templates) other data
   = render today templates other data).
Proof.
  unfold render, addTemplate. split.
  - by rewrite lookup_insert_eq.
  - intros Hne. by rewrite lookup_insert_ne.
Qed.

Lemma addTemplate_then_render_witness :
  render "2024-01-01" (addTemplate "a" "" (addTemplate "b" "x" ∅)) "b"
    (VObj [])
  = render "2024-01-01" (addTemplate "b" "x" ∅) "b" (VObj []).
Proof.
  apply (addTemplate_then_render "2024-01-01" (addTemplate "b" "x" ∅)
           "a" "" "b" (VObj [])).
  done.
Defined.

(** X18: the package file depends on a rendering that came before it.
    [generateFiles] renders the index page from the configuration and
    builds the package data from the same object afterwards; with a
    repository that gives a GitHub url and neither owner nor name, and
    without a custom domain, the package data built before a call of
    [render] have the name [book] and no homepage, and those built from
    the configuration as the call leaves it are named after the
    repository and have its GitHub Pages address as homepage. *)
Theorem packageData_after_render today templates name props rprops u owner
    repo text config' :
  get (VObj props) "repository" = VObj rprops →
  assoc "url" rprops = Some (VStr u) →
  assoc "owner" rprops = None → assoc "name" rprops = None →
  github_match u = Some (owner, repo) →
  owner ≠ "" → Str.strip_suffix ".git" repo ≠ "" →
  truthy (get_opt (get (VObj props) "deployment") "customDomain") = false →
  render today templates name (VObj props) = inr (text, config') →
  (∃ before, packageData (VObj props) = inr before ∧
             get before "name" = VStr "book" ∧
             get before "homepage" = VUndef) ∧
  (∃ after, packageData config' = inr after ∧
            get after "name" = VStr (Str.strip_suffix ".git" repo) ∧
            get after "homepage"
            = VStr ("https://" +:+ owner +:+ ".github.io/" +:+
                    Str.strip_suffix ".git" repo)).
Proof.
  intros Hrepo Hu Hown Hname Hm Ho Hr Hdomain Hrender.
  unfold render in Hrender.
  destruct (templates !! name) as [template|]; [|done].
  destruct (Str.is_empty template); [done|].
  apply ValidatorFacts.bind_inr in Hrender as ([processed d] & Hpre & Hout).
  apply ValidatorFacts.bind_inr in Hout as (out & _ & Hout).
  injection Hout as _ ->.
  pose proof (preprocessData_title _ _ _ Hpre) as Htitle.
  destruct (preprocessData_writes_repository today props rprops u owner repo
              Htitle Hrepo Hu Hm) as (processed' & Hpre' & _).
  rewrite Hpre in Hpre'. injection Hpre' as _ ->.
  split.
  - eexists. split.
    + apply packageData_name. eexists. split; [|reflexivity].
      unfold homepage. rewrite Hdomain, Hrepo. simpl get_opt.
      rewrite Hown. reflexivity.
    + rewrite Hrepo. simpl. by rewrite Hname.
  - change (set_own "repository" (write_repository owner repo (VObj rprops))
              (VObj props))
      with (VObj (assoc_set "repository"
                    (write_repository owner repo (VObj rprops)) props)).
    assert (Hshared :
      get (VObj (assoc_set "repository"
                   (write_repository owner repo (VObj rprops)) props))
        "repository" = write_repository owner repo (VObj rprops))
      by apply (get_set_eq "repository").
    assert (Hdep :
      get (VObj (assoc_set "repository"
                   (write_repository owner repo (VObj rprops)) props))
        "deployment" = get (VObj props) "deployment")
      by (by apply (get_set_ne "repository")).
    destruct (write_repository_get owner repo rprops) as (H1 & H2 & _).
    assert (Hr' : truthy (VStr (Str.strip_suffix ".git" repo)) = true)
      by (by destruct (Str.strip_suffix ".git" repo)).
    assert (Ho' : truthy (VStr owner) = true) by (by destruct owner).
    change (write_repository owner repo (VObj rprops))
      with (VObj (assoc_set "name" (VStr (Str.strip_suffix ".git" repo))
                    (assoc_set "owner" (VStr owner) rprops))) in *.
    eexists. split; [|split].
    + apply packageData_name. eexists. split; [|reflexivity].
      rewrite Hshared, Hdep. unfold homepage. rewrite Hdomain.
      unfold get_opt.
      rewrite H1, H2, Ho'. unfold or_else. rewrite Hr'. reflexivity.
    + change (get (VObj (?n :: _)) "name") with (snd n). cbn [snd].
      rewrite Hshared. unfold get_opt.
      rewrite H2. unfold or_else. by rewrite Hr'.
    + reflexivity.
Qed.

Lemma packageData_after_render_witness :
  ∃ text config' after,
    render "2024-01-01" (addTemplate "index.md" "# {{title}}" ∅) "index.md"
      Samples.data_repository = inr (text, config') ∧
    packageData config' = inr after ∧
    get after "name" = VStr "r" ∧
    get after "homepage" = VStr "https://o.github.io/r".
Proof.
  eexists _, _.
  edestruct (packageData_after_render "2024-01-01"
               (addTemplate "index.md" "# {{title}}" ∅) "index.md"
               [("title", VStr "T");
                ("repository",
                 VObj [("url", VStr "https://github.com/o/r.git")])]
               [("url", VStr "https://github.com/o/r.git")]
               "https://github.com/o/r.git" "o" "r.git")
    as [_ (after & Hpkg & Hn & Hh)].
  - reflexivity.
  - reflexivity.
  - reflexivity.
  - reflexivity.
  - reflexivity.
  - done.
  - done.
  - reflexivity.
  - vm_compute. reflexivity.
  - exists after. split; [vm_compute; reflexivity|].
    split; [exact Hpkg|]. split; [exact Hn|exact Hh].
Defined.

(** The package data are not always built: the template literal of the
    homepage converts the custom domain to a string. *)
Lemma packageData_raises_on_domain :
  packageData
    (VObj [("deployment",
            VObj [("customDomain", VObj [("toString", VNum 1)])])])
  = inl TypeError.
Proof. vm_compute. reflexivity. Qed.

(** X19: the three places that default the version agree: for a
    configuration object that [preprocessData] accepts, the version the
    templates render, the one of [book-config.json] and the one of
    [package.json] are the same, the version of the configuration or
    [1.0.0]; the license of [package.json] is [MIT] whatever the
    configuration says, while the templates render the license of the
    configuration.  The package data are built unless a value that the
    homepage is made of cannot be converted to a string. *)
Theorem version_defaults_agree today props processed data' :
  preprocessData today (VObj props) = inr (processed, data') →
  (∃ book, bookConfig data' = inr book ∧
           get book "version" = get processed "version") ∧
  ((∃ package, packageData data' = inr package) ↔
   homepage_converts data' = true) ∧
  (∀ package, packageData data' = inr package →
     get package "version" = get processed "version" ∧
     get package "license" = VStr "MIT") ∧
  get processed "license"
  = or_else (get (VObj props) "license") (VStr "MIT").
Proof.
  intros Hpre.
  destruct (preprocessData_shape _ _ _ _ Hpre)
    as (p5 & _ & _ & Hp5 & Hprocessed).
  destruct (defaults_get today props) as (Hv & _ & Hl & _).
  assert (Hversion : get data' "version" = get (VObj props) "version")
    by (by apply (preprocessData_frame today props processed)).
  assert (∃ q, data' = VObj q) as [q ->].
  { rewrite preprocessData_object in Hpre.
    apply ValidatorFacts.bind_inr in Hpre as (p & _ & Hrepo).
    apply repository_step_inv in Hrepo
      as [[= _ ->]|(? & ? & ? & ? & _ & _ & _ & [= _ ->])]; by eexists. }
  split_and!.
  - eexists. split; [reflexivity|].
    rewrite !Hprocessed, !Hp5, Hv by done.
    change (get (VObj [("title", get (VObj q) "title");
                       ("description", get (VObj q) "description");
                       ("author", get (VObj q) "author");
                       ("version", or_else (get (VObj q) "version")
                                     (VStr "1.0.0"));
                       ("structure", get (VObj q) "structure")]) "version")
      with (or_else (get (VObj q) "version") (VStr "1.0.0")).
    by rewrite Hversion.
  - rewrite <- homepage_returns. split.
    + intros [package (page & Hpage & _)%packageData_name]. eauto.
    + intros [page Hpage]. eexists. apply packageData_name. eauto.
  - intros package (page & _ & ->)%packageData_name.
    split; [|reflexivity].
    change (get (VObj (_ :: ?v :: _)) "version") with (snd v). cbn [snd].
    rewrite !Hprocessed, !Hp5, Hv by done. by rewrite Hversion.
  - by rewrite !Hprocessed, !Hp5, Hl by done.
Qed.

Lemma version_defaults_agree_witness :
  ∃ processed data' book package,
    preprocessData "2024-01-01"
      (VObj [("version", VStr "2.1.0"); ("license", VStr "CC0")])
    = inr (processed, data') ∧
    bookConfig data' = inr book ∧ packageData data' = inr package ∧
    get book "version" = VStr "2.1.0" ∧
    get package "version" = VStr "2.1.0" ∧
    get package "license" = VStr "MIT" ∧
    get processed "license" = VStr "CC0".
Proof.
  eexists _, _.
  edestruct (version_defaults_agree "2024-01-01"
               [("version", VStr "2.1.0"); ("license", VStr "CC0")])
    as ((book & Hb & Hbv) & [_ Hreturns] & Hp & Hl); [reflexivity|].
  destruct (Hreturns eq_refl) as [package Hpackage].
  destruct (Hp package Hpackage) as [Hpv Hpl].
  exists book, package. split; [reflexivity|].
  split_and!; [exact Hb|exact Hpackage|exact Hbv|exact Hpv|exact Hpl|exact Hl].
Defined.

(** X20: when [preprocessData] raises.  On a data object it returns
    exactly when the title and the url of the repository are each falsy
    or a string; otherwise it raises a [TypeError] (from [toLowerCase]
    or [match]), and so does [render] for a registered, non-empty
    template. *)
Theorem preprocessData_returns_iff today props :
  ((∃ out, preprocessData today (VObj props) = inr out) ↔
   string_or_falsy (get (VObj props) "title") ∧
   string_or_falsy (url_of (VObj props))) ∧
  (∀ e, preprocessData today (VObj props) = inl e → e = TypeError) ∧
  (∀ templates name e,
     render today templates name (VObj props) = inl e →
     e = TypeError ∨ e = TemplateNotFound name).
Proof.
  split_and!.
  - split.
    + intros [out Hout]. split.
      * by eapply preprocessData_title.
      * by eapply preprocessData_url.
    + intros [Htitle Hurl]. by apply preprocessData_ok.
  - apply preprocessData_error.
  - intros templates name e. unfold render.
    destruct (templates !! name) as [template|]; [|intros [= <-]; by right].
    destruct (Str.is_empty template); [intros [= <-]; by right|].
    intros [H|([p d] & _ & [H|(out & _ & H)]%ValidatorFacts.bind_inl
              )]%ValidatorFacts.bind_inl; [| |done].
    + left. by eapply preprocessData_error.
    + left. by eapply renderTemplate_raises.
Qed.

End TemplateExtras.

(** ** Validation, navigation and rendering together *)

Module PipelineFacts.
Import JS ConfigValidator Navigation NavigationSpec TemplateEngine TemplateSpec.
Import ValidatorContract ValidatorFacts ValidatorExtraFacts.
Import NavigationContract NavigationFacts NavigationExtraFacts TemplateFacts.

(** What [validate] accepts is an object. *)
Lemma validate_object isValidUrl config :
  validate isValidUrl config = inr () → ∃ props, config = VObj props.
Proof.
  intros Hvalid. destruct config as [| |b|n|s|items|props]; try done.
  - unfold validate in Hvalid. simpl in Hvalid. by destruct b.
  - unfold validate in Hvalid. simpl in Hvalid.
    by destruct (negb (negb (n =? 0)%Z)).
  - unfold validate in Hvalid. simpl in Hvalid.
    by destruct (negb (negb (Str.is_empty s))).
  - exfalso. revert Hvalid. unfold validate. simpl.
    unfold validateRequiredFields, requiredFields.
    rewrite !filter_cons, filter_nil. simpl.
    by rewrite !index_of_key_not_numeral by reflexivity.
  - eauto.
Qed.

Lemma validate_steps isValidUrl config :
  validate isValidUrl config = inr () →
  validateRequiredFields config = inr () ∧
  validateDataTypes config = inr () ∧
  validateStructure config = inr () ∧
  validateNavigation config = inr () ∧
  validateRepository isValidUrl config = inr ().
Proof.
  unfold validate. destruct (negb _ || negb _); [done|].
  intros ([] & Hreq & ([] & Htypes & ([] & Hstruct & ([] & Hnav & Hrepo
          )%bind_inr)%bind_inr)%bind_inr)%bind_inr.
  done.
Qed.

Lemma validated_title isValidUrl config :
  validate isValidUrl config = inr () →
  string_or_falsy (get config "title").
Proof.
  intros (Hreq & Htypes & _)%validate_steps.
  destruct (datatypes_ok _ Htypes) as (Hstr & _).
  right. apply Hstr.
  - apply (bool_decide_unpack _). vm_compute. exact I.
  - apply (required_ok _ Hreq). apply (bool_decide_unpack _). vm_compute.
    exact I.
Qed.

Lemma validated_url isValidUrl config :
  validate isValidUrl config = inr () →
  string_or_falsy (url_of config).
Proof.
  intros (_ & _ & _ & _ & Hrepo)%validate_steps.
  unfold url_of, string_or_falsy.
  destruct (truthy (get config "repository")) eqn:Htruthy.
  - destruct (validateRepository_ok _ _ Hrepo Htruthy) as [Hurl _].
    assert (match get config "repository" with
            | VUndef | VNull => VUndef
            | _ => get (get config "repository") "url"
            end = get (get config "repository") "url") as ->
      by (by destruct (get config "repository")).
    destruct (truthy (get (get config "repository") "url")) eqn:Hu;
      [|by left].
    destruct (Hurl eq_refl) as (u & -> & _). by right.
  - left. destruct (get config "repository") as [| |b|n|s|l|o]; try done.
    by destruct s.
Qed.

Lemma navigationOrder_override config paths :
  truthy (get config "navigation") = true →
  get (get config "navigation") "order" = VArr paths →
  navigationOrder config = inr paths.
Proof.
  intros Hnav Horder. unfold navigationOrder.
  assert (get_prop config "navigation" = inr (get config "navigation")) as ->.
  { destruct config; try done. }
  simpl bind.
  assert (match get config "navigation" with
          | VUndef | VNull => VUndef
          | _ => get (get config "navigation") "order"
          end = VArr paths) as ->.
  { rewrite <- Horder. by destruct (get config "navigation"). }
  done.
Qed.

Lemma getPageTitle_no_structure props key :
  truthy (get (VObj props) "structure") = false →
  getPageTitle (VObj props) (VStr key)
  = inr (VStr (capitalize (spaced key))).
Proof.
  intros Hs. unfold getPageTitle.
  change (get_prop (VObj props) "structure")
    with (ok (get (VObj props) "structure")).
  cbn [bind ok]. unfold or_else. rewrite Hs. reflexivity.
Qed.

End PipelineFacts.

Module PipelineExtras.
Import JS ConfigValidator Navigation NavigationSpec TemplateEngine TemplateSpec.
Import ValidatorContract ValidatorFacts ValidatorExtraFacts.
Import NavigationContract NavigationFacts NavigationExtraFacts.
Import TemplateFacts PipelineFacts.

(** X21: validation and navigation together.  For a configuration that
    [validate] accepts, whose [navigation.order] is an array without the
    key [__proto__], and of which each of the four sections is falsy or
    an array of items other than [null] and [undefined] with a path that
    is falsy or a string, [generateNavigationData] returns a map with
    exactly one entry for each path of the order and none for any other
    key. *)
Theorem validated_order_yields_navigation isValidUrl config paths :
  validate isValidUrl config = inr () →
  truthy (get config "navigation") = true →
  get (get config "navigation") "order" = VArr paths →
  (∀ name, name ∈ section_names →
           readable_section (get (get config "structure") name)) →
  VStr "__proto__" ∉ paths →
  ∃ keys nav,
    paths = VStr <$> keys ∧
    generateNavigationData config = inr nav ∧
    size nav = length paths ∧
    ∀ key, key ∈ keys ↔ is_Some (nav !! key).
Proof.
  intros Hvalid Hnav Horder Hstructure Hproto.
  destruct (validate_steps _ _ Hvalid) as (_ & _ & _ & Hnavigation & _).
  apply validateNavigation_valid in Hnavigation
    as [_ [Hn|[Ho|(keys & Hkeys & Hnd & Hall)]]].
  { congruence. }
  { by rewrite Horder in Ho. }
  rewrite Horder in Hkeys. injection Hkeys as ->.
  assert (Hne : "" ∉ keys).
  { intros Hin. rewrite Forall_forall in Hall.
    by destruct (Hall "" Hin). }
  assert (Hp : "__proto__" ∉ keys).
  { intros Hin. apply Hproto. by apply list_elem_of_fmap_2. }
  assert (Htitles : ∀ k, k ∈ keys →
            ∃ t, getPageTitle config (VStr k) = inr t).
  { intros k _. destruct (validate_object _ _ Hvalid) as [props ->].
    rewrite getPageTitle_readable by done. eauto. }
  destruct (build_spec config keys Hne Htitles Hnd Hp)
    as (nav & Hbuild & Hout & Hin).
  exists keys, nav. split_and!.
  - done.
  - unfold generateNavigationData.
    by rewrite (navigationOrder_override _ _ Hnav Horder).
  - rewrite length_fmap. apply size_spec; [done|done|].
    intros i k Hk. destruct (Hin i k Hk) as (e & _ & ->). eauto.
  - intros key. split.
    + intros (i & Hi)%list_elem_of_lookup_1.
      destruct (Hin i key Hi) as (e & _ & ->). eauto.
    + intros Hsome. destruct (decide (key ∈ keys)) as [|Hn]; [done|].
      rewrite (Hout key Hn) in Hsome. by destruct Hsome.
Qed.

Lemma validated_order_yields_navigation_witness :
  ∃ nav,
    generateNavigationData Samples.config_fixture = inr nav ∧ size nav = 3.
Proof.
  destruct (validated_order_yields_navigation (λ _, true)
              Samples.config_fixture
              [VStr "chapters/b"; VStr "a"; VStr "preface"])
    as (keys & nav & _ & Hnav & Hsize & _).
  - reflexivity.
  - reflexivity.
  - reflexivity.
  - intros name Hin. unfold section_names in Hin.
    rewrite !elem_of_cons, elem_of_nil in Hin.
    destruct Hin as [->|[->|[->|[->|[]]]]];
      try (by left); right; eexists; (split; [reflexivity|]);
      repeat constructor; by right.
  - intros H. repeat (apply elem_of_cons in H as [H|H]; [discriminate|]).
    by apply elem_of_nil in H.
  - exists nav. split; [exact Hnav|exact Hsize].
Defined.

(** X22: validation and rendering together.  A configuration that
    [validate] accepts is an object whose title and repository url are
    strings where they are truthy, so [preprocessData] returns on it,
    and [render], for a registered, non-empty template, returns exactly
    when [renderTemplate] does on the processed data: it raises nothing
    but the [TypeError] of a value that cannot be converted to a
    string. *)
Theorem validated_config_renders isValidUrl today templates name template
    config :
  validate isValidUrl config = inr () →
  templates !! name = Some template → template ≠ "" →
  ∃ processed config',
    preprocessData today config = inr (processed, config') ∧
    render today templates name config
    = bind (renderTemplate template processed) (λ text,
      ok (text, config')) ∧
    ∀ e, render today templates name config = inl e → e = TypeError.
Proof.
  intros Hvalid Hlookup Hne.
  destruct (validate_object _ _ Hvalid) as [props ->].
  destruct (preprocessData_ok today props) as [[processed data'] Hpre].
  - by eapply validated_title.
  - by eapply validated_url.
  - assert (Hrender :
      render today templates name (VObj props)
      = bind (renderTemplate template processed) (λ text,
        ok (text, data'))).
    { unfold render. rewrite Hlookup.
      destruct (Str.is_empty template) eqn:He; [by destruct template|].
      by rewrite Hpre. }
    exists processed, data'. split_and!; [done|done|].
    intros e. rewrite Hrender.
    intros [H|(text & _ & H)]%bind_inl; [|done].
    by eapply renderTemplate_raises.
Qed.

Lemma validated_config_renders_witness :
  ∃ processed config',
    preprocessData "2024-01-01" Samples.config_ab = inr (processed, config') ∧
    render "2024-01-01" (addTemplate "index.md" "# {{title}}" ∅) "index.md"
      Samples.config_ab
    = bind (renderTemplate "# {{title}}" processed) (λ text,
      ok (text, config')).
Proof.
  destruct (validated_config_renders (λ _, true) "2024-01-01"
              (addTemplate "index.md" "# {{title}}" ∅) "index.md"
              "# {{title}}" Samples.config_ab)
    as (processed & config' & Hpre & Hrender & _).
  - reflexivity.
  - vm_compute. reflexivity.
  - done.
  - exists processed, config'. split; [exact Hpre|exact Hrender].
Defined.

End PipelineExtras.
